(** * Dark-current subtraction (stcal/dark_current/dark_sub.py)

    A shallow embedding of the dark subtraction module: frame accounting,
    extrapolation of the dark reference, frame averaging (3-D and 4-D
    darks), the subtraction with data-quality merging, and the
    orchestrating [do_correction_data].

    Conventions of the embedding.

    - Python integers are [Z].  [range(n)] is [seqZ 0 n].
    - A numpy array is a rectangular nested list; [a.shape[k]] is the
      length found by descending [k] times into the first element.  An
      array whose leading axis is empty therefore loses its trailing
      extents; statements that need them assume a non-empty axis.
    - Pixel values live in an abstract arithmetic [PixelArith] (the
      element type of the arrays and numpy's elementwise operations on
      it).  Casts between float widths are not represented.  [B64] is the
      IEEE-754 binary64 instance built on [SpecFloat].
    - Exceptions are values of [exn]; array-level code runs in [res],
      object-level code in the state-and-error monad [M] over a heap that
      holds the arrays and the [ScienceData]/[DarkData] objects, so that
      attribute assignment, in-place array updates and aliasing are the
      ones of the source. *)

From Stdlib Require Import ZArith List Lia Bool.
From Stdlib Require Import Floats.SpecFloat.
From stdpp Require Import base option list numbers strings.

Local Open Scope Z_scope.

(** ** Exceptions and the error monad *)

Inductive exn :=
| IndexError          (* index out of bounds *)
| ValueError          (* operands could not be broadcast, negative dimension *)
| ZeroDivisionError
| Stuck.              (* dangling reference or a cell of an unexpected kind:
                         a state outside the modelled domain *)

Inductive res (A : Type) :=
| Ok (a : A)
| Raise (e : exn).
Arguments Ok {A} a.
Arguments Raise {A} e.

#[global] Instance res_ret : MRet res := @Ok.
#[global] Instance res_bind : MBind res := fun A B f m =>
  match m with Ok a => f a | Raise e => Raise e end.

Definition of_option {A} (e : exn) (o : option A) : res A :=
  match o with Some a => Ok a | None => Raise e end.

Fixpoint mapM_res {A B} (f : A -> res B) (l : list A) : res (list B) :=
  match l with
  | [] => Ok []
  | x :: l' => y ← f x; ys ← mapM_res f l'; Ok (y :: ys)
  end.

Fixpoint zipM_res {A B C} (f : A -> B -> res C) (la : list A) (lb : list B)
  : res (list C) :=
  match la, lb with
  | x :: la', y :: lb' => z ← f x y; zs ← zipM_res f la' lb'; Ok (z :: zs)
  | _, _ => Ok []
  end.

(** A [for] loop over a list of indices with an accumulator that may raise. *)
Fixpoint foldM_res {A St} (body : St -> A -> res St) (s : St) (l : list A)
  : res St :=
  match l with
  | [] => Ok s
  | x :: l' => s' ← body s x; foldM_res body s' l'
  end.

(** ** Python sequence primitives *)

Definition len {A} (l : list A) : Z := Z.of_nat (length l).

(** [l[i]] with Python's negative indices. *)
Definition py_index {A} (l : list A) (i : Z) : res A :=
  let j := if i <? 0 then i + len l else i in
  if (0 <=? j) && (j <? len l)
  then of_option IndexError (l !! Z.to_nat j)
  else Raise IndexError.

(** Bound normalisation of a slice [l[lo:hi]]. *)
Definition py_clamp (n i : Z) : Z :=
  if i <? 0 then Z.max 0 (i + n) else Z.min i n.

Definition py_slice {A} (l : list A) (lo hi : Z) : list A :=
  let a := Z.to_nat (py_clamp (len l) lo) in
  let b := Z.to_nat (py_clamp (len l) hi) in
  take (b - a)%nat (drop a l).

(** [a[i] = x] on an existing axis (non-negative [i] only, which is what the
    loops of this module produce). *)
Definition py_setitem {A} (l : list A) (i : Z) (x : A) : res (list A) :=
  if (0 <=? i) && (i <? len l)
  then Ok (<[Z.to_nat i := x]> l)
  else Raise IndexError.

(** Extent of the second and third axes. *)
Definition shape1 {A} (a : list (list A)) : Z := len (hd [] a).
Definition shape2 {A} (a : list (list (list A))) : Z := shape1 (hd [] a).
Definition shape3 {A} (a : list (list (list (list A)))) : Z := shape2 (hd [] a).

(** ** numpy broadcasting along one axis *)

(** Right operand stretched to the extent [n] of the destination, as in an
    in-place operation [a -= b]. *)
Definition bcast_to {A} (n : nat) (l : list A) : res (list A) :=
  if decide (length l = n) then Ok l
  else match l with
       | [x] => Ok (replicate n x)
       | _ => Raise ValueError
       end.

(** Both operands stretched, as in [np.bitwise_or(a, b)]. *)
Definition bcast2 {A B C} (f : A -> B -> res C) (la : list A) (lb : list B)
  : res (list C) :=
  if decide (length la = length lb) then zipM_res f la lb
  else match la, lb with
       | [x], _ => mapM_res (f x) lb
       | _, [y] => mapM_res (fun x => f x y) la
       | _, _ => Raise ValueError
       end.

(** ** Pixel arithmetic *)

Class PixelArith := {
  F : Type;
  fzero : F;
  fnan : F;
  fadd : F -> F -> F;
  fsub : F -> F -> F;
  fmul : F -> F -> F;
  fdiv : F -> F -> F;
  of_int : Z -> F;          (* integer to floating conversion *)
  is_nan : F -> bool;       (* np.isnan *)
}.

(** IEEE-754 binary64. *)
Module B64.
Definition prec : Z := 53.
Definition emax : Z := 1024.
Definition t := spec_float.
Definition zero : t := S754_zero false.
Definition nan : t := S754_nan.
Definition add : t -> t -> t := SFadd prec emax.
Definition sub : t -> t -> t := SFsub prec emax.
Definition mul : t -> t -> t := SFmul prec emax.
Definition div : t -> t -> t := SFdiv prec emax.
Definition of_Z (z : Z) : t := binary_normalize prec emax z 0 false.
Definition isnan (x : t) : bool :=
  match x with S754_nan => true | _ => false end.
#[global] Instance arith : PixelArith := {|
  F := t; fzero := zero; fnan := nan;
  fadd := add; fsub := sub; fmul := mul; fdiv := div;
  of_int := of_Z; is_nan := isnan |}.
End B64.

(** ** Objects

    The attributes of [ScienceData] and [DarkData] that the module reads or
    writes.  Array-valued attributes hold references into the heap. *)

Definition loc := nat.

Record ScienceData := mkScienceData {
  s_data : loc;                  (* 4-D [integration, group, row, column] *)
  s_pixeldq : loc;               (* 2-D flags *)
  s_exp_nframes : Z;
  s_exp_groupgap : Z;
  s_exp_intstart : option Z;     (* None when the keyword is absent *)
  s_cal_step : string;
}.

Record DarkData := mkDarkData {
  d_data : loc;                  (* 3-D or 4-D *)
  d_groupdq : loc;               (* 2-D for a 3-D dark, 4-D for a 4-D dark *)
  d_exp_nframes : Z;
  d_exp_groupgap : Z;
  d_exp_ngroups : Z;
  d_save : bool;
  d_output_name : option string;
}.

(** Frame accounting: lines 105-106 of the source, once for the science
    exposure and once for the dark. *)
Definition total_frames (ngroups nframes groupgap : Z) : Z :=
  ngroups * nframes + (ngroups - 1) * groupgap.

(** [np.ceil(a / b).astype(int)] on Python integers.  The quotient is taken
    in binary64 in the source; it is exact on the integers of a cadence. *)
Definition ceil_div (a b : Z) : res Z :=
  if b =? 0 then Raise ZeroDivisionError else Ok (- ((- a) / b)).

(** ** Array kernels

    The array computations of the module, on array values.  Each one is the
    body of the corresponding loop or helper of the source. *)

Section DarkSub.
Context `{PA : PixelArith}.

Local Abbreviation plane := (list (list F)).
Local Abbreviation cube := (list (list (list F))).
Local Abbreviation dqplane := (list (list Z)).

(** Elementwise operation on two planes taken from arrays of one shape. *)
Definition plane_map2 (f : F -> F -> F) (a b : plane) : plane :=
  zip_with (zip_with f) a b.

(** Nested helper of [extrapolate_dark]. *)
Definition _extrapolate_int (arr : cube) (ngroups : Z) : res cube :=
  last ← py_index arr (-1);
  prev ← py_index arr (-2);
  let rate_arr := plane_map2 fsub last prev in
  if ngroups <? 0 then Raise ValueError
  else
    let new_groups :=
      (fun k => plane_map2 (fun r l => fadd (fmul (of_int k) r) l) rate_arr last)
        <$> seqZ 1 ngroups in
    Ok (arr ++ new_groups).

(** [frames.mean(axis=0)]: the frames are added up in order, starting
    from the first one, and the sum is divided by their number.  An empty
    stack of frames gives a plane of NaN of the source's spatial shape. *)
Definition mean_axis0 (dny dnx : Z) (frames : list plane) : plane :=
  match frames with
  | [] => replicate (Z.to_nat dny) (replicate (Z.to_nat dnx) fnan)
  | f0 :: rest =>
      map (map (fun s => fdiv s (of_int (len frames))))
          (fold_left (plane_map2 fadd) rest f0)
  end.

(** Loop over the groups in [average_dark_frames_3d] (and, per
    integration, in [average_dark_frames_4d]): [src] is the dark's cube,
    [data] the cube being filled. *)
Definition average_groups (src : cube) (ngroups nframes groupgap : Z)
    (data : cube) : res cube :=
  r ← foldM_res
        (fun (st : Z * cube) (group : Z) =>
           let start := st.1 in
           let end_ := start + nframes in
           g ← (if decide (nframes = 1) then py_index src start
                else Ok (mean_axis0 (shape1 src) (shape2 src)
                                    (py_slice src start end_)));
           data' ← py_setitem st.2 group g;
           Ok (end_ + groupgap, data'))
        (0, data) (seqZ 0 ngroups);
  Ok r.2.

(** [a -= b] on planes: [b] is broadcast to the shape of [a]. *)
Definition isub_plane (a b : plane) : res plane :=
  b' ← bcast_to (length a) b;
  zipM_res (fun ra rb => rb' ← bcast_to (length ra) rb;
                         Ok (zip_with fsub ra rb')) a b'.

(** Inner loop of [subtract_dark]: [output.data[i, j] -= dark_sci[j]]. *)
Definition subtract_groups (dark_sci : cube) (sci_ngroups : Z) (integ : cube)
  : res cube :=
  foldM_res
    (fun (integ : cube) (j : Z) =>
       o ← py_index integ j;
       d ← py_index dark_sci j;
       r ← isub_plane o d;
       py_setitem integ j r)
    integ (seqZ 0 sci_ngroups).

(** [np.bitwise_or] on two flag planes. *)
Definition bitwise_or (a b : dqplane) : res dqplane :=
  bcast2 (bcast2 (fun x y => Ok (Z.lor x y))) a b.

(** Collapse of the per-integration flag planes of a 4-D dark. *)
Definition collapse_dq (groupdq : list (list dqplane)) (dark_nints : Z)
  : res dqplane :=
  g0 ← py_index groupdq 0;
  p0 ← py_index g0 0;
  foldM_res
    (fun (darkdq : dqplane) (i : Z) =>
       gi ← py_index groupdq i;
       pi ← py_index gi 0;
       bitwise_or darkdq pi)
    p0 (seqZ 1 (dark_nints - 1)).

(** [a[np.isnan(a)] = 0.0] on one element. *)
Definition nan_to_zero (x : F) : F := if is_nan x then fzero else x.

(** [np.zeros(dims)]-like allocation of a cube filled with [v]. *)
Definition full_cube (ngroups dny dnx : Z) (v : F) : res cube :=
  if (ngroups <? 0) || (dny <? 0) || (dnx <? 0) then Raise ValueError
  else Ok (replicate (Z.to_nat ngroups)
             (replicate (Z.to_nat dny) (replicate (Z.to_nat dnx) v))).


(** ** Heap *)

Inductive ndarray :=
| F3 (a : cube)                      (* 3-D pixel array *)
| F4 (a : list cube)                 (* 4-D pixel array *)
| Q2 (a : dqplane)                   (* 2-D flag array *)
| Q4 (a : list (list dqplane)).      (* 4-D flag array *)

Inductive cell :=
| Arr (a : ndarray)
| Sci (s : ScienceData)
| Dark (d : DarkData).

Definition heap := list cell.

Definition M (A : Type) : Type := heap -> res (A * heap).

#[global] Instance M_ret : MRet M := fun A a h => Ok (a, h).
#[global] Instance M_bind : MBind M := fun A B f m h =>
  match m h with
  | Ok (a, h') => f a h'
  | Raise e => Raise e
  end.

Definition lift {A} (r : res A) : M A := fun h =>
  match r with Ok a => Ok (a, h) | Raise e => Raise e end.

Definition alloc (c : cell) : M loc := fun h => Ok (length h, h ++ [c]).

Definition get_cell (l : loc) : M cell := fun h =>
  match h !! l with Some c => Ok (c, h) | None => Raise Stuck end.

Definition set_cell (l : loc) (c : cell) : M unit := fun h =>
  if decide (l < length h)%nat then Ok (tt, <[l := c]> h) else Raise Stuck.

Definition get_arr (l : loc) : M ndarray :=
  c ← get_cell l; match c with Arr a => mret a | _ => lift (Raise Stuck) end.

Definition get_sci (l : loc) : M ScienceData :=
  c ← get_cell l; match c with Sci s => mret s | _ => lift (Raise Stuck) end.

Definition get_dark (l : loc) : M DarkData :=
  c ← get_cell l; match c with Dark d => mret d | _ => lift (Raise Stuck) end.

Definition get_F4 (l : loc) : M (list cube) :=
  a ← get_arr l; match a with F4 x => mret x | _ => lift (Raise Stuck) end.

Definition get_Q2 (l : loc) : M dqplane :=
  a ← get_arr l; match a with Q2 x => mret x | _ => lift (Raise Stuck) end.

(** [copy.deepcopy(science_data)]: a new object with new arrays. *)
Definition deepcopy_sci (science_data : loc) : M loc :=
  s ← get_sci science_data;
  a ← get_arr (s_data s);
  q ← get_arr (s_pixeldq s);
  la ← alloc (Arr a);
  lq ← alloc (Arr q);
  alloc (Sci (mkScienceData la lq (s_exp_nframes s) (s_exp_groupgap s)
                            (s_exp_intstart s) (s_cal_step s))).

(** [obj.cal_step = v] *)
Definition set_cal_step (l : loc) (v : string) : M unit :=
  s ← get_sci l;
  set_cell l (Sci (mkScienceData (s_data s) (s_pixeldq s) (s_exp_nframes s)
                     (s_exp_groupgap s) (s_exp_intstart s) v)).

(** [obj.pixeldq = <array at q>] *)
Definition set_pixeldq (l : loc) (q : loc) : M unit :=
  s ← get_sci l;
  set_cell l (Sci (mkScienceData (s_data s) q (s_exp_nframes s)
                     (s_exp_groupgap s) (s_exp_intstart s) (s_cal_step s))).

(** [obj.save = True; obj.output_name = name] *)
Definition set_save (l : loc) (name : string) : M unit :=
  d ← get_dark l;
  set_cell l (Dark (mkDarkData (d_data d) (d_groupdq d) (d_exp_nframes d)
                      (d_exp_groupgap d) (d_exp_ngroups d) true (Some name))).

(** ** The functions of the module *)

(** The two branches of [extrapolate_dark] on the rank of the array. *)
Definition extrapolate_array (a : ndarray) (ngroups : Z) : res ndarray :=
  match a with
  | F4 tmp_dark =>
      let init_groups := shape1 tmp_dark in
      (* np.full((nints, init_groups + ngroups, nx, ny), nan) *)
      if init_groups + ngroups <? 0 then Raise ValueError
      else
        x ← mapM_res (fun c => _extrapolate_int c ngroups) tmp_dark;
        Ok (F4 x)
  | F3 arr => x ← _extrapolate_int arr ngroups; Ok (F3 x)
  | _ => Raise Stuck
  end.

Definition extrapolate_dark (dark_data : loc) (ngroups : Z) : M unit :=
  d ← get_dark dark_data;
  a ← get_arr (d_data d);
  new ← lift (extrapolate_array a ngroups);
  l ← alloc (Arr new);
  set_cell dark_data
    (Dark (mkDarkData l (d_groupdq d) (d_exp_nframes d) (d_exp_groupgap d)
             (d_exp_ngroups d + ngroups) (d_save d) (d_output_name d))).

(** The value with which [dark_class.DarkData(dims)] fills the data array
    it creates.  The class is not part of the module; the fill is a
    parameter of the development. *)
Variable dark_fill : F.

(** [DarkData(dims)] followed by the assignments to [groupdq], [data] and
    the cadence attributes.  The arrays the constructor creates for other
    attributes are dropped by those assignments and are not represented;
    [save] and [output_name] start unset. *)
Definition new_dark (data : ndarray) (groupdq : loc)
    (nframes ngroups groupgap : Z) : M loc :=
  l ← alloc (Arr data);
  alloc (Dark (mkDarkData l groupdq nframes groupgap ngroups false None)).

Definition average_dark_frames_3d (dark_data : loc)
    (ngroups nframes groupgap : Z) : M loc :=
  d ← get_dark dark_data;
  a ← get_arr (d_data d);
  match a with
  | F3 src =>
      let dny := shape1 src in
      let dnx := shape2 src in
      init ← lift (full_cube ngroups dny dnx dark_fill);
      data ← lift (average_groups src ngroups nframes groupgap init);
      new_dark (F3 data) (d_groupdq d) nframes ngroups groupgap
  | _ => lift (Raise Stuck)
  end.

(** Loop over the integrations in [average_dark_frames_4d]. *)
Definition average_ints (src : list cube) (num_ints ngroups nframes groupgap : Z)
    (data : list cube) : res (list cube) :=
  foldM_res
    (fun (data : list cube) (it : Z) =>
       s ← py_index src it;
       o ← py_index data it;
       o' ← average_groups s ngroups nframes groupgap o;
       py_setitem data it o')
    data (seqZ 0 num_ints).

Definition average_dark_frames_4d (dark_data : loc)
    (nints ngroups nframes groupgap : Z) : M loc :=
  d ← get_dark dark_data;
  a ← get_arr (d_data d);
  match a with
  | F4 src =>
      let dint := len src in
      let dny := shape2 src in
      let dnx := shape3 src in
      one ← lift (full_cube ngroups dny dnx dark_fill);
      let init := replicate (Z.to_nat dint) one in
      let num_ints := if dint >? nints then nints else dint in
      data ← lift (average_ints src num_ints ngroups nframes groupgap init);
      new_dark (F4 data) (d_groupdq d) nframes ngroups groupgap
  | F3 _ => lift (Raise IndexError)     (* shape[3] of a 3-D array *)
  | _ => lift (Raise Stuck)
  end.

(** Loop over the science integrations in [subtract_dark]. *)
Definition subtract_ints (dark : ndarray) (int_start dark_nints : Z)
    (sci_nints sci_ngroups : Z) (out : list cube) : res (list cube) :=
  foldM_res
    (fun (out : list cube) (i : Z) =>
       dark_sci ← match dark with
                  | F4 data =>
                      if (i <? dark_nints) && (int_start =? 1)
                      then py_index data i
                      else py_index data (-1)
                  | F3 data => Ok data
                  | _ => Raise Stuck
                  end;
       integ ← py_index out i;
       integ' ← subtract_groups dark_sci sci_ngroups integ;
       py_setitem out i integ')
    out (seqZ 0 sci_nints).

(** The dark's flag plane: lines 353-361. *)
Definition dark_dq (a groupdq : ndarray) (dark_nints : Z) : res dqplane :=
  match a with
  | F4 _ => match groupdq with
            | Q4 g => collapse_dq g dark_nints
            | _ => Raise Stuck
            end
  | _ => match groupdq with
         | Q2 p => Ok p
         | _ => Raise Stuck
         end
  end.

Definition subtract_dark (science_data dark_data : loc) : M loc :=
  s ← get_sci science_data;
  let int_start := default 1 (s_exp_intstart s) in
  d ← get_dark dark_data;
  a ← get_arr (d_data d);
  let dark_nints := match a with F4 x => len x | _ => 1 end in
  sdata ← get_F4 (s_data s);
  output ← deepcopy_sci science_data;
  g ← get_arr (d_groupdq d);
  darkdq ← lift (dark_dq a g dark_nints);
  spdq ← get_Q2 (s_pixeldq s);
  newdq ← lift (bitwise_or spdq darkdq);
  lq ← alloc (Arr (Q2 newdq));
  _ ← set_pixeldq output lq;
  o ← get_sci output;
  odata ← get_F4 (s_data o);
  odata' ← lift (subtract_ints a int_start dark_nints
                   (len sdata) (shape1 sdata) odata);
  _ ← set_cell (s_data o) (Arr (F4 odata'));
  mret output.

(** [a[np.isnan(a)] = 0.0] on a pixel array. *)
Definition nans_to_zero (a : ndarray) : res ndarray :=
  match a with
  | F3 x => Ok (F3 (map (map (map nan_to_zero)) x))
  | F4 x => Ok (F4 (map (map (map (map nan_to_zero))) x))
  | _ => Raise Stuck
  end.

(** [dark_data.data[np.isnan(dark_data.data)] = 0.0], in place. *)
Definition replace_nans (dark_data : loc) : M unit :=
  d ← get_dark dark_data;
  a ← get_arr (d_data d);
  a' ← lift (nans_to_zero a);
  set_cell (d_data d) (Arr a').

Definition do_correction_data (science_data dark_data : loc)
    (dark_output : option string) : M (loc * option loc) :=
  s ← get_sci science_data;
  sdata ← get_F4 (s_data s);
  let sci_nints := len sdata in
  let sci_ngroups := shape1 sdata in
  let sci_nframes := s_exp_nframes s in
  let sci_groupgap := s_exp_groupgap s in
  d ← get_dark dark_data;
  a ← get_arr (d_data d);
  shp ← lift (match a with
              | F4 x => Ok (len x, shape1 x)
              | F3 x => Ok (1, len x)
              | _ => Raise Stuck
              end);
  let drk_nints : Z := shp.1 in
  let drk_ngroups : Z := shp.2 in
  let drk_nframes := d_exp_nframes d in
  let drk_groupgap := d_exp_groupgap d in
  let sci_total_frames := total_frames sci_ngroups sci_nframes sci_groupgap in
  let drk_total_frames := total_frames drk_ngroups drk_nframes drk_groupgap in
  _ ← (if sci_total_frames >? drk_total_frames then
         let frames_to_extrapolate := sci_total_frames - drk_total_frames in
         groups_to_extrapolate ←
           lift (ceil_div (frames_to_extrapolate + drk_groupgap)
                          (drk_nframes + drk_groupgap));
         extrapolate_dark dark_data groups_to_extrapolate
       else mret tt);
  if (drk_nframes >? sci_nframes) || (drk_groupgap >? sci_groupgap) then
    _ ← set_cal_step science_data "SKIPPED";
    out_data ← deepcopy_sci science_data;
    mret (out_data, None)
  else
    _ ← replace_nans dark_data;
    if (sci_nframes =? drk_nframes) && (sci_groupgap =? drk_groupgap) then
      output_data ← subtract_dark science_data dark_data;
      averaged_dark ← match dark_output with
                      | Some name => _ ← set_save dark_data name;
                                     mret (Some dark_data)
                      | None => mret None
                      end;
      _ ← set_cal_step output_data "COMPLETE";
      mret (output_data, averaged_dark)
    else
      d' ← get_dark dark_data;
      a' ← get_arr (d_data d');
      averaged_dark ← match a' with
                      | F4 _ => average_dark_frames_4d dark_data sci_nints
                                  sci_ngroups sci_nframes sci_groupgap
                      | _ => average_dark_frames_3d dark_data
                               sci_ngroups sci_nframes sci_groupgap
                      end;
      _ ← match dark_output with
          | Some name => set_save averaged_dark name
          | None => mret tt
          end;
      output_data ← subtract_dark science_data averaged_dark;
      _ ← set_cal_step output_data "COMPLETE";
      mret (output_data, Some averaged_dark).

End DarkSub.

(** ** Shapes

    Rectangularity of the nested lists that stand for numpy arrays. *)

Definition plane_shape {A} (r c : nat) (p : list (list A)) : Prop :=
  length p = r /\ Forall (fun row => length row = c) p.

Definition cube_shape {A} (g r c : nat) (x : list (list (list A))) : Prop :=
  length x = g /\ Forall (plane_shape r c) x.

Definition hyper_shape {A} (n g r c : nat)
    (x : list (list (list (list A)))) : Prop :=
  length x = n /\ Forall (cube_shape g r c) x.

#[global] Instance plane_shape_dec {A} r c (p : list (list A)) :
  Decision (plane_shape r c p).
Proof. unfold plane_shape. apply _. Defined.

#[global] Instance cube_shape_dec {A} g r c (x : list (list (list A))) :
  Decision (cube_shape g r c x).
Proof. unfold cube_shape. apply _. Defined.

#[global] Instance hyper_shape_dec {A} n g r c
    (x : list (list (list (list A)))) : Decision (hyper_shape n g r c x).
Proof. unfold hyper_shape. apply _. Defined.

(** ** Generic facts: error monad, loops, indexing *)

Lemma res_bind_Ok {A B} (m : res A) (f : A -> res B) a :
  m = Ok a -> (m ≫= f) = f a.
Proof. intros ->. reflexivity. Qed.

Lemma res_bind_inv {A B} (m : res A) (f : A -> res B) b :
  (m ≫= f) = Ok b -> exists a, m = Ok a /\ f a = Ok b.
Proof. destruct m as [a|e]; [eauto | discriminate]. Qed.

Lemma len_nonneg {A} (l : list A) : 0 <= len l.
Proof. unfold len. lia. Qed.

Lemma py_index_nat {A} (l : list A) (i : nat) x :
  l !! i = Some x -> py_index l (Z.of_nat i) = Ok x.
Proof.
  intros H. pose proof (lookup_lt_Some _ _ _ H) as Hlt.
  unfold py_index, len.
  destruct (Z.ltb_spec (Z.of_nat i) 0); [lia|].
  destruct (Z.leb_spec 0 (Z.of_nat i)); [|lia].
  destruct (Z.ltb_spec (Z.of_nat i) (Z.of_nat (length l))); [|lia].
  simpl. rewrite Nat2Z.id, H. reflexivity.
Qed.

Lemma py_index_Z {A} (l : list A) (i : Z) x :
  0 <= i -> l !! Z.to_nat i = Some x -> py_index l i = Ok x.
Proof.
  intros Hi H. rewrite <- (Z2Nat.id i) by lia. by apply py_index_nat.
Qed.

Lemma py_index_inv {A} (l : list A) (i : Z) x :
  0 <= i -> py_index l i = Ok x -> l !! Z.to_nat i = Some x.
Proof.
  intros Hi. unfold py_index.
  destruct (Z.ltb_spec i 0); [lia|].
  destruct (_ && _); [|discriminate].
  destruct (l !! Z.to_nat i); simpl; congruence.
Qed.

Lemma py_index_oob {A} (l : list A) (i : Z) :
  len l <= i -> py_index l i = Raise IndexError.
Proof.
  intros Hi. pose proof (len_nonneg l). unfold py_index.
  destruct (Z.ltb_spec i 0); [lia|].
  destruct (Z.ltb_spec i (len l)); [lia|].
  by rewrite andb_false_r.
Qed.

(** [l[-k]] for [1 <= k]: the [k]-th element from the end, or IndexError. *)
Lemma py_index_back {A} (l : list A) (k : nat) :
  (1 <= k)%nat ->
  py_index l (- Z.of_nat k) =
    if decide (k <= length l)%nat
    then of_option IndexError (l !! (length l - k)%nat)
    else Raise IndexError.
Proof.
  intros Hk. unfold py_index, len.
  destruct (Z.ltb_spec (- Z.of_nat k) 0); [|lia].
  case_decide.
  - destruct (Z.leb_spec 0 (- Z.of_nat k + Z.of_nat (length l))); [|lia].
    destruct (Z.ltb_spec (- Z.of_nat k + Z.of_nat (length l))
                         (Z.of_nat (length l))); [|lia].
    simpl. f_equal. f_equal. lia.
  - destruct (Z.leb_spec 0 (- Z.of_nat k + Z.of_nat (length l))); [lia|].
    reflexivity.
Qed.

Lemma py_setitem_nat {A} (l : list A) (i : nat) x :
  (i < length l)%nat -> py_setitem l (Z.of_nat i) x = Ok (<[i := x]> l).
Proof.
  intros H. unfold py_setitem, len.
  destruct (Z.leb_spec 0 (Z.of_nat i)); [|lia].
  destruct (Z.ltb_spec (Z.of_nat i) (Z.of_nat (length l))); [|lia].
  simpl. by rewrite Nat2Z.id.
Qed.

Lemma py_setitem_Z {A} (l : list A) (i : Z) x :
  0 <= i -> (Z.to_nat i < length l)%nat ->
  py_setitem l i x = Ok (<[Z.to_nat i := x]> l).
Proof.
  intros Hi H. rewrite <- (Z2Nat.id i) at 1 by lia. by apply py_setitem_nat.
Qed.

Lemma py_slice_inner {A} (l : list A) (lo n : Z) :
  0 <= lo -> 0 <= n -> lo + n <= len l ->
  py_slice l lo (lo + n) = take (Z.to_nat n) (drop (Z.to_nat lo) l).
Proof.
  intros Hlo Hn Hle. unfold py_slice, py_clamp.
  destruct (Z.ltb_spec lo 0); [lia|].
  destruct (Z.ltb_spec (lo + n) 0); [lia|].
  f_equal; [|f_equal]; lia.
Qed.

(** Loop invariant rule for [for i in range(m, m + n)]. *)
Lemma foldM_res_range {St} (body : St -> Z -> res St) (P : Z -> St -> Prop)
    (m : Z) (n : nat) (s : St) :
  P m s ->
  (forall i st, m <= i < m + Z.of_nat n -> P i st ->
                exists st', body st i = Ok st' /\ P (i + 1) st') ->
  exists s', foldM_res body s (seqZ m (Z.of_nat n)) = Ok s'
             /\ P (m + Z.of_nat n) s'.
Proof.
  revert m s. induction n as [|n IH]; intros m s H0 Hstep.
  - exists s. simpl. rewrite Z.add_0_r. done.
  - rewrite seqZ_cons by lia. simpl.
    destruct (Hstep m s) as (s1 & Hb & H1); [lia|done|].
    rewrite Hb. simpl.
    replace (Z.pred (Z.of_nat (S n))) with (Z.of_nat n) by lia.
    destruct (IH (Z.succ m) s1) as (s2 & Hf & H2).
    + by replace (Z.succ m) with (m + 1) by lia.
    + intros i st Hi HP. apply Hstep; [lia|done].
    + exists s2. split; [done|].
      by replace (m + Z.of_nat (S n)) with (Z.succ m + Z.of_nat n) by lia.
Qed.

(** A loop that stops at the first failing iteration. *)
Lemma foldM_res_raise_first {St} (body : St -> Z -> res St) (m n : Z) s e :
  0 < n -> body s m = Raise e -> foldM_res body s (seqZ m n) = Raise e.
Proof. intros Hn Hb. rewrite seqZ_cons by lia. simpl. by rewrite Hb. Qed.

(** A loop that rewrites every position of a list from its old content. *)
Lemma foldM_res_update {A} (body : list A -> Z -> res (list A))
    (g : nat -> A -> A) (l : list A) :
  (forall st (i : nat) x,
      length st = length l -> st !! i = Some x -> l !! i = Some x ->
      (forall j, (j < i)%nat -> st !! j = g j <$> l !! j) ->
      body st (Z.of_nat i) = Ok (<[i := g i x]> st)) ->
  foldM_res body l (seqZ 0 (len l)) = Ok (imap g l).
Proof.
  intros Hbody.
  destruct (foldM_res_range body
    (fun k st => length st = length l /\
       forall j : nat, st !! j = if decide (Z.of_nat j < k)
                                 then g j <$> l !! j else l !! j)
    0 (length l) l) as (s' & Hf & Hlen & Hs').
  - split; [done|]. intros j. case_decide; [lia|done].
  - intros i st Hi [Hlen Hst].
    assert (Hi' : (Z.to_nat i < length l)%nat) by lia.
    destruct (lookup_lt_is_Some_2 l _ Hi') as [x Hx].
    exists (<[Z.to_nat i := g (Z.to_nat i) x]> st). split.
    + rewrite <- (Z2Nat.id i) at 1 by lia. apply Hbody; [done| |done|].
      * rewrite Hst. case_decide; [lia|done].
      * intros j Hj. rewrite Hst. case_decide; [done|lia].
    + split; [by rewrite length_insert|].
      intros j. destruct (decide (j = Z.to_nat i)) as [->|Hne].
      * rewrite list_lookup_insert_eq by lia.
        case_decide; [|lia]. by rewrite Hx.
      * rewrite list_lookup_insert_ne by done. rewrite Hst.
        repeat case_decide; try done; lia.
  - unfold len. rewrite Hf. f_equal. apply list_eq. intros j.
    rewrite Hs', list_lookup_imap. case_decide as Hj; [done|].
    rewrite lookup_ge_None_2 by lia. done.
Qed.

Lemma mapM_res_total {A B} (f : A -> res B) (g : A -> B) (l : list A) :
  Forall (fun x => f x = Ok (g x)) l -> mapM_res f l = Ok (map g l).
Proof.
  induction 1 as [|x l Hx _ IH]; [done|]. simpl. rewrite Hx. simpl.
  rewrite IH. done.
Qed.

Lemma mapM_res_raise_head {A B} (f : A -> res B) x l e :
  f x = Raise e -> mapM_res f (x :: l) = Raise e.
Proof. intros H. simpl. by rewrite H. Qed.

Lemma zipM_res_total {A B C} (f : A -> B -> res C) (g : A -> B -> C) la lb :
  Forall2 (fun x y => f x y = Ok (g x y)) la lb ->
  zipM_res f la lb = Ok (zip_with g la lb).
Proof.
  induction 1 as [|x y la lb Hxy _ IH]; [done|]. simpl. rewrite Hxy. simpl.
  rewrite IH. done.
Qed.

Lemma bcast_to_same {A} (n : nat) (l : list A) :
  length l = n -> bcast_to n l = Ok l.
Proof. intros H. unfold bcast_to. by rewrite decide_True. Qed.

Lemma bcast2_same {A B C} (f : A -> B -> res C) la lb :
  length la = length lb -> bcast2 f la lb = zipM_res f la lb.
Proof. intros H. unfold bcast2. by rewrite decide_True. Qed.

(** ** The subtraction kernels *)

Section SubtractKernels.
Context `{PA : PixelArith}.

Local Abbreviation plane := (list (list F)).
Local Abbreviation cube := (list (list (list F))).

(** A dark cube that has a plane of the science shape for each of the
    [g] science groups. *)
Definition covers (g r c : nat) (x : cube) : Prop :=
  (g <= length x)%nat /\ Forall (plane_shape r c) x.

#[global] Instance covers_dec g r c x : Decision (covers g r c x).
Proof. unfold covers. apply _. Defined.

(** The dark integration applied to science integration [i], in the words
    of the specification: [data[i]] when [i < dark_nints] and
    [int_start == 1], the last integration otherwise; the cube itself for
    a 3-D dark. *)
Definition selected_dark (a : ndarray) (int_start : Z) (i : nat)
  : option cube :=
  match a with
  | F4 data =>
      if decide ((i < length data)%nat /\ int_start = 1)
      then data !! i else last data
  | F3 data => Some data
  | _ => None
  end.

(** What a dark array must provide for a science cube of [g] groups of
    [r] by [c] pixels. *)
Definition dark_covers (g r c : nat) (a : ndarray) : Prop :=
  match a with
  | F3 x => covers g r c x
  | F4 x => x <> [] /\ Forall (covers g r c) x
  | _ => False
  end.

#[global] Instance dark_covers_dec g r c a : Decision (dark_covers g r c a).
Proof. destruct a; simpl; apply _. Defined.

Lemma isub_plane_same (r c : nat) (a b : plane) :
  plane_shape r c a -> plane_shape r c b ->
  isub_plane a b = Ok (plane_map2 fsub a b).
Proof.
  intros [Ha Hra] [Hb Hrb]. unfold isub_plane.
  rewrite bcast_to_same by congruence. simpl.
  apply zipM_res_total.
  apply Forall2_same_length_lookup_2; [congruence|].
  intros i x y Hx Hy.
  rewrite Forall_lookup in Hra. rewrite Forall_lookup in Hrb.
  rewrite bcast_to_same; [done|].
  rewrite (Hra _ _ Hx), (Hrb _ _ Hy). done.
Qed.

Lemma plane_map2_shape (f : F -> F -> F) r c (a b : plane) :
  plane_shape r c a -> plane_shape r c b ->
  plane_shape r c (plane_map2 f a b).
Proof.
  intros [Ha Hra] [Hb Hrb]. unfold plane_map2. split.
  - rewrite length_zip_with. lia.
  - rewrite Forall_lookup in Hra. rewrite Forall_lookup in Hrb.
    apply Forall_lookup. intros i row Hrow.
    apply lookup_zip_with_Some in Hrow as (x & y & -> & Hx & Hy).
    rewrite length_zip_with, (Hra _ _ Hx), (Hrb _ _ Hy). lia.
Qed.

(** Inner loop: every group of the integration has the dark's group of
    the same index subtracted. *)
Lemma subtract_groups_ok (g r c : nat) (dark_sci integ : cube) :
  cube_shape g r c integ -> covers g r c dark_sci ->
  subtract_groups dark_sci (Z.of_nat g) integ =
    Ok (imap (fun j p => plane_map2 fsub p (default [] (dark_sci !! j)))
             integ).
Proof.
  intros [Hg Hpl] [Hd Hdpl]. unfold subtract_groups.
  replace (Z.of_nat g) with (len integ) by (unfold len; lia).
  apply foldM_res_update. intros st j x Hlen Hst Hx _.
  pose proof (lookup_lt_Some _ _ _ Hx) as Hj.
  destruct (lookup_lt_is_Some_2 dark_sci j) as [dp Hdp]; [lia|].
  rewrite (py_index_nat _ _ _ Hst). simpl.
  rewrite (py_index_nat _ _ _ Hdp). simpl.
  rewrite (isub_plane_same r c).
  - simpl. rewrite py_setitem_nat by lia. by rewrite Hdp.
  - exact (Forall_lookup_1 _ _ _ _ Hpl Hx).
  - exact (Forall_lookup_1 _ _ _ _ Hdpl Hdp).
Qed.

Lemma selected_dark_run (a : ndarray) (int_start : Z) (i : nat) (x : cube) :
  selected_dark a int_start i = Some x ->
  match a with
  | F4 data =>
      if (Z.of_nat i <? len data) && (int_start =? 1)
      then py_index data (Z.of_nat i)
      else py_index data (-1)
  | F3 data => Ok data
  | _ => Raise Stuck
  end = Ok x.
Proof.
  destruct a as [data|data| |]; simpl; try discriminate.
  - congruence.
  - unfold len. case_decide as Hc.
    + destruct Hc as [Hi ->]. intros Hx.
      destruct (Z.ltb_spec (Z.of_nat i) (Z.of_nat (length data))); [|lia].
      simpl. by apply py_index_nat.
    + intros Hx.
      assert (Hf : (Z.of_nat i <? Z.of_nat (length data)) && (int_start =? 1)
                   = false).
      { apply andb_false_iff.
        destruct (Z.ltb_spec (Z.of_nat i) (Z.of_nat (length data)));
          [|by left].
        right. apply Z.eqb_neq. intros ->. apply Hc. split; [lia|done]. }
      rewrite Hf. change (-1) with (- Z.of_nat 1).
      rewrite py_index_back by lia.
      rewrite last_lookup in Hx.
      pose proof (lookup_lt_Some _ _ _ Hx).
      rewrite decide_True by lia.
      replace (length data - 1)%nat with (pred (length data)) by lia.
      by rewrite Hx.
Qed.

Lemma selected_dark_covers g r c a int_start (i : nat) :
  dark_covers g r c a ->
  exists x, selected_dark a int_start i = Some x /\ covers g r c x.
Proof.
  destruct a as [data|data| |]; simpl; try done.
  - eauto.
  - intros [Hne Hall]. case_decide as Hc.
    + destruct Hc as [Hi _].
      destruct (lookup_lt_is_Some_2 data i Hi) as [x Hx].
      exists x. split; [done|]. exact (Forall_lookup_1 _ _ _ _ Hall Hx).
    + destruct (last data) as [x|] eqn:Hl.
      * exists x. split; [done|]. rewrite last_lookup in Hl.
        exact (Forall_lookup_1 _ _ _ _ Hall Hl).
      * apply last_None in Hl. done.
Qed.

(** Outer loop: integration [i] of the science cube has the selected dark
    subtracted group by group. *)
Lemma subtract_ints_ok (n g r c : nat) a int_start (out : list cube) :
  hyper_shape n g r c out -> dark_covers g r c a ->
  subtract_ints a int_start
      (match a with F4 x => len x | _ => 1 end)
      (Z.of_nat n) (Z.of_nat g) out =
    Ok (imap (fun i integ =>
                imap (fun j p =>
                        plane_map2 fsub p
                          (default []
                             (default [] (selected_dark a int_start i) !! j)))
                     integ) out).
Proof.
  intros [Hn Hcubes] Hdark. unfold subtract_ints.
  replace (Z.of_nat n) with (len out) by (unfold len; lia).
  apply foldM_res_update. intros st i x Hlen Hst Hx _.
  pose proof (lookup_lt_Some _ _ _ Hx) as Hi.
  destruct (selected_dark_covers g r c a int_start i Hdark)
    as (dsel & Hsel & Hcov).
  pose proof (selected_dark_run a int_start i dsel Hsel) as Hrun.
  assert (Hrun' :
    match a with
    | F4 data =>
        if (Z.of_nat i <? match a with F4 x => len x | _ => 1 end)
           && (int_start =? 1)
        then py_index data (Z.of_nat i) else py_index data (-1)
    | F3 data => Ok data
    | _ => Raise Stuck
    end = Ok dsel).
  { destruct a; done. }
  rewrite Hrun'. simpl.
  rewrite (py_index_nat _ _ _ Hst). simpl.
  rewrite (subtract_groups_ok g r c);
    [| exact (Forall_lookup_1 _ _ _ _ Hcubes Hx) | done].
  simpl. rewrite py_setitem_nat by lia. by rewrite Hsel.
Qed.

End SubtractKernels.

(** ** Data-quality flags *)

(** Pointwise OR of two flag planes. *)
Definition por (a b : list (list Z)) : list (list Z) :=
  zip_with (zip_with Z.lor) a b.

(** The flag plane of group 0 of each dark integration. *)
Definition first_planes (groupdq : list (list (list (list Z))))
  : list (list (list Z)) :=
  (fun g => default [] (head g)) <$> groupdq.

(** OR-reduction of a sequence of planes, in the order of the sequence. *)
Definition or_reduce (ps : list (list (list Z))) : list (list Z) :=
  match ps with
  | [] => []
  | p :: ps' => fold_left por ps' p
  end.

(** Every dark integration has a first flag plane of [r] by [c] pixels. *)
Definition dq_planes (r c : nat) (groupdq : list (list (list (list Z))))
  : Prop :=
  Forall (fun g => exists p, head g = Some p /\ plane_shape r c p) groupdq.

Lemma zip_with_comm_op {A} (f : A -> A -> A) :
  (forall x y, f x y = f y x) ->
  forall a b, zip_with f a b = zip_with f b a.
Proof.
  intros Hf a. induction a as [|x a IH]; intros [|y b]; simpl; try done.
  by rewrite Hf, IH.
Qed.

Lemma zip_with_assoc_op {A} (f : A -> A -> A) :
  (forall x y z, f x (f y z) = f (f x y) z) ->
  forall a b c, zip_with f a (zip_with f b c) = zip_with f (zip_with f a b) c.
Proof.
  intros Hf a. induction a as [|x a IH]; intros [|y b] [|z c]; simpl; try done.
  by rewrite Hf, IH.
Qed.

Lemma por_comm a b : por a b = por b a.
Proof.
  unfold por. apply zip_with_comm_op. intros x y.
  apply zip_with_comm_op. intros; apply Z.lor_comm.
Qed.

Lemma por_assoc a b c : por a (por b c) = por (por a b) c.
Proof.
  unfold por. apply zip_with_assoc_op. intros x y z.
  apply zip_with_assoc_op. intros; apply Z.lor_assoc.
Qed.

Lemma por_shape r c a b :
  plane_shape r c a -> plane_shape r c b -> plane_shape r c (por a b).
Proof.
  intros [Ha Hra] [Hb Hrb]. unfold por. split.
  - rewrite length_zip_with. lia.
  - rewrite Forall_lookup in Hra. rewrite Forall_lookup in Hrb.
    apply Forall_lookup. intros i row Hrow.
    apply lookup_zip_with_Some in Hrow as (x & y & -> & Hx & Hy).
    rewrite length_zip_with, (Hra _ _ Hx), (Hrb _ _ Hy). lia.
Qed.

Lemma bitwise_or_same r c a b :
  plane_shape r c a -> plane_shape r c b -> bitwise_or a b = Ok (por a b).
Proof.
  intros [Ha Hra] [Hb Hrb]. unfold bitwise_or, por.
  rewrite bcast2_same by congruence.
  apply zipM_res_total.
  apply Forall2_same_length_lookup_2; [congruence|].
  intros i x y Hx Hy.
  rewrite Forall_lookup in Hra. rewrite Forall_lookup in Hrb.
  rewrite bcast2_same by (rewrite (Hra _ _ Hx), (Hrb _ _ Hy); done).
  apply zipM_res_total.
  apply Forall2_same_length_lookup_2;
    [rewrite (Hra _ _ Hx), (Hrb _ _ Hy); done | done].
Qed.

(** The OR-reduction seen as a fold over the whole sequence, the first
    plane included: the form in which the order of the planes can be
    permuted. *)
Definition or_step (p : list (list Z)) (acc : option (list (list Z)))
  : option (list (list Z)) :=
  match acc with None => Some p | Some q => Some (por p q) end.

Lemma or_reduce_foldr p ps :
  Some (or_reduce (p :: ps)) = foldr or_step None (ps ++ [p]).
Proof.
  simpl. rewrite fold_symmetric.
  - induction ps as [|q ps IH]; simpl; [done|]. by rewrite <- IH.
  - intros; apply por_assoc.
  - intros; apply por_comm.
Qed.

Lemma or_step_swap a1 a2 b : or_step a1 (or_step a2 b) = or_step a2 (or_step a1 b).
Proof.
  destruct b as [q|]; simpl; f_equal.
  - by rewrite !por_assoc, (por_comm a1 a2).
  - apply por_comm.
Qed.

Lemma or_reduce_perm ps ps' : ps ≡ₚ ps' -> or_reduce ps = or_reduce ps'.
Proof.
  intros Hp. destruct ps as [|p ps], ps' as [|q qs].
  - done.
  - by apply Permutation_nil_cons in Hp.
  - symmetry in Hp. by apply Permutation_nil_cons in Hp.
  - assert (Hs : Some (or_reduce (p :: ps)) = Some (or_reduce (q :: qs)));
      [|congruence].
    rewrite !or_reduce_foldr.
    apply (foldr_permutation eq or_step None).
    + intros. apply or_step_swap.
    + rewrite <- !Permutation_cons_append. done.
Qed.

Lemma dq_planes_perm r c g g' : g ≡ₚ g' -> dq_planes r c g -> dq_planes r c g'.
Proof. unfold dq_planes. intros Hp H. by rewrite <- Hp. Qed.

Lemma first_planes_perm g g' : g ≡ₚ g' -> first_planes g ≡ₚ first_planes g'.
Proof. unfold first_planes. intros Hp. by rewrite Hp. Qed.

Lemma or_reduce_shape r c ps :
  ps <> [] -> Forall (plane_shape r c) ps -> plane_shape r c (or_reduce ps).
Proof.
  destruct ps as [|p ps]; [done|]. intros _ H.
  apply Forall_cons in H as [Hp Hps]. simpl.
  revert p Hp. induction Hps as [|q ps Hq _ IH]; intros p Hp; simpl; [done|].
  apply IH. by apply por_shape.
Qed.

(** The loop of lines 356-358 computes the OR-reduction of the first planes
    of all integrations. *)
Lemma collapse_dq_ok (r c : nat) (groupdq : list (list (list (list Z)))) :
  groupdq <> [] -> dq_planes r c groupdq ->
  collapse_dq groupdq (len groupdq) = Ok (or_reduce (first_planes groupdq)).
Proof.
  intros Hne Hall. destruct groupdq as [|g0 gs]; [done|].
  pose proof Hall as Hall0.
  apply Forall_cons in Hall0 as [(p0 & Hp0 & Hs0) Hgs].
  unfold collapse_dq.
  rewrite (py_index_Z (g0 :: gs) 0 g0) by done. simpl.
  rewrite (py_index_Z g0 0 p0) by (by destruct g0; simplify_eq/=). simpl.
  replace (len (g0 :: gs) - 1) with (Z.of_nat (length gs))
    by (unfold len; simpl; lia).
  destruct (foldM_res_range
    (fun darkdq i => gi ← py_index (g0 :: gs) i; pi ← py_index gi 0;
                     bitwise_or darkdq pi)
    (fun k st => st = fold_left por (take (Z.to_nat (k - 1)) (first_planes gs)) p0
                 /\ plane_shape r c st)
    1 (length gs) p0) as (st & Hf & -> & _).
  - split; [done|done].
  - intros i st Hi [-> Hst].
    destruct (lookup_lt_is_Some_2 gs (Z.to_nat (i - 1))) as [gi Hgi]; [lia|].
    destruct (Forall_lookup_1 _ _ _ _ Hgs Hgi) as (pi & Hpi & Hsi).
    rewrite (py_index_Z (g0 :: gs) i gi); [|lia|].
    2:{ replace (Z.to_nat i) with (S (Z.to_nat (i - 1))) by lia. done. }
    simpl. rewrite (py_index_Z gi 0 pi) by (by destruct gi; simplify_eq/=).
    simpl. rewrite (bitwise_or_same r c) by done.
    eexists. split; [done|]. split; [|by apply por_shape].
    replace (Z.to_nat (i + 1 - 1)) with (S (Z.to_nat (i - 1))) by lia.
    erewrite take_S_r; [|unfold first_planes; rewrite list_lookup_fmap, Hgi; done].
    rewrite fold_left_app. simpl. by rewrite Hpi.
  - rewrite Hf. f_equal. unfold first_planes at 2. simpl. rewrite Hp0. simpl.
    replace (Z.to_nat (1 + Z.of_nat (length gs) - 1)) with (length gs) by lia.
    rewrite take_ge; [done|]. unfold first_planes. rewrite length_fmap. lia.
Qed.

(** ** The extrapolation and averaging kernels *)

Section DarkKernels.
Context `{PA : PixelArith}.

Local Abbreviation plane := (list (list F)).
Local Abbreviation cube := (list (list (list F))).

(** The [k]-th group added by the extrapolation, from the last two
    groups of the cube: [k * (last - prev) + last], pixel by pixel. *)
Definition extrapolated_group (last prev : plane) (k : Z) : plane :=
  plane_map2 (fun r l => fadd (fmul (of_int k) r) l)
             (plane_map2 fsub last prev) last.

Lemma plane_map2_lookup (f : F -> F -> F) (a b : plane) (y x : nat) ra rb va vb :
  a !! y = Some ra -> ra !! x = Some va ->
  b !! y = Some rb -> rb !! x = Some vb ->
  exists row, plane_map2 f a b !! y = Some row /\ row !! x = Some (f va vb).
Proof.
  intros Ha Hva Hb Hvb. exists (zip_with f ra rb). split.
  - unfold plane_map2. rewrite lookup_zip_with, Ha, Hb. done.
  - rewrite lookup_zip_with, Hva, Hvb. done.
Qed.

Lemma extrapolated_group_pixel last prev k (y x : nat) rl rp lv pv :
  last !! y = Some rl -> rl !! x = Some lv ->
  prev !! y = Some rp -> rp !! x = Some pv ->
  exists row, extrapolated_group last prev k !! y = Some row /\
              row !! x = Some (fadd (fmul (of_int k) (fsub lv pv)) lv).
Proof.
  intros Hl Hlv Hp Hpv. unfold extrapolated_group.
  destruct (plane_map2_lookup fsub last prev y x rl rp lv pv)
    as (rr & Hrr & Hrv); try done.
  exact (plane_map2_lookup (fun r l => fadd (fmul (of_int k) r) l)
           _ _ y x rr rl (fsub lv pv) lv Hrr Hrv Hl Hlv).
Qed.

Lemma _extrapolate_int_ok (arr : cube) (k : Z) (last prev : plane) :
  0 <= k ->
  arr !! (length arr - 1)%nat = Some last ->
  arr !! (length arr - 2)%nat = Some prev ->
  (2 <= length arr)%nat ->
  _extrapolate_int arr k =
    Ok (arr ++ (extrapolated_group last prev <$> seqZ 1 k)).
Proof.
  intros Hk Hl Hp Hn. unfold _extrapolate_int.
  change (-1) with (- Z.of_nat 1). rewrite py_index_back by lia.
  rewrite decide_True by lia. rewrite Hl. simpl.
  change (-2) with (- Z.of_nat 2). rewrite py_index_back by lia.
  rewrite decide_True by lia. rewrite Hp. simpl.
  destruct (Z.ltb_spec k 0); [lia|]. done.
Qed.

Lemma _extrapolate_int_short (arr : cube) (k : Z) :
  (length arr < 2)%nat -> _extrapolate_int arr k = Raise IndexError.
Proof.
  intros Hn. unfold _extrapolate_int.
  change (-1) with (- Z.of_nat 1). rewrite py_index_back by lia.
  case_decide; [|done].
  destruct (arr !! (length arr - 1)%nat) as [l|]; simpl; [|done].
  change (-2) with (- Z.of_nat 2). rewrite py_index_back by lia.
  rewrite decide_False by lia. done.
Qed.

(** The cube after extrapolation by [k] groups (total function used to
    state results). *)
Definition extrapolated (arr : cube) (k : Z) : cube :=
  arr ++ (extrapolated_group (default [] (arr !! (length arr - 1)%nat))
                             (default [] (arr !! (length arr - 2)%nat))
            <$> seqZ 1 k).

Lemma _extrapolate_int_total (arr : cube) (k : Z) :
  0 <= k -> (2 <= length arr)%nat ->
  _extrapolate_int arr k = Ok (extrapolated arr k).
Proof.
  intros Hk Hn.
  destruct (lookup_lt_is_Some_2 arr (length arr - 1)) as [l Hl]; [lia|].
  destruct (lookup_lt_is_Some_2 arr (length arr - 2)) as [p Hp]; [lia|].
  rewrite (_extrapolate_int_ok arr k l p) by done.
  unfold extrapolated. by rewrite Hl, Hp.
Qed.

Lemma extrapolated_length arr k :
  0 <= k -> len (extrapolated arr k) = len arr + k.
Proof.
  intros Hk. unfold extrapolated, len.
  rewrite length_app, length_fmap, length_seqZ. lia.
Qed.

(** Number of groups of a dark array, as [do_correction_data] reads it
    from the shape. *)
Definition dark_ngroups (a : ndarray) : Z :=
  match a with
  | F4 x => shape1 x
  | F3 x => len x
  | _ => 0
  end.

(** A pixel array, 3-D or 4-D. *)
Definition pixel_array (a : ndarray) : Prop :=
  match a with F3 _ | F4 _ => True | _ => False end.

#[global] Instance pixel_array_dec a : Decision (pixel_array a).
Proof. destruct a; simpl; apply _. Defined.

(** Every integration of the dark has at least two groups. *)
Definition two_groups (a : ndarray) : Prop :=
  match a with
  | F3 x => (2 <= length x)%nat
  | F4 x => x <> [] /\ Forall (fun c => (2 <= length c)%nat) x
  | _ => False
  end.

#[global] Instance two_groups_dec a : Decision (two_groups a).
Proof. destruct a; simpl; apply _. Defined.

(** The array after extrapolation. *)
Definition extrapolated_array (a : ndarray) (k : Z) : ndarray :=
  match a with
  | F3 x => F3 (extrapolated x k)
  | F4 x => F4 (map (fun c => extrapolated c k) x)
  | _ => a
  end.

Lemma extrapolate_array_ok (a : ndarray) (k : Z) :
  0 <= k -> two_groups a ->
  extrapolate_array a k = Ok (extrapolated_array a k).
Proof.
  intros Hk H2. destruct a as [x|x| |]; simpl in *; try done.
  - by rewrite _extrapolate_int_total.
  - destruct H2 as [_ H2].
    pose proof (len_nonneg (hd [] x)). unfold shape1.
    destruct (Z.ltb_spec (len (hd [] x) + k) 0); [lia|].
    rewrite (mapM_res_total _ (fun c => extrapolated c k)); [done|].
    eapply Forall_impl; [done|]. intros c Hc. simpl in Hc.
    by apply _extrapolate_int_total.
Qed.

Lemma dark_ngroups_extrapolated a k :
  0 <= k -> two_groups a ->
  dark_ngroups (extrapolated_array a k) = dark_ngroups a + k.
Proof.
  intros Hk H2. destruct a as [x|x| |]; simpl in *; try done.
  - by apply extrapolated_length.
  - destruct H2 as [Hne _]. destruct x as [|c x]; simpl; [done|].
    unfold shape1. simpl. by apply extrapolated_length.
Qed.

Lemma two_groups_pixel_array a : two_groups a -> pixel_array a.
Proof. destruct a; simpl; done. Qed.

End DarkKernels.

Section AverageKernels.
Context `{PA : PixelArith}.

Local Abbreviation plane := (list (list F)).
Local Abbreviation cube := (list (list (list F))).

(** Frames [start, start + nframes) of the source. *)
Definition frames_of (src : cube) (start nframes : Z) : list plane :=
  take (Z.to_nat nframes) (drop (Z.to_nat start) src).

(** Group [g] of the averaged dark, in the words of the specification:
    with [start = g * (nframes + groupgap)], frame [start] itself when
    [nframes = 1], the mean of frames [start, start + nframes)
    otherwise. *)
Definition averaged_group (src : cube) (nframes groupgap : Z) (g : nat)
  : plane :=
  let start := Z.of_nat g * (nframes + groupgap) in
  if decide (nframes = 1) then default [] (src !! Z.to_nat start)
  else mean_axis0 (shape1 src) (shape2 src) (frames_of src start nframes).

(** The source contains frames [start, start + nframes) for every target
    group. *)
Definition enough_frames (src : cube) (n : nat) (nframes groupgap : Z)
  : Prop :=
  Forall (fun g : nat =>
            Z.of_nat g * (nframes + groupgap) + nframes <= len src)
         (seq 0 n).

#[global] Instance enough_frames_dec src n nframes groupgap :
  Decision (enough_frames src n nframes groupgap).
Proof. unfold enough_frames. apply _. Defined.

Lemma average_groups_ok (src data : cube) (n : nat) (nframes groupgap : Z) :
  1 <= nframes -> 0 <= groupgap -> length data = n ->
  enough_frames src n nframes groupgap ->
  average_groups src (Z.of_nat n) nframes groupgap data =
    Ok (averaged_group src nframes groupgap <$> seq 0 n).
Proof.
  intros Hnf Hgap Hlen Hsrc. unfold average_groups.
  destruct (foldM_res_range
    (fun (st : Z * cube) (group : Z) =>
       let start := st.1 in
       let end_ := start + nframes in
       g ← (if decide (nframes = 1) then py_index src start
            else Ok (mean_axis0 (shape1 src) (shape2 src)
                                (py_slice src start end_)));
       data' ← py_setitem st.2 group g;
       Ok (end_ + groupgap, data'))
    (fun k st =>
       st.1 = k * (nframes + groupgap) /\ length st.2 = n /\
       forall j : nat,
         st.2 !! j = if decide (Z.of_nat j < k)
                     then Some (averaged_group src nframes groupgap j)
                     else data !! j)
    0 n (0, data)) as (st & Hf & _ & Hl & Hst).
  - simpl. split; [lia|]. split; [done|].
    intros j. case_decide; [lia|done].
  - intros i [start st] Hi (Hstart & Hl & Hst). simpl in *. subst start.
    assert (Hfr : Z.of_nat (Z.to_nat i) * (nframes + groupgap) + nframes
                  <= len src).
    { unfold enough_frames in Hsrc. rewrite Forall_forall in Hsrc.
      apply Hsrc. apply elem_of_seq. lia. }
    rewrite Z2Nat.id in Hfr by lia.
    assert (Hg : (if decide (nframes = 1)
                  then py_index src (i * (nframes + groupgap))
                  else Ok (mean_axis0 (shape1 src) (shape2 src)
                             (py_slice src (i * (nframes + groupgap))
                                (i * (nframes + groupgap) + nframes))))
                 = Ok (averaged_group src nframes groupgap (Z.to_nat i))).
    { unfold averaged_group. rewrite Z2Nat.id by lia. case_decide as H1.
      - destruct (lookup_lt_is_Some_2 src
                    (Z.to_nat (i * (nframes + groupgap)))) as [x Hx].
        { unfold len in Hfr. nia. }
        rewrite Hx. simpl. apply py_index_Z; [nia|done].
      - rewrite py_slice_inner by nia. done. }
    rewrite Hg. simpl. clear Hg.
    rewrite py_setitem_Z by lia. simpl.
    eexists. split; [done|]. simpl. split; [lia|].
    split; [by rewrite length_insert|].
    intros j. destruct (decide (j = Z.to_nat i)) as [->|Hne].
    + rewrite list_lookup_insert_eq by lia. case_decide; [done|lia].
    + rewrite list_lookup_insert_ne by done. rewrite Hst.
      repeat case_decide; try done; lia.
  - cbv zeta in Hf. rewrite Hf. clear Hf. simpl. f_equal.
    apply list_eq. intros j. rewrite Hst, list_lookup_fmap.
    destruct (decide (j < n)%nat) as [Hj|Hj].
    + rewrite lookup_seq_lt by done. case_decide; [done|lia].
    + rewrite lookup_seq_ge by lia. case_decide; [lia|].
      apply lookup_ge_None_2. lia.
Qed.

Lemma full_cube_ok (n : nat) (dny dnx : Z) (v : F) :
  0 <= dny -> 0 <= dnx ->
  full_cube (Z.of_nat n) dny dnx v =
    Ok (replicate n (replicate (Z.to_nat dny) (replicate (Z.to_nat dnx) v))).
Proof.
  intros Hy Hx. unfold full_cube.
  destruct (Z.ltb_spec (Z.of_nat n) 0); [lia|].
  destruct (Z.ltb_spec dny 0); [lia|].
  destruct (Z.ltb_spec dnx 0); [lia|]. simpl. by rewrite Nat2Z.id.
Qed.

(** The integrations loop of the 4-D averager: the first [m]
    integrations are averaged, the others keep their initial content. *)
Lemma average_ints_ok (src init : list cube) (m n : nat)
    (nframes groupgap : Z) :
  1 <= nframes -> 0 <= groupgap ->
  (m <= length src)%nat -> length init = length src ->
  Forall (fun c => length c = n) init ->
  Forall (fun s => enough_frames s n nframes groupgap) (take m src) ->
  average_ints src (Z.of_nat m) (Z.of_nat n) nframes groupgap init =
    Ok (imap (fun it o =>
                if decide (it < m)%nat
                then averaged_group (default [] (src !! it)) nframes groupgap
                       <$> seq 0 n
                else o) init).
Proof.
  intros Hnf Hgap Hm Hlen Hinit Hsrc. unfold average_ints.
  destruct (foldM_res_range
    (fun (data : list cube) (it : Z) =>
       s ← py_index src it;
       o ← py_index data it;
       o' ← average_groups s (Z.of_nat n) nframes groupgap o;
       py_setitem data it o')
    (fun k st =>
       length st = length init /\
       forall j : nat,
         st !! j = if decide (Z.of_nat j < k)
                   then Some (averaged_group (default [] (src !! j))
                                nframes groupgap <$> seq 0 n)
                   else init !! j)
    0 m init) as (st & Hf & Hl & Hst).
  - split; [done|]. intros j. case_decide; [lia|done].
  - intros i st Hi [Hl Hst].
    destruct (lookup_lt_is_Some_2 src (Z.to_nat i)) as [s Hs]; [lia|].
    destruct (lookup_lt_is_Some_2 init (Z.to_nat i)) as [o Ho]; [lia|].
    rewrite (py_index_Z src i s) by (done || lia). simpl.
    rewrite (py_index_Z st i o);
      [|lia|rewrite Hst; case_decide; [lia|done]].
    simpl. rewrite (average_groups_ok s o n); try done.
    + simpl. rewrite py_setitem_Z by lia.
      eexists. split; [done|]. split; [by rewrite length_insert|].
      intros j. destruct (decide (j = Z.to_nat i)) as [->|Hne].
      * rewrite list_lookup_insert_eq by lia. case_decide; [|lia].
        by rewrite Hs.
      * rewrite list_lookup_insert_ne by done. rewrite Hst.
        repeat case_decide; try done; lia.
    + exact (Forall_lookup_1 _ _ _ _ Hinit Ho).
    + eapply (Forall_lookup_1 _ _ (Z.to_nat i) s Hsrc).
      rewrite lookup_take_lt by lia. done.
  - rewrite Hf. clear Hf. f_equal. apply list_eq. intros j.
    rewrite Hst, list_lookup_imap.
    destruct (init !! j) as [o|] eqn:Ho; simpl.
    + repeat case_decide; try done; lia.
    + case_decide; [|done].
      apply lookup_ge_None_1 in Ho. lia.
Qed.

End AverageKernels.

(** ** Running the object-level code *)

Section Run.
Context `{PA : PixelArith}.
Variable dark_fill : F.

Local Abbreviation plane := (list (list F)).
Local Abbreviation cube := (list (list (list F))).

Lemma run_bind {A B} (m : M A) (f : A -> M B) (h : heap) :
  (m ≫= f) h =
    match m h with Ok (a, h') => f a h' | Raise e => Raise e end.
Proof. reflexivity. Qed.

Lemma run_ret {A} (a : A) (h : heap) : (mret a : M A) h = Ok (a, h).
Proof. reflexivity. Qed.

Lemma run_lift {A} (r : res A) (h : heap) :
  lift r h = match r with Ok a => Ok (a, h) | Raise e => Raise e end.
Proof. reflexivity. Qed.

Lemma run_alloc (c : cell) (h : heap) :
  alloc c h = Ok (length h, h ++ [c]).
Proof. reflexivity. Qed.

Lemma run_get_cell (h : heap) l c :
  h !! l = Some c -> get_cell l h = Ok (c, h).
Proof. intros H. unfold get_cell. by rewrite H. Qed.

Lemma run_set_cell (h : heap) l c :
  (l < length h)%nat -> set_cell l c h = Ok (tt, <[l := c]> h).
Proof. intros H. unfold set_cell. by rewrite decide_True. Qed.

Lemma run_get_arr (h : heap) l a :
  h !! l = Some (Arr a) -> get_arr l h = Ok (a, h).
Proof. intros H. unfold get_arr. by rewrite run_bind, (run_get_cell _ _ _ H). Qed.

Lemma run_get_sci (h : heap) l s :
  h !! l = Some (Sci s) -> get_sci l h = Ok (s, h).
Proof. intros H. unfold get_sci. by rewrite run_bind, (run_get_cell _ _ _ H). Qed.

Lemma run_get_dark (h : heap) l d :
  h !! l = Some (Dark d) -> get_dark l h = Ok (d, h).
Proof. intros H. unfold get_dark. by rewrite run_bind, (run_get_cell _ _ _ H). Qed.

Lemma run_get_F4 (h : heap) l x :
  h !! l = Some (Arr (F4 x)) -> get_F4 l h = Ok (x, h).
Proof. intros H. unfold get_F4. by rewrite run_bind, (run_get_arr _ _ _ H). Qed.

Lemma run_get_Q2 (h : heap) l x :
  h !! l = Some (Arr (Q2 x)) -> get_Q2 l h = Ok (x, h).
Proof. intros H. unfold get_Q2. by rewrite run_bind, (run_get_arr _ _ _ H). Qed.

(** Lookups in a heap that has grown. *)
Lemma lookup_grown (h ext : heap) l c :
  h !! l = Some c -> (h ++ ext) !! l = Some c.
Proof. intros H. by apply lookup_app_l_Some. Qed.

Lemma lookup_new (h ext : heap) (k : nat) :
  (h ++ ext) !! (length h + k)%nat = ext !! k.
Proof. by rewrite lookup_app_r, Nat.add_sub' by lia. Qed.

Lemma insert_new (h ext : heap) (k : nat) c :
  <[(length h + k)%nat := c]> (h ++ ext) = h ++ <[k := c]> ext.
Proof. by rewrite insert_app_r. Qed.

(** The science object after the assignment [obj.cal_step = v]. *)
Definition with_cal_step (s : ScienceData) (v : string) : ScienceData :=
  mkScienceData (s_data s) (s_pixeldq s) (s_exp_nframes s)
    (s_exp_groupgap s) (s_exp_intstart s) v.

(** The dark object after [obj.save = True; obj.output_name = name]. *)
Definition with_save (d : DarkData) (name : string) : DarkData :=
  mkDarkData (d_data d) (d_groupdq d) (d_exp_nframes d) (d_exp_groupgap d)
    (d_exp_ngroups d) true (Some name).

(** The dark object after extrapolation by [k] groups into the array at
    [l]. *)
Definition with_extrapolated (d : DarkData) (l : loc) (k : Z) : DarkData :=
  mkDarkData l (d_groupdq d) (d_exp_nframes d) (d_exp_groupgap d)
    (d_exp_ngroups d + k) (d_save d) (d_output_name d).

Lemma set_cal_step_run (h : heap) l s v :
  h !! l = Some (Sci s) ->
  set_cal_step l v h = Ok (tt, <[l := Sci (with_cal_step s v)]> h).
Proof.
  intros H. unfold set_cal_step.
  rewrite run_bind, (run_get_sci _ _ _ H).
  apply run_set_cell. by eapply lookup_lt_Some.
Qed.

Lemma set_save_run (h : heap) l d name :
  h !! l = Some (Dark d) ->
  set_save l name h = Ok (tt, <[l := Dark (with_save d name)]> h).
Proof.
  intros H. unfold set_save.
  rewrite run_bind, (run_get_dark _ _ _ H).
  apply run_set_cell. by eapply lookup_lt_Some.
Qed.

Lemma deepcopy_sci_run (h : heap) l s a q :
  h !! l = Some (Sci s) ->
  h !! s_data s = Some (Arr a) ->
  h !! s_pixeldq s = Some (Arr q) ->
  deepcopy_sci l h =
    Ok ((length h + 2)%nat,
        h ++ [Arr a; Arr q;
              Sci (mkScienceData (length h) (length h + 1)%nat
                     (s_exp_nframes s) (s_exp_groupgap s)
                     (s_exp_intstart s) (s_cal_step s))]).
Proof.
  intros Hs Ha Hq. unfold deepcopy_sci.
  rewrite run_bind, (run_get_sci _ _ _ Hs).
  rewrite run_bind, (run_get_arr _ _ _ Ha).
  rewrite run_bind, (run_get_arr _ _ _ Hq).
  rewrite run_bind, run_alloc. rewrite run_bind, run_alloc.
  rewrite run_alloc. rewrite !length_app. simpl.
  rewrite <- !app_assoc. simpl.
  by replace (length h + 1 + 1)%nat with (length h + 2)%nat by lia.
Qed.

Lemma extrapolate_dark_run (h : heap) l d a k :
  h !! l = Some (Dark d) ->
  h !! d_data d = Some (Arr a) ->
  extrapolate_dark l k h =
    new ← extrapolate_array a k;
    Ok (tt, <[l := Dark (with_extrapolated d (length h) k)]>
              (h ++ [Arr new])).
Proof.
  intros Hd Ha. unfold extrapolate_dark.
  rewrite run_bind, (run_get_dark _ _ _ Hd).
  rewrite run_bind, (run_get_arr _ _ _ Ha).
  rewrite run_bind, run_lift.
  destruct (extrapolate_array a k) as [new|e]; simpl; [|done].
  rewrite run_bind, run_alloc.
  apply run_set_cell. rewrite length_app. simpl.
  apply lookup_lt_Some in Hd. lia.
Qed.

Lemma replace_nans_run (h : heap) l d a :
  h !! l = Some (Dark d) ->
  h !! d_data d = Some (Arr a) ->
  replace_nans l h =
    a' ← nans_to_zero a; Ok (tt, <[d_data d := Arr a']> h).
Proof.
  intros Hd Ha. unfold replace_nans.
  rewrite run_bind, (run_get_dark _ _ _ Hd).
  rewrite run_bind, (run_get_arr _ _ _ Ha).
  rewrite run_bind, run_lift.
  destruct (nans_to_zero a) as [a'|e]; simpl; [|done].
  apply run_set_cell. by eapply lookup_lt_Some.
Qed.

(** Number of integrations of the dark, as [subtract_dark] reads it. *)
Definition dark_nints (a : ndarray) : Z :=
  match a with F4 x => len x | _ => 1 end.

(** The heap that [subtract_dark] leaves: four new cells after the old
    ones, which are untouched. *)
Definition subtracted_heap (h : heap) (s : ScienceData)
    (odata : list cube) (spdq newdq : list (list Z)) : heap :=
  h ++ [Arr (F4 odata); Arr (Q2 spdq);
        Sci (mkScienceData (length h) (length h + 3)%nat
               (s_exp_nframes s) (s_exp_groupgap s)
               (s_exp_intstart s) (s_cal_step s));
        Arr (Q2 newdq)].

Lemma subtract_dark_run (h : heap) sl dl s d sdata spdq a g :
  h !! sl = Some (Sci s) ->
  h !! s_data s = Some (Arr (F4 sdata)) ->
  h !! s_pixeldq s = Some (Arr (Q2 spdq)) ->
  h !! dl = Some (Dark d) ->
  h !! d_data d = Some (Arr a) ->
  h !! d_groupdq d = Some (Arr g) ->
  subtract_dark sl dl h =
    darkdq ← dark_dq a g (dark_nints a);
    newdq ← bitwise_or spdq darkdq;
    odata ← subtract_ints a (default 1 (s_exp_intstart s)) (dark_nints a)
              (len sdata) (shape1 sdata) sdata;
    Ok ((length h + 2)%nat, subtracted_heap h s odata spdq newdq).
Proof.
  intros Hs Hsd Hsq Hd Ha Hg. unfold subtract_dark.
  rewrite run_bind, (run_get_sci _ _ _ Hs).
  rewrite run_bind, (run_get_dark _ _ _ Hd).
  rewrite run_bind, (run_get_arr _ _ _ Ha).
  rewrite run_bind, (run_get_F4 _ _ _ Hsd).
  rewrite run_bind, (deepcopy_sci_run _ _ _ _ _ Hs Hsd Hsq).
  rewrite run_bind, (run_get_arr _ _ g) by (by apply lookup_grown).
  rewrite run_bind, run_lift. fold (dark_nints a).
  destruct (dark_dq a g (dark_nints a)) as [darkdq|e]; simpl; [|done].
  rewrite run_bind, (run_get_Q2 _ _ spdq) by (by apply lookup_grown).
  rewrite run_bind, run_lift.
  destruct (bitwise_or spdq darkdq) as [newdq|e]; simpl; [|done].
  rewrite run_bind, run_alloc.
  rewrite <- !app_assoc. simpl.
  rewrite length_app. simpl.
  unfold set_pixeldq.
  rewrite run_bind, run_bind.
  erewrite run_get_sci by (rewrite lookup_new; done).
  rewrite run_set_cell by (rewrite length_app; simpl; lia).
  rewrite insert_new. simpl.
  rewrite run_bind.
  erewrite run_get_sci by (rewrite lookup_new; done).
  simpl.
  rewrite run_bind.
  erewrite run_get_F4
    by (rewrite <- (Nat.add_0_r (length h)), lookup_new; done).
  rewrite run_bind, run_lift.
  destruct (subtract_ints _ _ _ _ _ sdata) as [odata|e]; simpl; [|done].
  rewrite run_bind.
  rewrite run_set_cell by (rewrite length_app; simpl; lia).
  rewrite run_ret.
  rewrite <- (Nat.add_0_r (length h)) at 2. rewrite insert_new. simpl.
  unfold subtracted_heap. done.
Qed.

End Run.

(** ** The stages of [do_correction_data] *)

Section Stages.
Context `{PA : PixelArith}.
Variable dark_fill : F.

Local Abbreviation plane := (list (list F)).
Local Abbreviation cube := (list (list (list F))).

(** The heap that the averagers leave: the new data array and the new dark
    object, whose [groupdq] attribute is the reference held by the input
    dark. *)
Definition averaged_heap (h : heap) (d : DarkData) (data : ndarray)
    (ngroups nframes groupgap : Z) : heap :=
  h ++ [Arr data;
        Dark (mkDarkData (length h) (d_groupdq d) nframes groupgap ngroups
                false None)].

Lemma average_dark_frames_3d_run (h : heap) l d src ngroups nframes groupgap :
  h !! l = Some (Dark d) ->
  h !! d_data d = Some (Arr (F3 src)) ->
  average_dark_frames_3d dark_fill l ngroups nframes groupgap h =
    init ← full_cube ngroups (shape1 src) (shape2 src) dark_fill;
    data ← average_groups src ngroups nframes groupgap init;
    Ok ((length h + 1)%nat,
        averaged_heap h d (F3 data) ngroups nframes groupgap).
Proof.
  intros Hd Ha. unfold average_dark_frames_3d.
  rewrite run_bind, (run_get_dark _ _ _ Hd).
  rewrite run_bind, (run_get_arr _ _ _ Ha).
  rewrite run_bind, run_lift.
  destruct (full_cube _ _ _ _) as [init|e]; simpl; [|done].
  rewrite run_bind, run_lift.
  destruct (average_groups _ _ _ _ _) as [data|e]; simpl; [|done].
  unfold new_dark. rewrite run_bind, run_alloc, run_alloc.
  rewrite length_app, <- app_assoc. done.
Qed.

Lemma average_dark_frames_4d_run (h : heap) l d src nints ngroups nframes
    groupgap :
  h !! l = Some (Dark d) ->
  h !! d_data d = Some (Arr (F4 src)) ->
  average_dark_frames_4d dark_fill l nints ngroups nframes groupgap h =
    one ← full_cube ngroups (shape2 src) (shape3 src) dark_fill;
    data ← average_ints src (if len src >? nints then nints else len src)
              ngroups nframes groupgap
              (replicate (Z.to_nat (len src)) one);
    Ok ((length h + 1)%nat,
        averaged_heap h d (F4 data) ngroups nframes groupgap).
Proof.
  intros Hd Ha. unfold average_dark_frames_4d.
  rewrite run_bind, (run_get_dark _ _ _ Hd).
  rewrite run_bind, (run_get_arr _ _ _ Ha).
  rewrite run_bind, run_lift.
  destruct (full_cube _ _ _ _) as [one|e]; simpl; [|done].
  rewrite run_bind, run_lift.
  destruct (average_ints _ _ _ _ _ _) as [data|e]; simpl; [|done].
  unfold new_dark. rewrite run_bind, run_alloc, run_alloc.
  rewrite length_app, <- app_assoc. done.
Qed.

(** Lines 105-115: the heap after the dark has been extrapolated, when it
    falls short of the science exposure. *)
Definition extrapolation_step (h : heap) (dark_data : loc) (d : DarkData)
    (a : ndarray) (sci_total_frames drk_total_frames : Z) : res heap :=
  if sci_total_frames >? drk_total_frames then
    k ← ceil_div (sci_total_frames - drk_total_frames + d_exp_groupgap d)
                 (d_exp_nframes d + d_exp_groupgap d);
    new ← extrapolate_array a k;
    Ok (<[dark_data := Dark (with_extrapolated d (length h) k)]>
          (h ++ [Arr new]))
  else Ok h.

(** Lines 132-171: averaging when the cadences differ, subtraction, and the
    bookkeeping of the returned objects. *)
Definition apply_dark (science_data dark_data : loc)
    (dark_output : option string)
    (sci_nints sci_ngroups sci_nframes sci_groupgap : Z)
    (drk_nframes drk_groupgap : Z) : M (loc * option loc) :=
  if (sci_nframes =? drk_nframes) && (sci_groupgap =? drk_groupgap) then
    output_data ← subtract_dark science_data dark_data;
    averaged_dark ← match dark_output with
                    | Some name => _ ← set_save dark_data name;
                                   mret (Some dark_data)
                    | None => mret None
                    end;
    _ ← set_cal_step output_data "COMPLETE";
    mret (output_data, averaged_dark)
  else
    d' ← get_dark dark_data;
    a' ← get_arr (d_data d');
    averaged_dark ← match a' with
                    | F4 _ => average_dark_frames_4d dark_fill dark_data
                                sci_nints sci_ngroups sci_nframes sci_groupgap
                    | _ => average_dark_frames_3d dark_fill dark_data
                             sci_ngroups sci_nframes sci_groupgap
                    end;
    _ ← match dark_output with
        | Some name => set_save averaged_dark name
        | None => mret tt
        end;
    output_data ← subtract_dark science_data averaged_dark;
    _ ← set_cal_step output_data "COMPLETE";
    mret (output_data, Some averaged_dark).

(** Lines 117-171: the skip policy, then the sanitising of the dark and
    [apply_dark]. *)
Definition finish_correction (science_data dark_data : loc)
    (dark_output : option string)
    (sci_nints sci_ngroups sci_nframes sci_groupgap : Z)
    (drk_nframes drk_groupgap : Z) : M (loc * option loc) :=
  if (drk_nframes >? sci_nframes) || (drk_groupgap >? sci_groupgap) then
    _ ← set_cal_step science_data "SKIPPED";
    out_data ← deepcopy_sci science_data;
    mret (out_data, None)
  else
    _ ← replace_nans dark_data;
    apply_dark science_data dark_data dark_output
      sci_nints sci_ngroups sci_nframes sci_groupgap drk_nframes drk_groupgap.

(** [do_correction_data] is the extrapolation step followed by
    [finish_correction]. *)
Lemma do_correction_data_stages (h : heap) sl dl out s sdata d a :
  h !! sl = Some (Sci s) ->
  h !! s_data s = Some (Arr (F4 sdata)) ->
  h !! dl = Some (Dark d) ->
  h !! d_data d = Some (Arr a) ->
  pixel_array a ->
  do_correction_data dark_fill sl dl out h =
    match extrapolation_step h dl d a
            (total_frames (shape1 sdata) (s_exp_nframes s) (s_exp_groupgap s))
            (total_frames (dark_ngroups a) (d_exp_nframes d)
               (d_exp_groupgap d)) with
    | Ok h1 =>
        finish_correction sl dl out (len sdata) (shape1 sdata)
          (s_exp_nframes s) (s_exp_groupgap s)
          (d_exp_nframes d) (d_exp_groupgap d) h1
    | Raise e => Raise e
    end.
Proof.
  intros Hs Hsd Hd Ha Hpix. unfold do_correction_data.
  rewrite run_bind, (run_get_sci _ _ _ Hs).
  rewrite run_bind, (run_get_F4 _ _ _ Hsd).
  rewrite run_bind, (run_get_dark _ _ _ Hd).
  rewrite run_bind, (run_get_arr _ _ _ Ha).
  rewrite run_bind, run_lift.
  assert (Hshp : match a with
                 | F4 x => Ok (len x, shape1 x)
                 | F3 x => Ok (1, len x)
                 | _ => Raise Stuck
                 end = Ok (dark_nints a, dark_ngroups a)).
  { destruct a; simpl in *; done. }
  rewrite Hshp. cbv zeta. simpl fst. simpl snd.
  rewrite run_bind. unfold extrapolation_step.
  destruct (_ >? _).
  - rewrite run_bind, run_lift.
    destruct (ceil_div _ _) as [k|e]; simpl; [|done].
    rewrite (extrapolate_dark_run _ _ _ _ _ Hd Ha).
    destruct (extrapolate_array a k) as [new|e]; simpl; [|done].
    reflexivity.
  - rewrite run_ret. reflexivity.
Qed.

End Stages.

(** ** Frame accounting *)

Lemma ceil_div_spec (a b : Z) :
  0 < b -> exists k, ceil_div a b = Ok k /\ (k - 1) * b < a <= k * b.
Proof.
  intros Hb. unfold ceil_div.
  destruct (Z.eqb_spec b 0); [lia|].
  exists (- (- a / b)). split; [done|].
  pose proof (Z.div_mod (- a) b ltac:(lia)).
  pose proof (Z.mod_pos_bound (- a) b Hb). nia.
Qed.

Lemma total_frames_extended (ngroups k nframes groupgap : Z) :
  total_frames (ngroups + k) nframes groupgap =
    total_frames ngroups nframes groupgap + k * (nframes + groupgap).
Proof. unfold total_frames. lia. Qed.

Section Claims.
Context `{PA : PixelArith}.
Variable dark_fill : F.

Local Abbreviation plane := (list (list F)).
Local Abbreviation cube := (list (list (list F))).

Lemma extrapolated_heap_lookups (h : heap) dl d (new : ndarray) k c :
  h !! dl = Some c ->
  let h1 := <[dl := Dark (with_extrapolated d (length h) k)]>
              (h ++ [Arr new]) in
  h1 !! dl = Some (Dark (with_extrapolated d (length h) k)) /\
  h1 !! length h = Some (Arr new) /\
  (forall l c', l <> dl -> h !! l = Some c' -> h1 !! l = Some c').
Proof.
  intros Hd h1. pose proof (lookup_lt_Some _ _ _ Hd) as Hlt.
  subst h1. split; [|split].
  - rewrite list_lookup_insert_eq; [done|]. rewrite length_app. simpl. lia.
  - rewrite list_lookup_insert_ne by lia.
    rewrite <- (Nat.add_0_r (length h)) at 1. by rewrite lookup_new.
  - intros l c' Hne Hl. rewrite list_lookup_insert_ne by done.
    by apply lookup_grown.
Qed.

(** C3.  [do_correction_data] computes the total elapsed frames of the
    science exposure and of the dark as
    [ngroups*nframes + (ngroups-1)*groupgap].  When the science total
    exceeds the dark total, for a dark of valid cadence with at least two
    groups, it extrapolates the dark by exactly
    [k = ceil((frames_to_extrapolate + drk_groupgap) / (drk_nframes + drk_groupgap))]
    groups and goes on with the extrapolated dark, whose total elapsed
    frames are then at least those of the science exposure. *)
Theorem extrapolation_covers_science (h : heap) sl dl out s sdata d a :
  h !! sl = Some (Sci s) ->
  h !! s_data s = Some (Arr (F4 sdata)) ->
  h !! dl = Some (Dark d) ->
  h !! d_data d = Some (Arr a) ->
  1 <= d_exp_nframes d -> 0 <= d_exp_groupgap d ->
  two_groups a ->
  let sci_ngroups := shape1 sdata in
  let sci_nframes := s_exp_nframes s in
  let sci_groupgap := s_exp_groupgap s in
  let drk_ngroups := dark_ngroups a in
  let drk_nframes := d_exp_nframes d in
  let drk_groupgap := d_exp_groupgap d in
  let sci_total_frames := total_frames sci_ngroups sci_nframes sci_groupgap in
  let drk_total_frames := total_frames drk_ngroups drk_nframes drk_groupgap in
  let frames_to_extrapolate := sci_total_frames - drk_total_frames in
  sci_total_frames > drk_total_frames ->
  sci_total_frames = sci_ngroups * sci_nframes + (sci_ngroups - 1) * sci_groupgap
  /\ drk_total_frames
     = drk_ngroups * drk_nframes + (drk_ngroups - 1) * drk_groupgap
  /\ exists k h1 a1,
      (* k is the ceiling of the quotient *)
      ceil_div (frames_to_extrapolate + drk_groupgap)
               (drk_nframes + drk_groupgap) = Ok k
      /\ (k - 1) * (drk_nframes + drk_groupgap)
         < frames_to_extrapolate + drk_groupgap
         <= k * (drk_nframes + drk_groupgap)
      (* the dark is extrapolated by k groups and the correction goes on
         from there *)
      /\ extrapolate_dark dl k h = Ok (tt, h1)
      /\ do_correction_data dark_fill sl dl out h =
           finish_correction dark_fill sl dl out (len sdata) sci_ngroups
             sci_nframes sci_groupgap drk_nframes drk_groupgap h1
      /\ h1 !! dl = Some (Dark (with_extrapolated d (length h) k))
      /\ h1 !! length h = Some (Arr a1)
      /\ dark_ngroups a1 = drk_ngroups + k
      (* which is enough to cover the science exposure *)
      /\ total_frames (dark_ngroups a1) drk_nframes drk_groupgap
         >= sci_total_frames.
Proof.
  intros Hs Hsd Hd Ha Hnf Hgap H2. cbv zeta. intros Hshort.
  split; [done|]. split; [done|].
  destruct (ceil_div_spec
              (total_frames (shape1 sdata) (s_exp_nframes s) (s_exp_groupgap s)
               - total_frames (dark_ngroups a) (d_exp_nframes d)
                   (d_exp_groupgap d) + d_exp_groupgap d)
              (d_exp_nframes d + d_exp_groupgap d)) as (k & Hk & Hceil);
    [lia|].
  assert (Hk0 : 0 <= k) by nia.
  pose proof (extrapolate_array_ok a k Hk0 H2) as Hex.
  destruct (extrapolated_heap_lookups h dl d (extrapolated_array a k) k _ Hd)
    as (Hl1 & Hl2 & _).
  eexists k, _, (extrapolated_array a k).
  split; [done|]. split; [done|].
  split; [by rewrite (extrapolate_dark_run _ _ _ _ _ Hd Ha), Hex|].
  split.
  { rewrite (do_correction_data_stages _ _ _ _ _ _ _ _ _ Hs Hsd Hd Ha)
      by (by apply two_groups_pixel_array).
    unfold extrapolation_step.
    destruct (Z.gtb_spec
                (total_frames (shape1 sdata) (s_exp_nframes s) (s_exp_groupgap s))
                (total_frames (dark_ngroups a) (d_exp_nframes d)
                   (d_exp_groupgap d))); [|lia].
    rewrite Hk. simpl. rewrite Hex. simpl. done. }
  split; [done|]. split; [done|].
  rewrite (dark_ngroups_extrapolated a k Hk0 H2).
  split; [done|]. rewrite total_frames_extended. lia.
Qed.

(** ** Extrapolation *)

(** [x1] is [x] extended by [ngroups] groups, in the words of the
    specification: the groups of [x] come first, unchanged, and new group
    [k] (1-indexed) holds, at every pixel, the last group of [x] plus [k]
    times the rate [last - previous], evaluated as
    [k * rate + last]. *)
Definition extrapolation_of (ngroups : Z) (x x1 : cube) : Prop :=
  len x1 = len x + ngroups
  /\ (forall (j : nat) p, x !! j = Some p -> x1 !! j = Some p)
  /\ forall (k : Z) last prev,
       1 <= k <= ngroups ->
       x !! (length x - 1)%nat = Some last ->
       x !! (length x - 2)%nat = Some prev ->
       exists p,
         x1 !! Z.to_nat (len x + k - 1) = Some p
         /\ forall (y c : nat) rl rp lv pv,
              last !! y = Some rl -> rl !! c = Some lv ->
              prev !! y = Some rp -> rp !! c = Some pv ->
              exists row,
                p !! y = Some row
                /\ row !! c = Some (fadd (fmul (of_int k) (fsub lv pv)) lv).

(** The same, for each integration of a 4-D dark. *)
Definition array_extrapolation_of (ngroups : Z) (a a1 : ndarray) : Prop :=
  match a, a1 with
  | F3 x, F3 x1 => extrapolation_of ngroups x x1
  | F4 xs, F4 xs1 => Forall2 (extrapolation_of ngroups) xs xs1
  | _, _ => False
  end.

Lemma extrapolated_is_extrapolation (x : cube) (k : Z) :
  0 <= k -> extrapolation_of k x (extrapolated x k).
Proof.
  intros Hk. split; [by apply extrapolated_length|]. split.
  - intros j p Hj. unfold extrapolated. by apply lookup_app_l_Some.
  - intros i last prev Hi Hl Hp.
    exists (extrapolated_group last prev i). split.
    + unfold extrapolated, len. rewrite Hl, Hp. simpl.
      replace (Z.to_nat (Z.of_nat (length x) + i - 1))
        with (length x + Z.to_nat (i - 1))%nat by lia.
      rewrite lookup_app_r, Nat.add_sub' by lia.
      rewrite list_lookup_fmap, lookup_seqZ_lt by lia. simpl.
      f_equal. f_equal. lia.
    + intros y c rl rp lv pv H1 H2 H3 H4.
      by eapply extrapolated_group_pixel.
Qed.

Lemma extrapolated_array_is_extrapolation (a : ndarray) (k : Z) :
  0 <= k -> pixel_array a ->
  array_extrapolation_of k a (extrapolated_array a k).
Proof.
  intros Hk Hpix. destruct a as [x|xs| |]; simpl in *; try done.
  - by apply extrapolated_is_extrapolation.
  - apply Forall2_fmap_r. apply Forall2_same_length_lookup_2; [done|].
    intros i x y Hx Hy. simplify_eq. simpl.
    by apply extrapolated_is_extrapolation.
Qed.

(** C4.  For a dark with at least two groups (in every integration of a
    4-D dark) and [ngroups >= 1], [extrapolate_dark] returns; the dark
    object then refers to a new array in which every integration is the
    old one followed by exactly [ngroups] new groups, new group [k] being
    [k * (last - previous) + last] at every pixel; and [exp_ngroups] has
    grown by [ngroups]. *)
Theorem extrapolate_dark_appends (h : heap) dl d a (ngroups : Z) :
  h !! dl = Some (Dark d) ->
  h !! d_data d = Some (Arr a) ->
  two_groups a ->
  1 <= ngroups ->
  exists h1 d1 a1,
    extrapolate_dark dl ngroups h = Ok (tt, h1)
    /\ h1 !! dl = Some (Dark d1)
    /\ h1 !! d_data d1 = Some (Arr a1)
    /\ array_extrapolation_of ngroups a a1
    /\ d_exp_ngroups d1 = d_exp_ngroups d + ngroups.
Proof.
  intros Hd Ha H2 Hk.
  destruct (extrapolated_heap_lookups h dl d (extrapolated_array a ngroups)
              ngroups _ Hd) as (Hl1 & Hl2 & _).
  eexists _, (with_extrapolated d (length h) ngroups),
    (extrapolated_array a ngroups).
  split.
  { rewrite (extrapolate_dark_run _ _ _ _ _ Hd Ha).
    rewrite extrapolate_array_ok by (done || lia). done. }
  split; [done|]. split; [done|]. split; [|done].
  apply extrapolated_array_is_extrapolation; [lia|].
  by apply two_groups_pixel_array.
Qed.

(** ** Averaging *)

(** Pixel [(y, x)] of a plane. *)
Definition pixel (p : plane) (y x : nat) : option F :=
  row ← p !! y; row !! x.

Lemma pixel_plane_map2 (f : F -> F -> F) (a b : plane) y x va vb :
  pixel a y x = Some va -> pixel b y x = Some vb ->
  pixel (plane_map2 f a b) y x = Some (f va vb).
Proof.
  unfold pixel. intros Ha Hb.
  destruct (a !! y) as [ra|] eqn:Hra; simpl in Ha; [|done].
  destruct (b !! y) as [rb|] eqn:Hrb; simpl in Hb; [|done].
  destruct (plane_map2_lookup f a b y x ra rb va vb) as (row & -> & Hrow);
    done.
Qed.

Lemma pixel_fold_add (rest : list plane) (f0 : plane) y x v0 vs :
  pixel f0 y x = Some v0 ->
  Forall2 (fun f v => pixel f y x = Some v) rest vs ->
  pixel (fold_left (plane_map2 fadd) rest f0) y x
    = Some (fold_left fadd vs v0).
Proof.
  intros H0 Hall. revert f0 v0 H0.
  induction Hall as [|f v rest vs Hf _ IH]; intros f0 v0 H0; simpl; [done|].
  apply IH. by apply pixel_plane_map2.
Qed.

(** The mean over the frames is the mean at each pixel: the values are
    added in the order of the frames and the sum is divided by their
    number. *)
Lemma mean_axis0_pixel (dny dnx : Z) (f0 : plane) (rest : list plane)
    y x v0 vs :
  pixel f0 y x = Some v0 ->
  Forall2 (fun f v => pixel f y x = Some v) rest vs ->
  pixel (mean_axis0 dny dnx (f0 :: rest)) y x
    = Some (fdiv (fold_left fadd vs v0) (of_int (len (f0 :: rest)))).
Proof.
  intros H0 Hall. unfold mean_axis0.
  pose proof (pixel_fold_add rest f0 y x v0 vs H0 Hall) as Hsum.
  unfold pixel in *. rewrite list_lookup_fmap.
  destruct (fold_left (plane_map2 fadd) rest f0 !! y) as [row|]; simpl in *;
    [|done].
  rewrite list_lookup_fmap, Hsum. done.
Qed.

Lemma frames_of_length (src : cube) (start nframes : Z) :
  0 <= start -> 0 <= nframes -> start + nframes <= len src ->
  len (frames_of src start nframes) = nframes.
Proof.
  intros Hs Hn Hle. unfold frames_of, len in *.
  rewrite length_take, length_drop. lia.
Qed.

(** The sum of the values of a pixel over a stack of frames, in the words
    of the specification: the values are added one after the other, in the
    order of the frames. *)
Definition sum_values (vs : list F) : F :=
  match vs with
  | [] => fzero
  | v :: rest => fold_left fadd rest v
  end.

Lemma pixel_shape r c (p : plane) (y x : nat) :
  plane_shape r c p -> (y < r)%nat -> (x < c)%nat ->
  exists v, pixel p y x = Some v.
Proof.
  intros [Hr Hc] Hy Hx. unfold pixel.
  destruct (lookup_lt_is_Some_2 p y) as [row Hrow]; [lia|].
  rewrite Hrow. simpl. apply lookup_lt_is_Some_2.
  rewrite (Forall_lookup_1 _ _ _ _ Hc Hrow). done.
Qed.

Lemma pixel_values r c (frames : list plane) (y x : nat) :
  Forall (plane_shape r c) frames -> (y < r)%nat -> (x < c)%nat ->
  exists vs, Forall2 (fun f v => pixel f y x = Some v) frames vs.
Proof.
  intros Hall Hy Hx. induction Hall as [|f frames Hf _ [vs IH]].
  - exists []. constructor.
  - destruct (pixel_shape r c f y x Hf Hy Hx) as [v Hv].
    exists (v :: vs). by constructor.
Qed.

(** The mean over frames [a, a + m) of a cube, at one pixel: the sum of the
    [m] values of the pixel, divided by [m]. *)
Lemma mean_of_frames_pixel r c (src : cube) (a m : nat) (dny dnx : Z)
    (y x : nat) :
  Forall (plane_shape r c) src ->
  (0 < m)%nat -> (a + m <= length src)%nat ->
  (y < r)%nat -> (x < c)%nat ->
  exists vs,
    length vs = m
    /\ (forall k : nat, (k < m)%nat ->
          exists fr v, src !! (a + k)%nat = Some fr
                       /\ pixel fr y x = Some v
                       /\ vs !! k = Some v)
    /\ pixel (mean_axis0 dny dnx (take m (drop a src))) y x
       = Some (fdiv (sum_values vs) (of_int (Z.of_nat m))).
Proof.
  intros Hall Hm Hle Hy Hx.
  assert (Hlen : length (take m (drop a src)) = m).
  { rewrite length_take, length_drop. lia. }
  destruct (pixel_values r c (take m (drop a src)) y x) as [vs Hvs];
    [apply Forall_take; by apply Forall_drop|done|done|].
  pose proof (Forall2_length _ _ _ Hvs) as Hlvs.
  exists vs. split; [lia|]. split.
  - intros k Hk.
    destruct (lookup_lt_is_Some_2 (take m (drop a src)) k) as [fr Hfr];
      [lia|].
    destruct (Forall2_lookup_l _ _ _ _ _ Hvs Hfr) as (v & Hv & Hp).
    exists fr, v. split; [|done].
    rewrite lookup_take_lt, lookup_drop in Hfr by lia. done.
  - destruct Hvs as [|f0 v0 rest vrest H0 Hrest]; simpl in Hlen; [lia|].
    rewrite (mean_axis0_pixel dny dnx f0 rest y x v0 vrest H0 Hrest).
    unfold len. simpl length. simpl sum_values. by rewrite Hlen.
Qed.

(** C5.  For a 3-D dark of [r] by [c] frames and a target cadence
    [(ngroups, nframes, groupgap)] for which the source has frames
    [start, start + nframes) for every target group,
    [average_dark_frames_3d] returns a new dark with exactly [ngroups]
    groups; with [start = g * (nframes + groupgap)], group [g] is source
    frame [start] itself when [nframes = 1]; otherwise every pixel of
    group [g] is the sum of the values of that pixel in the [nframes]
    source frames [start, start + nframes), divided by [nframes]; the
    cadence attributes of the new dark are the target cadence. *)
Theorem average_dark_frames_3d_groups (h : heap) dl d (src : cube)
    (ngroups nframes groupgap : Z) (r c : nat) :
  h !! dl = Some (Dark d) ->
  h !! d_data d = Some (Arr (F3 src)) ->
  Forall (plane_shape r c) src ->
  0 <= ngroups -> 1 <= nframes -> 0 <= groupgap ->
  enough_frames src (Z.to_nat ngroups) nframes groupgap ->
  exists avg h' davg data,
    average_dark_frames_3d dark_fill dl ngroups nframes groupgap h
      = Ok (avg, h')
    /\ h' !! avg = Some (Dark davg)
    /\ h' !! d_data davg = Some (Arr (F3 data))
    /\ len data = ngroups
    /\ (forall g : Z,
          0 <= g < ngroups ->
          let start := g * (nframes + groupgap) in
          exists p,
            data !! Z.to_nat g = Some p
            /\ (nframes = 1 -> src !! Z.to_nat start = Some p)
            /\ (nframes <> 1 ->
                forall y x : nat, (y < r)%nat -> (x < c)%nat ->
                exists vs,
                  len vs = nframes
                  /\ (forall k : nat, Z.of_nat k < nframes ->
                        exists fr v,
                          src !! Z.to_nat (start + Z.of_nat k) = Some fr
                          /\ pixel fr y x = Some v
                          /\ vs !! k = Some v)
                  /\ pixel p y x
                     = Some (fdiv (sum_values vs) (of_int nframes))))
    /\ d_exp_nframes davg = nframes
    /\ d_exp_ngroups davg = ngroups
    /\ d_exp_groupgap davg = groupgap.
Proof.
  intros Hd Ha Hshape Hng Hnf Hgap Hsrc.
  remember (Z.to_nat ngroups) as n eqn:Hn.
  assert (ngroups = Z.of_nat n) as -> by lia. clear Hn Hng.
  rewrite (average_dark_frames_3d_run _ _ _ _ _ _ _ _ Hd Ha).
  rewrite full_cube_ok by (unfold shape1, shape2, shape1; apply len_nonneg).
  simpl.
  rewrite (average_groups_ok src _ n)
    by (done || by rewrite length_replicate).
  simpl.
  eexists _, _, _, _. split; [done|].
  split.
  { unfold averaged_heap.
    rewrite (lookup_new h _ 1). done. }
  simpl. split.
  { unfold averaged_heap.
    rewrite <- (Nat.add_0_r (length h)) at 1. rewrite (lookup_new h _ 0).
    done. }
  split.
  { unfold len. by rewrite length_fmap, length_seq. }
  split; [|done].
  intros g Hg. set (start := g * (nframes + groupgap)). cbv zeta.
  assert (Hstart : 0 <= start) by (subst start; nia).
  assert (Hfr : start + nframes <= len src).
  { unfold enough_frames in Hsrc. rewrite Forall_forall in Hsrc.
    specialize (Hsrc (Z.to_nat g)). rewrite Z2Nat.id in Hsrc by lia.
    apply Hsrc. apply elem_of_seq. lia. }
  assert (Hgrp : (averaged_group src nframes groupgap <$> seq 0 n)
                   !! Z.to_nat g
                 = Some (averaged_group src nframes groupgap (Z.to_nat g))).
  { rewrite list_lookup_fmap, lookup_seq_lt by lia. done. }
  exists (averaged_group src nframes groupgap (Z.to_nat g)).
  split; [exact Hgrp|].
  unfold averaged_group. rewrite Z2Nat.id by lia. fold start. split.
  - intros H1. rewrite decide_True by done.
    destruct (lookup_lt_is_Some_2 src (Z.to_nat start)) as [fr Hfr'].
    { unfold len in Hfr. lia. }
    by rewrite Hfr'.
  - intros H1 y x Hy Hx. rewrite decide_False by done.
    destruct (mean_of_frames_pixel r c src (Z.to_nat start)
                (Z.to_nat nframes) (shape1 src) (shape2 src) y x)
      as (vs & Hlen & Hvs & Hpix); try done; [lia|unfold len in Hfr; lia|].
    exists vs. split; [unfold len; lia|]. split.
    + intros k Hk. destruct (Hvs k) as (fr & v & Hfrk & Hp & Hv); [lia|].
      exists fr, v.
      replace (Z.to_nat (start + Z.of_nat k)) with (Z.to_nat start + k)%nat
        by lia.
      done.
    + unfold frames_of. rewrite Hpix. by rewrite Z2Nat.id by lia.
Qed.

Lemma fold_add_shape r c (rest : list plane) (f0 : plane) :
  plane_shape r c f0 -> Forall (plane_shape r c) rest ->
  plane_shape r c (fold_left (plane_map2 fadd) rest f0).
Proof.
  intros H0 Hall. revert f0 H0.
  induction Hall as [|f rest Hf _ IH]; intros f0 H0; simpl; [done|].
  apply IH. by apply plane_map2_shape.
Qed.

Lemma map_map_shape (g : F -> F) r c (p : plane) :
  plane_shape r c p -> plane_shape r c (map (map g) p).
Proof.
  intros [Hr Hc]. split; [by rewrite length_map|].
  apply Forall_map. eapply Forall_impl; [done|].
  intros row Hrow. simpl. by rewrite length_map.
Qed.

Lemma mean_axis0_shape dny dnx r c (frames : list plane) :
  frames <> [] -> Forall (plane_shape r c) frames ->
  plane_shape r c (mean_axis0 dny dnx frames).
Proof.
  destruct frames as [|f0 rest]; [done|]. intros _ Hall.
  apply Forall_cons in Hall as [H0 Hrest]. unfold mean_axis0.
  apply map_map_shape. by apply fold_add_shape.
Qed.

Lemma averaged_group_shape r c (src : cube) (nframes groupgap : Z) (g : nat) :
  1 <= nframes -> 0 <= groupgap ->
  Forall (plane_shape r c) src ->
  Z.of_nat g * (nframes + groupgap) + nframes <= len src ->
  plane_shape r c (averaged_group src nframes groupgap g).
Proof.
  intros Hnf Hgap Hall Hfr. unfold averaged_group. case_decide as H1.
  - destruct (lookup_lt_is_Some_2 src
                (Z.to_nat (Z.of_nat g * (nframes + groupgap)))) as [fr Hx].
    { unfold len in Hfr. nia. }
    rewrite Hx. simpl. exact (Forall_lookup_1 _ _ _ _ Hall Hx).
  - apply mean_axis0_shape.
    + intros Hnil.
      pose proof (frames_of_length src (Z.of_nat g * (nframes + groupgap))
                    nframes ltac:(nia) ltac:(lia) Hfr) as Hlen.
      rewrite Hnil in Hlen. unfold len in Hlen. simpl in Hlen. lia.
    + unfold frames_of. apply Forall_take. by apply Forall_drop.
Qed.

Lemma averaged_cube_shape r c (src : cube) (n : nat) (nframes groupgap : Z) :
  1 <= nframes -> 0 <= groupgap ->
  Forall (plane_shape r c) src ->
  enough_frames src n nframes groupgap ->
  cube_shape n r c (averaged_group src nframes groupgap <$> seq 0 n).
Proof.
  intros Hnf Hgap Hall Hsrc. split.
  - by rewrite length_fmap, length_seq.
  - apply Forall_fmap. unfold enough_frames in Hsrc.
    eapply Forall_impl; [exact Hsrc|].
    intros g Hg. simpl. by apply averaged_group_shape.
Qed.

Lemma fill_cube_shape (n r c : nat) (v : F) :
  cube_shape n r c (replicate n (replicate r (replicate c v))).
Proof.
  split; [by rewrite length_replicate|].
  apply Forall_replicate. split; [by rewrite length_replicate|].
  apply Forall_replicate. by rewrite length_replicate.
Qed.

(** C6 (as the code has it).  For a 4-D dark, [average_dark_frames_4d]
    returns a new dark whose data array has as many integrations as the
    dark itself: shape [(dark_nints, ngroups, rows, cols)].  The first
    [min(dark_nints, sci_nints)] integrations are produced by the group
    loop of the 3-D variant ([average_groups]) applied to the same
    integration of the source; the integrations after them keep the
    content that the constructor gave them. *)
Theorem average_dark_frames_4d_shape (h : heap) dl d (src : list cube)
    (nints ngroups nframes groupgap : Z) (gd : nat) :
  h !! dl = Some (Dark d) ->
  h !! d_data d = Some (Arr (F4 src)) ->
  0 <= nints -> 0 <= ngroups -> 1 <= nframes -> 0 <= groupgap ->
  let num_ints := Z.min (len src) nints in
  let rows := Z.to_nat (shape2 src) in
  let cols := Z.to_nat (shape3 src) in
  hyper_shape (length src) gd rows cols src ->
  Forall (fun s => enough_frames s (Z.to_nat ngroups) nframes groupgap)
         (take (Z.to_nat num_ints) src) ->
  exists avg h' davg data,
    average_dark_frames_4d dark_fill dl nints ngroups nframes groupgap h
      = Ok (avg, h')
    /\ h' !! avg = Some (Dark davg)
    /\ h' !! d_data davg = Some (Arr (F4 data))
    /\ hyper_shape (length src) (Z.to_nat ngroups) rows cols data
    /\ forall (it : nat) (s : cube),
         src !! it = Some s ->
         exists c0 c,
           full_cube ngroups (shape2 src) (shape3 src) dark_fill = Ok c0
           /\ data !! it = Some c
           /\ (Z.of_nat it < num_ints ->
                 average_groups s ngroups nframes groupgap c0 = Ok c
                 /\ c = averaged_group s nframes groupgap
                          <$> seq 0 (Z.to_nat ngroups))
           /\ (num_ints <= Z.of_nat it -> c = c0).
Proof.
  intros Hd Ha Hni Hng Hnf Hgap num_ints rows cols [_ Hshape] Hsrc.
  remember (Z.to_nat ngroups) as n eqn:Hn.
  assert (ngroups = Z.of_nat n) as -> by lia. clear Hn Hng.
  assert (Hnum : (if len src >? nints then nints else len src) = num_ints).
  { subst num_ints. destruct (Z.gtb_spec (len src) nints); lia. }
  assert (Hm : num_ints = Z.of_nat (Z.to_nat num_ints))
    by (subst num_ints; unfold len; lia).
  set (c0 := replicate n (replicate rows (replicate cols dark_fill))).
  assert (Hfull : full_cube (Z.of_nat n) (shape2 src) (shape3 src) dark_fill
                  = Ok c0).
  { apply full_cube_ok; unfold shape3, shape2, shape1; apply len_nonneg. }
  assert (Hints : average_ints src num_ints (Z.of_nat n) nframes groupgap
                    (replicate (Z.to_nat (len src)) c0)
                  = Ok (imap (fun it o =>
                          if decide (it < Z.to_nat num_ints)%nat
                          then averaged_group (default [] (src !! it))
                                 nframes groupgap <$> seq 0 n
                          else o) (replicate (Z.to_nat (len src)) c0))).
  { rewrite Hm at 1. apply average_ints_ok; try done.
    - subst num_ints. unfold len. lia.
    - rewrite length_replicate. unfold len. lia.
    - apply Forall_replicate. subst c0. by rewrite length_replicate. }
  rewrite (average_dark_frames_4d_run _ _ _ _ _ _ _ _ _ Hd Ha).
  rewrite Hfull. simpl. rewrite Hnum, Hints. simpl.
  eexists _, _, _, _. split; [done|].
  split; [unfold averaged_heap; rewrite (lookup_new h _ 1); done|].
  simpl. split.
  { unfold averaged_heap.
    rewrite <- (Nat.add_0_r (length h)) at 1. rewrite (lookup_new h _ 0).
    done. }
  assert (Hdata : forall (it : nat) (s : cube), src !! it = Some s ->
    imap (fun it o =>
            if decide (it < Z.to_nat num_ints)%nat
            then averaged_group (default [] (src !! it)) nframes groupgap
                   <$> seq 0 n
            else o) (replicate (Z.to_nat (len src)) c0) !! it
    = Some (if decide (it < Z.to_nat num_ints)%nat
            then averaged_group s nframes groupgap <$> seq 0 n else c0)).
  { intros it s Hs. pose proof (lookup_lt_Some _ _ _ Hs) as Hlt.
    rewrite list_lookup_imap, lookup_replicate_2 by (unfold len; lia).
    simpl. by rewrite Hs. }
  split.
  - split; [rewrite length_imap, length_replicate; unfold len; lia|].
    apply Forall_lookup. intros it c Hc.
    destruct (src !! it) as [s|] eqn:Hs.
    + rewrite (Hdata it s Hs) in Hc. simplify_eq. case_decide as Hlt.
      * apply averaged_cube_shape; try done.
        -- destruct (Forall_lookup_1 _ _ _ _ Hshape Hs) as [_ Hpl]. done.
        -- eapply (Forall_lookup_1 _ _ it s Hsrc).
           by rewrite lookup_take_lt.
      * subst c0. apply fill_cube_shape.
    + apply lookup_ge_None_1 in Hs.
      apply lookup_lt_Some in Hc.
      rewrite length_imap, length_replicate in Hc. unfold len in Hc. lia.
  - intros it s Hs. exists c0. eexists. split; [done|].
    split; [by apply Hdata|]. split.
    + intros Hlt. rewrite decide_True by lia. split; [|done].
      apply average_groups_ok; try done.
      * subst c0. by rewrite length_replicate.
      * eapply (Forall_lookup_1 _ _ it s Hsrc).
        rewrite lookup_take_lt by lia. done.
    + intros Hge. by rewrite decide_False by lia.
Qed.

(** ** Subtraction *)

(** The flag array of the dark matches its pixel array: one plane of the
    science shape for a 3-D dark, one such plane at group 0 of every
    integration for a 4-D dark. *)
Definition dq_ready (r c : nat) (a g : ndarray) : Prop :=
  match a, g with
  | F3 _, Q2 p => plane_shape r c p
  | F4 x, Q4 q => length q = length x /\ dq_planes r c q
  | _, _ => False
  end.

(** The dark's flag plane, in the words of the specification: [groupdq]
    itself for a 3-D dark, the OR-reduction of [groupdq[i, 0]] over all
    integrations [i] for a 4-D dark. *)
Definition dark_plane (g : ndarray) : list (list Z) :=
  match g with
  | Q2 p => p
  | Q4 q => or_reduce (first_planes q)
  | _ => []
  end.

Lemma first_planes_shape r c q :
  dq_planes r c q -> Forall (plane_shape r c) (first_planes q).
Proof.
  unfold dq_planes, first_planes. intros H. apply Forall_fmap.
  eapply Forall_impl; [done|]. intros g (p & Hp & Hs). simpl. by rewrite Hp.
Qed.

Lemma dark_dq_ok r c a g :
  dark_covers 0 r c a \/ pixel_array a -> dq_ready r c a g ->
  (match a with F4 x => x <> [] | _ => True end) ->
  dark_dq a g (dark_nints a) = Ok (dark_plane g)
  /\ plane_shape r c (dark_plane g).
Proof.
  intros _ Hdq Hne. destruct a as [x|x| |], g as [p|q|p|q]; simpl in *;
    try done.
  destruct Hdq as [Hlen Hq].
  assert (Hqne : q <> []) by (intros ->; destruct x; done).
  split.
  - replace (len x) with (len q) by (unfold len; lia).
    by apply (collapse_dq_ok r c).
  - apply or_reduce_shape; [|by apply first_planes_shape].
    unfold first_planes. destruct q; done.
Qed.

Lemma hyper_shape_dims {A} n g r c (x : list (list (list (list A)))) :
  hyper_shape n g r c x -> x <> [] -> shape1 x = Z.of_nat g.
Proof.
  intros [_ Hall] Hne. destruct x as [|c0 x]; [done|].
  apply Forall_cons in Hall as [[Hg _] _]. unfold shape1, len. simpl. lia.
Qed.

(** The science data after subtraction. *)
Definition subtracted_data (a : ndarray) (int_start : Z) (sdata : list cube)
  : list cube :=
  imap (fun i integ =>
          imap (fun j p =>
                  plane_map2 fsub p
                    (default []
                       (default [] (selected_dark a int_start i) !! j)))
               integ) sdata.

Lemma subtract_dark_ok (h : heap) sl dl s d sdata spdq a g (n gr r c : nat) :
  h !! sl = Some (Sci s) ->
  h !! s_data s = Some (Arr (F4 sdata)) ->
  h !! s_pixeldq s = Some (Arr (Q2 spdq)) ->
  h !! dl = Some (Dark d) ->
  h !! d_data d = Some (Arr a) ->
  h !! d_groupdq d = Some (Arr g) ->
  hyper_shape n gr r c sdata ->
  plane_shape r c spdq ->
  dark_covers gr r c a ->
  dq_ready r c a g ->
  subtract_dark sl dl h =
    Ok ((length h + 2)%nat,
        subtracted_heap h s
          (subtracted_data a (default 1 (s_exp_intstart s)) sdata)
          spdq (por spdq (dark_plane g))).
Proof.
  intros Hs Hsd Hsq Hd Ha Hg Hshape Hpdq Hcov Hdq.
  rewrite (subtract_dark_run _ _ _ _ _ _ _ _ _ Hs Hsd Hsq Hd Ha Hg).
  destruct (dark_dq_ok r c a g) as [Hdark Hdsh]; [right| done | |].
  { destruct a; done. }
  { destruct a; simpl in *; try done. by destruct Hcov. }
  rewrite Hdark. simpl.
  rewrite (bitwise_or_same r c) by done. simpl.
  assert (Hsub : subtract_ints a (default 1 (s_exp_intstart s)) (dark_nints a)
                   (len sdata) (shape1 sdata) sdata
                 = Ok (subtracted_data a (default 1 (s_exp_intstart s)) sdata)).
  { destruct sdata as [|c0 sdata'] eqn:Hsdata; [done|].
    rewrite (hyper_shape_dims n gr r c) by done.
    destruct Hshape as [Hn Hall].
    replace (len (c0 :: sdata')) with (Z.of_nat n) by (unfold len; lia).
    apply (subtract_ints_ok n gr r c); [by split|done]. }
  rewrite Hsub. done.
Qed.

Lemma subtracted_heap_lookups (h : heap) s odata spdq newdq :
  let h' := subtracted_heap h s odata spdq newdq in
  h' !! (length h + 2)%nat
    = Some (Sci (mkScienceData (length h) (length h + 3)%nat
                   (s_exp_nframes s) (s_exp_groupgap s)
                   (s_exp_intstart s) (s_cal_step s)))
  /\ h' !! length h = Some (Arr (F4 odata))
  /\ h' !! (length h + 3)%nat = Some (Arr (Q2 newdq))
  /\ (forall l c, h !! l = Some c -> h' !! l = Some c).
Proof.
  simpl. unfold subtracted_heap. split; [by rewrite (lookup_new h _ 2)|].
  split.
  { rewrite <- (Nat.add_0_r (length h)) at 1. by rewrite (lookup_new h _ 0). }
  split; [by rewrite (lookup_new h _ 3)|].
  intros l c Hl. by apply lookup_grown.
Qed.

Lemma subtracted_data_lookup a int_start sdata (i j : nat) integ p :
  sdata !! i = Some integ -> integ !! j = Some p ->
  (subtracted_data a int_start sdata !! i ≫= (.!! j))
  = Some (plane_map2 fsub p
            (default [] (default [] (selected_dark a int_start i) !! j))).
Proof.
  intros Hi Hj. unfold subtracted_data.
  rewrite list_lookup_imap, Hi. simpl.
  rewrite list_lookup_imap, Hj. done.
Qed.

(** C1.  For science data of shape [(n, gr, r, c)] and a dark that has a
    plane of that shape for each of the [gr] groups, [subtract_dark]
    returns a new science object whose data at [[i, j]] is the science
    data at [[i, j]] minus group [j] of the selected dark, elementwise.
    The selected dark is [data[i]] exactly when [i < dark_nints] and
    [int_start = 1] ([int_start] being 1 when [exp_intstart] is absent)
    and the last integration otherwise, for a 4-D dark; it is the dark
    cube itself for a 3-D dark. *)
Theorem subtract_dark_data (h : heap) sl dl s d sdata spdq a g
    (n gr r c : nat) :
  h !! sl = Some (Sci s) ->
  h !! s_data s = Some (Arr (F4 sdata)) ->
  h !! s_pixeldq s = Some (Arr (Q2 spdq)) ->
  h !! dl = Some (Dark d) ->
  h !! d_data d = Some (Arr a) ->
  h !! d_groupdq d = Some (Arr g) ->
  hyper_shape n gr r c sdata ->
  plane_shape r c spdq ->
  dark_covers gr r c a ->
  dq_ready r c a g ->
  let int_start := default 1 (s_exp_intstart s) in
  exists out h' o odata,
    subtract_dark sl dl h = Ok (out, h')
    /\ h' !! out = Some (Sci o)
    /\ h' !! s_data o = Some (Arr (F4 odata))
    /\ forall (i j : nat) integ p,
         sdata !! i = Some integ -> integ !! j = Some p ->
         exists dark_sci dp,
           (* the selected dark *)
           match a with
           | F4 data =>
               ((i < length data)%nat /\ int_start = 1 ->
                  data !! i = Some dark_sci)
               /\ (~ ((i < length data)%nat /\ int_start = 1) ->
                     last data = Some dark_sci)
           | F3 data => dark_sci = data
           | _ => False
           end
           /\ selected_dark a int_start i = Some dark_sci
           /\ dark_sci !! j = Some dp
           /\ plane_shape r c p /\ plane_shape r c dp
           (* the output group is the elementwise difference *)
           /\ (odata !! i ≫= (.!! j)) = Some (plane_map2 fsub p dp)
           /\ forall (y x : nat) v w,
                pixel p y x = Some v -> pixel dp y x = Some w ->
                exists q, (odata !! i ≫= (.!! j)) = Some q
                          /\ pixel q y x = Some (fsub v w).
Proof.
  intros Hs Hsd Hsq Hd Ha Hg Hshape Hpdq Hcov Hdq int_start.
  rewrite (subtract_dark_ok h sl dl s d sdata spdq a g n gr r c) by done.
  destruct (subtracted_heap_lookups h s
              (subtracted_data a int_start sdata) spdq
              (por spdq (dark_plane g))) as (Ho & Hod & _ & _).
  eexists _, _, _, _. split; [done|]. split; [exact Ho|].
  split; [exact Hod|].
  intros i j integ p Hi Hj.
  destruct (selected_dark_covers gr r c a int_start i Hcov)
    as (dsel & Hsel & [Hlen Hpl]).
  destruct Hshape as [_ Hcubes].
  destruct (Forall_lookup_1 _ _ _ _ Hcubes Hi) as [Hgr Hplanes].
  pose proof (lookup_lt_Some _ _ _ Hj) as Hjlt.
  destruct (lookup_lt_is_Some_2 dsel j) as [dp Hdp]; [lia|].
  assert (Hout : (subtracted_data a int_start sdata !! i ≫= (.!! j))
                 = Some (plane_map2 fsub p dp)).
  { rewrite (subtracted_data_lookup a int_start sdata i j integ p) by done.
    rewrite Hsel. simpl. by rewrite Hdp. }
  exists dsel, dp. split.
  { destruct a as [data|data| |]; simpl in *; try done.
    - congruence.
    - split; intros Hc.
      + by rewrite decide_True in Hsel.
      + by rewrite decide_False in Hsel. }
  split; [done|]. split; [done|].
  split; [exact (Forall_lookup_1 _ _ _ _ Hplanes Hj)|].
  split; [exact (Forall_lookup_1 _ _ _ _ Hpl Hdp)|].
  split; [done|].
  intros y x v w Hv Hw. exists (plane_map2 fsub p dp). split; [done|].
  by apply pixel_plane_map2.
Qed.

(** C7.  [subtract_dark] sets the output [pixeldq] to the bitwise OR of
    the science [pixeldq] with the dark's flag plane: [groupdq] itself for
    a 3-D dark, the OR-reduction of [groupdq[i, 0]] over all dark
    integrations for a 4-D dark.  That reduction does not depend on the
    order of the integrations: on any permutation of them, the reduction,
    and the loop of the source that computes it, give the same plane. *)
Theorem subtract_dark_pixeldq (h : heap) sl dl s d sdata spdq a g
    (n gr r c : nat) :
  h !! sl = Some (Sci s) ->
  h !! s_data s = Some (Arr (F4 sdata)) ->
  h !! s_pixeldq s = Some (Arr (Q2 spdq)) ->
  h !! dl = Some (Dark d) ->
  h !! d_data d = Some (Arr a) ->
  h !! d_groupdq d = Some (Arr g) ->
  hyper_shape n gr r c sdata ->
  plane_shape r c spdq ->
  dark_covers gr r c a ->
  dq_ready r c a g ->
  (exists out h' o newdq,
     subtract_dark sl dl h = Ok (out, h')
     /\ h' !! out = Some (Sci o)
     /\ h' !! s_pixeldq o = Some (Arr (Q2 newdq))
     /\ bitwise_or spdq (dark_plane g) = Ok newdq
     /\ newdq = por spdq (dark_plane g)
     /\ dark_dq a g (dark_nints a) = Ok (dark_plane g)
     /\ match a, g with
        | F4 _, Q4 q => dark_plane g = or_reduce (first_planes q)
        | F3 _, Q2 p => dark_plane g = p
        | _, _ => False
        end)
  /\ forall q q' : list (list (list (list Z))),
       q ≡ₚ q' ->
       or_reduce (first_planes q) = or_reduce (first_planes q')
       /\ (q <> [] -> dq_planes r c q ->
           collapse_dq q' (len q') = collapse_dq q (len q)).
Proof.
  intros Hs Hsd Hsq Hd Ha Hg Hshape Hpdq Hcov Hdq. split.
  - rewrite (subtract_dark_ok h sl dl s d sdata spdq a g n gr r c) by done.
    destruct (subtracted_heap_lookups h s
                (subtracted_data a (default 1 (s_exp_intstart s)) sdata) spdq
                (por spdq (dark_plane g))) as (Ho & _ & Hq & _).
    destruct (dark_dq_ok r c a g) as [Hdark Hdsh]; [right| done | |].
    { destruct a; done. }
    { destruct a; simpl in *; try done. by destruct Hcov. }
    eexists _, _, _, _. split; [done|]. split; [exact Ho|].
    split; [exact Hq|]. split; [by apply (bitwise_or_same r c)|].
    split; [done|]. split; [done|].
    destruct a, g; simpl in *; done.
  - intros q q' Hperm.
    assert (Hred : or_reduce (first_planes q) = or_reduce (first_planes q'))
      by (apply or_reduce_perm; by apply first_planes_perm).
    split; [done|]. intros Hne Hq.
    rewrite (collapse_dq_ok r c q) by done.
    rewrite (collapse_dq_ok r c q').
    + by rewrite Hred.
    + intros ->. apply Permutation_nil_r in Hperm. done.
    + by apply (dq_planes_perm r c q).
Qed.

(** ** The orchestrating function *)

(** The extrapolation step succeeds: the dark does not fall short, or it
    has a valid cadence and two groups to extrapolate from. *)
Definition can_extrapolate (d : DarkData) (a : ndarray)
    (sci_total_frames drk_total_frames : Z) : Prop :=
  sci_total_frames <= drk_total_frames
  \/ (1 <= d_exp_nframes d /\ 0 <= d_exp_groupgap d /\ two_groups a).

#[global] Instance can_extrapolate_dec d a st dt :
  Decision (can_extrapolate d a st dt).
Proof. unfold can_extrapolate. apply _. Defined.

Lemma extrapolation_step_ok (h : heap) dl d a st dt :
  h !! dl = Some (Dark d) ->
  h !! d_data d = Some (Arr a) ->
  can_extrapolate d a st dt ->
  exists h1 d1 a1,
    extrapolation_step h dl d a st dt = Ok h1
    /\ h1 !! dl = Some (Dark d1)
    /\ h1 !! d_data d1 = Some (Arr a1)
    /\ (pixel_array a -> pixel_array a1)
    /\ (forall l c, l <> dl -> h !! l = Some c -> h1 !! l = Some c).
Proof.
  intros Hd Ha Hcan. unfold extrapolation_step.
  destruct (Z.gtb_spec st dt) as [Hgt|Hle].
  - destruct Hcan as [Hle|(Hnf & Hgap & H2)]; [lia|].
    destruct (ceil_div_spec (st - dt + d_exp_groupgap d)
                (d_exp_nframes d + d_exp_groupgap d)) as (k & Hk & Hceil);
      [lia|].
    assert (Hk0 : 0 <= k) by nia.
    rewrite Hk. simpl. rewrite (extrapolate_array_ok a k Hk0 H2). simpl.
    destruct (extrapolated_heap_lookups h dl d (extrapolated_array a k) k
                _ Hd) as (Hl1 & Hl2 & Hl3).
    eexists _, _, (extrapolated_array a k). split; [done|].
    split; [exact Hl1|]. split; [exact Hl2|]. split; [|exact Hl3].
    destruct a; simpl; done.
  - exists h, d, a. repeat split; done.
Qed.

Lemma lookup_new_insert (h ext : heap) l c (k : nat) :
  (<[l := c]> h ++ ext) !! (length h + k)%nat = ext !! k.
Proof.
  rewrite lookup_app_r; rewrite (length_insert h l); [|lia].
  f_equal. lia.
Qed.

Lemma finish_correction_skip (h1 : heap) sl dl out s a q
    (sci_nints sci_ngroups drk_nframes drk_groupgap : Z) :
  h1 !! sl = Some (Sci s) ->
  h1 !! s_data s = Some (Arr a) ->
  h1 !! s_pixeldq s = Some (Arr q) ->
  drk_nframes > s_exp_nframes s \/ drk_groupgap > s_exp_groupgap s ->
  finish_correction dark_fill sl dl out sci_nints sci_ngroups
      (s_exp_nframes s) (s_exp_groupgap s) drk_nframes drk_groupgap h1 =
    Ok (((length h1 + 2)%nat, None),
        <[sl := Sci (with_cal_step s "SKIPPED")]> h1
        ++ [Arr a; Arr q;
            Sci (mkScienceData (length h1) (length h1 + 1)%nat
                   (s_exp_nframes s) (s_exp_groupgap s)
                   (s_exp_intstart s) "SKIPPED")]).
Proof.
  intros Hs Ha Hq Hskip. unfold finish_correction.
  assert (Hc : (drk_nframes >? s_exp_nframes s)
               || (drk_groupgap >? s_exp_groupgap s) = true).
  { destruct (Z.gtb_spec drk_nframes (s_exp_nframes s)); [done|].
    destruct (Z.gtb_spec drk_groupgap (s_exp_groupgap s)); [done|].
    lia. }
  rewrite Hc. rewrite run_bind, (set_cal_step_run _ _ _ _ Hs).
  pose proof (lookup_lt_Some _ _ _ Hs) as Hlt.
  rewrite run_bind.
  rewrite (deepcopy_sci_run _ sl (with_cal_step s "SKIPPED") a q).
  - rewrite run_ret, (length_insert h1 sl). done.
  - by rewrite (list_lookup_insert_eq h1 sl).
  - simpl. rewrite (list_lookup_insert_ne h1 sl); [done|]. intros Heq.
    congruence.
  - simpl. rewrite (list_lookup_insert_ne h1 sl); [done|]. intros Heq.
    congruence.
Qed.

(** C2 (as the code has it).  When the dark is coarser than the science
    exposure ([drk_nframes > sci_nframes] or [drk_groupgap > sci_groupgap])
    and the extrapolation step, which comes first, does not fail,
    [do_correction_data] returns a new science object whose data are the
    input science data, with [cal_step] "SKIPPED", and no dark; this for
    3-D and 4-D darks alike. *)
Theorem skip_returns_copy (h : heap) sl dl out s sdata q d a :
  h !! sl = Some (Sci s) ->
  h !! s_data s = Some (Arr (F4 sdata)) ->
  h !! s_pixeldq s = Some (Arr q) ->
  h !! dl = Some (Dark d) ->
  h !! d_data d = Some (Arr a) ->
  pixel_array a ->
  d_exp_nframes d > s_exp_nframes s \/ d_exp_groupgap d > s_exp_groupgap s ->
  can_extrapolate d a
    (total_frames (shape1 sdata) (s_exp_nframes s) (s_exp_groupgap s))
    (total_frames (dark_ngroups a) (d_exp_nframes d) (d_exp_groupgap d)) ->
  exists out_data h' o,
    do_correction_data dark_fill sl dl out h = Ok ((out_data, None), h')
    /\ h' !! out_data = Some (Sci o)
    /\ s_cal_step o = "SKIPPED"
    /\ h' !! s_data o = Some (Arr (F4 sdata))
    /\ out_data <> sl /\ s_data o <> s_data s.
Proof.
  intros Hs Hsd Hsq Hd Ha Hpix Hskip Hcan.
  rewrite (do_correction_data_stages _ _ _ _ _ _ _ _ _ Hs Hsd Hd Ha Hpix).
  destruct (extrapolation_step_ok h dl d a _ _ Hd Ha Hcan)
    as (h1 & d1 & a1 & Hstep & _ & _ & _ & Hframe).
  rewrite Hstep.
  assert (Hne : forall l c, h !! l = Some (Arr c) -> l <> dl)
    by (intros l c Hl <-; congruence).
  assert (Hs1 : h1 !! sl = Some (Sci s))
    by (apply Hframe; [intros <-; congruence|done]).
  assert (Hsd1 : h1 !! s_data s = Some (Arr (F4 sdata)))
    by (apply Hframe; [by eapply Hne|done]).
  assert (Hsq1 : h1 !! s_pixeldq s = Some (Arr q))
    by (apply Hframe; [by eapply Hne|done]).
  rewrite (finish_correction_skip h1 sl dl out s (F4 sdata) q) by done.
  pose proof (lookup_lt_Some _ _ _ Hs1) as Hlt1.
  pose proof (lookup_lt_Some _ _ _ Hsd1) as Hlt2.
  eexists _, _, _. split; [done|].
  split; [by rewrite (lookup_new_insert h1 _ sl _ 2)|].
  split; [done|]. simpl. split.
  { rewrite <- (Nat.add_0_r (length h1)).
    by rewrite (lookup_new_insert h1 _ sl _ 0). }
  split; lia.
Qed.

(** No element of a pixel array is a NaN. *)
Definition no_nan (a : ndarray) : Prop :=
  match a with
  | F3 x => Forall (Forall (Forall (fun v => is_nan v = false))) x
  | F4 x => Forall (Forall (Forall (Forall (fun v => is_nan v = false)))) x
  | _ => True
  end.

Lemma nan_to_zero_not_nan (v : F) :
  is_nan fzero = false -> is_nan (nan_to_zero v) = false.
Proof. intros H0. unfold nan_to_zero. by destruct (is_nan v) eqn:Hv. Qed.

Lemma nans_to_zero_ok (a : ndarray) :
  is_nan fzero = false -> pixel_array a ->
  exists a', nans_to_zero a = Ok a' /\ no_nan a' /\ pixel_array a'.
Proof.
  intros H0 Hpix. destruct a as [x|x| |]; simpl in *; try done.
  - eexists. split; [done|]. split; [|done]. simpl.
    repeat (apply Forall_map, Forall_true; intros ?).
    by apply nan_to_zero_not_nan.
  - eexists. split; [done|]. split; [|done]. simpl.
    repeat (apply Forall_map, Forall_true; intros ?).
    by apply nan_to_zero_not_nan.
Qed.

(** C8 (as the code has it).  When the correction is not skipped, the
    dark's data array, as it stands after the extrapolation step, has its
    NaN replaced by zero, in place, before the averaging and subtraction
    of [apply_dark] run: they run in a heap in which the array of the dark
    holds no NaN. *)
Theorem nans_replaced_before_use (h : heap) sl dl out s sdata d a :
  h !! sl = Some (Sci s) ->
  h !! s_data s = Some (Arr (F4 sdata)) ->
  h !! dl = Some (Dark d) ->
  h !! d_data d = Some (Arr a) ->
  pixel_array a ->
  is_nan fzero = false ->
  d_exp_nframes d <= s_exp_nframes s ->
  d_exp_groupgap d <= s_exp_groupgap s ->
  can_extrapolate d a
    (total_frames (shape1 sdata) (s_exp_nframes s) (s_exp_groupgap s))
    (total_frames (dark_ngroups a) (d_exp_nframes d) (d_exp_groupgap d)) ->
  exists h1 d1 a1 a2,
    (* after the extrapolation step the dark holds [a1] *)
    extrapolation_step h dl d a
      (total_frames (shape1 sdata) (s_exp_nframes s) (s_exp_groupgap s))
      (total_frames (dark_ngroups a) (d_exp_nframes d) (d_exp_groupgap d))
      = Ok h1
    /\ h1 !! dl = Some (Dark d1)
    /\ h1 !! d_data d1 = Some (Arr a1)
    (* its NaN are replaced by zero *)
    /\ nans_to_zero a1 = Ok a2
    /\ no_nan a2
    /\ replace_nans dl h1 = Ok (tt, <[d_data d1 := Arr a2]> h1)
    (* and the rest of the correction reads that array *)
    /\ <[d_data d1 := Arr a2]> h1 !! dl = Some (Dark d1)
    /\ <[d_data d1 := Arr a2]> h1 !! d_data d1 = Some (Arr a2)
    /\ do_correction_data dark_fill sl dl out h =
         apply_dark dark_fill sl dl out (len sdata) (shape1 sdata)
           (s_exp_nframes s) (s_exp_groupgap s)
           (d_exp_nframes d) (d_exp_groupgap d)
           (<[d_data d1 := Arr a2]> h1).
Proof.
  intros Hs Hsd Hd Ha Hpix H0 Hnf Hgap Hcan.
  destruct (extrapolation_step_ok h dl d a _ _ Hd Ha Hcan)
    as (h1 & d1 & a1 & Hstep & Hd1 & Ha1 & Hpix1 & _).
  destruct (nans_to_zero_ok a1 H0 (Hpix1 Hpix)) as (a2 & Hnz & Hno & _).
  pose proof (lookup_lt_Some _ _ _ Ha1) as Hlt.
  assert (Hrep : replace_nans dl h1 = Ok (tt, <[d_data d1 := Arr a2]> h1)).
  { rewrite (replace_nans_run _ _ _ _ Hd1 Ha1), Hnz. done. }
  exists h1, d1, a1, a2. split; [done|]. split; [done|]. split; [done|].
  split; [done|]. split; [done|]. split; [done|].
  split.
  { rewrite (list_lookup_insert_ne h1 (d_data d1)); [done|].
    intros Heq. congruence. }
  split; [by rewrite (list_lookup_insert_eq h1 (d_data d1))|].
  rewrite (do_correction_data_stages _ _ _ _ _ _ _ _ _ Hs Hsd Hd Ha Hpix).
  rewrite Hstep. unfold finish_correction.
  assert (Hc : (d_exp_nframes d >? s_exp_nframes s)
               || (d_exp_groupgap d >? s_exp_groupgap s) = false).
  { destruct (Z.gtb_spec (d_exp_nframes d) (s_exp_nframes s)); [lia|].
    destruct (Z.gtb_spec (d_exp_groupgap d) (s_exp_groupgap s)); [lia|].
    done. }
  rewrite Hc, run_bind, Hrep. done.
Qed.

(** A dark with fewer than two groups (in its first integration, for a
    4-D dark). *)
Definition fewer_than_two_groups (a : ndarray) : Prop :=
  match a with
  | F3 x => (length x < 2)%nat
  | F4 (c :: _) => (length c < 2)%nat
  | _ => False
  end.

#[global] Instance fewer_than_two_groups_dec a :
  Decision (fewer_than_two_groups a).
Proof. destruct a as [x|[|c x]| |]; simpl; apply _. Defined.

(** C10 (as the code has it).  When extrapolation is required and the
    dark, of valid cadence, has fewer than two groups, the correction
    fails with the IndexError of the array indexing. *)
Theorem too_few_groups_raises (h : heap) sl dl out s sdata d a :
  h !! sl = Some (Sci s) ->
  h !! s_data s = Some (Arr (F4 sdata)) ->
  h !! dl = Some (Dark d) ->
  h !! d_data d = Some (Arr a) ->
  1 <= d_exp_nframes d -> 0 <= d_exp_groupgap d ->
  total_frames (shape1 sdata) (s_exp_nframes s) (s_exp_groupgap s)
    > total_frames (dark_ngroups a) (d_exp_nframes d) (d_exp_groupgap d) ->
  fewer_than_two_groups a ->
  do_correction_data dark_fill sl dl out h = Raise IndexError.
Proof.
  intros Hs Hsd Hd Ha Hnf Hgap Hshort Hfew.
  assert (Hpix : pixel_array a) by (destruct a as [x|[|c x]| |]; done).
  rewrite (do_correction_data_stages _ _ _ _ _ _ _ _ _ Hs Hsd Hd Ha Hpix).
  unfold extrapolation_step.
  destruct (Z.gtb_spec
              (total_frames (shape1 sdata) (s_exp_nframes s) (s_exp_groupgap s))
              (total_frames (dark_ngroups a) (d_exp_nframes d)
                 (d_exp_groupgap d))) as [_|Hle]; [|lia].
  destruct (ceil_div_spec
              (total_frames (shape1 sdata) (s_exp_nframes s) (s_exp_groupgap s)
               - total_frames (dark_ngroups a) (d_exp_nframes d)
                   (d_exp_groupgap d) + d_exp_groupgap d)
              (d_exp_nframes d + d_exp_groupgap d)) as (k & Hk & Hceil);
    [lia|].
  assert (Hk0 : 0 <= k) by nia.
  rewrite Hk. simpl.
  destruct a as [x|[|c x]| |]; simpl in *; try done.
  - by rewrite _extrapolate_int_short.
  - pose proof (len_nonneg c). unfold shape1. simpl.
    destruct (Z.ltb_spec (len c + k) 0); [lia|].
    by rewrite _extrapolate_int_short.
Qed.

End Claims.

(** ** Worked inputs on IEEE binary64 *)

(** The binary64 value of an integer. *)
Definition f64 (z : Z) : B64.t := B64.of_Z z.

(** Reads the data array of the science object that a correction returns. *)
Definition output_data `{PA : PixelArith}
    (r : res (loc * option loc * heap)) : option (list (list (list (list F)))) :=
  match r with
  | Ok ((out, _), h') =>
      match h' !! out with
      | Some (Sci o) =>
          match h' !! s_data o with
          | Some (Arr (F4 x)) => Some x
          | _ => None
          end
      | _ => None
      end
  | Raise _ => None
  end.

(** A science exposure of one integration, two groups of 1 by 2 pixels,
    and a 3-D dark of the same cadence with two groups. *)
Definition heap_matching : heap :=
  [ Arr (F4 [[ [[f64 10; f64 20]]; [[f64 30; f64 40]] ]]);
    Arr (Q2 [[1; 2]]);
    Sci (mkScienceData 0%nat 1%nat 1 0 None "");
    Arr (F3 [ [[f64 1; f64 2]]; [[f64 3; f64 4]] ]);
    Arr (Q2 [[4; 8]]);
    Dark (mkDarkData 3%nat 4%nat 1 0 2 false None) ].

(** Three science groups against a dark of two groups, whose last group
    holds a NaN: the dark falls short by one group. *)
Definition heap_short : heap :=
  [ Arr (F4 [[ [[f64 10]]; [[f64 20]]; [[f64 30]] ]]);
    Arr (Q2 [[0]]);
    Sci (mkScienceData 0%nat 1%nat 1 0 None "");
    Arr (F3 [ [[f64 1]]; [[B64.nan]] ]);
    Arr (Q2 [[0]]);
    Dark (mkDarkData 3%nat 4%nat 1 0 2 false None) ].

(** Five science groups of one frame against a dark of two groups of two
    frames: the dark is coarser and falls short. *)
Definition heap_coarse : heap :=
  [ Arr (F4 [[ [[f64 1]]; [[f64 2]]; [[f64 3]]; [[f64 4]]; [[f64 5]] ]]);
    Arr (Q2 [[0]]);
    Sci (mkScienceData 0%nat 1%nat 1 0 None "");
    Arr (F3 [ [[f64 1]]; [[f64 2]] ]);
    Arr (Q2 [[0]]);
    Dark (mkDarkData 3%nat 4%nat 2 0 2 false None) ].

(** As spec section 8: science nframes 4 against dark nframes 8, here with
    five science groups and a dark of a single group. *)
Definition heap_one_group : heap :=
  [ Arr (F4 [[ [[f64 1]]; [[f64 2]]; [[f64 3]]; [[f64 4]]; [[f64 5]] ]]);
    Arr (Q2 [[0]]);
    Sci (mkScienceData 0%nat 1%nat 4 0 None "");
    Arr (F3 [ [[f64 1]] ]);
    Arr (Q2 [[0]]);
    Dark (mkDarkData 3%nat 4%nat 8 0 1 false None) ].

(** A 3-D dark of four frames to be averaged two by two. *)
Definition heap_average : heap :=
  [ Arr (F4 [[ [[f64 10]]; [[f64 20]] ]]);
    Arr (Q2 [[0]]);
    Sci (mkScienceData 0%nat 1%nat 2 0 None "");
    Arr (F3 [ [[f64 1]]; [[f64 3]]; [[f64 5]]; [[f64 7]] ]);
    Arr (Q2 [[0]]);
    Dark (mkDarkData 3%nat 4%nat 1 0 4 false None) ].

(** A 4-D dark of two integrations of two groups, with its 4-D flags. *)
Definition heap_4d : heap :=
  [ Arr (F4 [[ [[f64 10]]; [[f64 20]] ]]);
    Arr (Q2 [[1]]);
    Sci (mkScienceData 0%nat 1%nat 1 0 None "");
    Arr (F4 [ [ [[f64 1]]; [[f64 2]] ]; [ [[f64 3]]; [[f64 4]] ] ]);
    Arr (Q4 [ [ [[2]]; [[0]] ]; [ [[4]]; [[0]] ] ]);
    Dark (mkDarkData 3%nat 4%nat 1 0 2 false None) ].

(** Science planes of 2 by 2 pixels against a dark plane of 1 by 1. *)
Definition heap_broadcast : heap :=
  [ Arr (F4 [[ [[f64 10; f64 20]; [f64 30; f64 40]] ]]);
    Arr (Q2 [[0; 0]; [0; 0]]);
    Sci (mkScienceData 0%nat 1%nat 1 0 None "");
    Arr (F3 [ [[f64 1]] ]);
    Arr (Q2 [[0]]);
    Dark (mkDarkData 3%nat 4%nat 1 0 1 false None) ].

Ltac shape :=
  repeat (split || constructor || reflexivity || lia
          || (intro; discriminate) || eexists).

Lemma extrapolation_covers_science_witness :
  exists k h1,
    extrapolate_dark 5%nat k heap_short = Ok (tt, h1)
    /\ total_frames (2 + k) 1 0 >= total_frames 3 1 0.
Proof.
  destruct (extrapolation_covers_science (PA:=B64.arith) B64.zero heap_short 2%nat 5%nat None
              _ _ _ _ eq_refl eq_refl eq_refl eq_refl
              ltac:(simpl; lia) ltac:(simpl; lia) ltac:(simpl; lia)
              ltac:(vm_compute; reflexivity))
    as (_ & _ & k & h1 & a1 & _ & _ & Hex & _ & _ & _ & Hn & Hge).
  exists k, h1. split; [exact Hex|].
  rewrite Hn in Hge. exact Hge.
Defined.

Lemma extrapolate_dark_appends_witness :
  exists h1 d1,
    extrapolate_dark 5%nat 4 heap_matching = Ok (tt, h1)
    /\ h1 !! 5%nat = Some (Dark d1)
    /\ d_exp_ngroups d1 = 2 + 4.
Proof.
  destruct (extrapolate_dark_appends (PA:=B64.arith) heap_matching 5%nat
              _ _ 4 eq_refl eq_refl ltac:(simpl; lia) ltac:(lia))
    as (h1 & d1 & a1 & Hex & Hd1 & _ & _ & Hn).
  exists h1, d1. split; [exact Hex|]. split; [exact Hd1|exact Hn].
Defined.

Lemma average_dark_frames_3d_groups_witness :
  exists avg h' davg data p,
    average_dark_frames_3d B64.zero 5%nat 2 2 0 heap_average = Ok (avg, h')
    /\ h' !! avg = Some (Dark davg)
    /\ h' !! d_data davg = Some (Arr (F3 data))
    /\ d_exp_ngroups davg = 2
    /\ data !! 1%nat = Some p
    /\ pixel p 0 0 = Some (fdiv (fadd (f64 5) (f64 7)) (of_int 2)).
Proof.
  destruct (average_dark_frames_3d_groups (PA:=B64.arith) B64.zero
              heap_average 5%nat _ _ 2 2 0 1 1 eq_refl eq_refl
              ltac:(vm_compute; shape)
              ltac:(lia) ltac:(lia) ltac:(lia)
              ltac:(vm_compute; shape))
    as (avg & h' & davg & data & Hrun & Hd & Ha & _ & Hall & _ & Hn & _).
  destruct (Hall 1 ltac:(lia)) as (p & Hp & _ & Hmean).
  destruct (Hmean ltac:(lia) 0%nat 0%nat ltac:(lia) ltac:(lia))
    as (vs & Hlen & Hvs & Hpix).
  exists avg, h', davg, data, p.
  split; [exact Hrun|]. split; [exact Hd|]. split; [exact Ha|].
  split; [exact Hn|]. split; [exact Hp|].
  destruct (Hvs 0%nat ltac:(lia)) as (fr0 & v0 & Hf0 & Hp0 & Hv0).
  destruct (Hvs 1%nat ltac:(lia)) as (fr1 & v1 & Hf1 & Hp1 & Hv1).
  injection Hf0 as <-. injection Hf1 as <-.
  injection Hp0 as <-. injection Hp1 as <-.
  destruct vs as [|w0 [|w1 [|w2 vs]]];
    [discriminate|discriminate| |unfold len in Hlen; simpl in Hlen; lia].
  injection Hv0 as ->. injection Hv1 as ->.
  exact Hpix.
Defined.

Lemma average_dark_frames_4d_shape_witness :
  exists avg h' davg data,
    average_dark_frames_4d B64.zero 5%nat 1 2 1 0 heap_4d = Ok (avg, h')
    /\ h' !! avg = Some (Dark davg)
    /\ h' !! d_data davg = Some (Arr (F4 data))
    /\ hyper_shape 2 2 1 1 data.
Proof.
  destruct (average_dark_frames_4d_shape (PA:=B64.arith) B64.zero
              heap_4d 5%nat _ _ 1 2 1 0 2%nat eq_refl eq_refl
              ltac:(lia) ltac:(lia) ltac:(lia) ltac:(lia)
              ltac:(vm_compute; shape) ltac:(vm_compute; shape))
    as (avg & h' & davg & data & Hrun & Hd & Ha & Hsh & _).
  exists avg, h', davg, data.
  split; [exact Hrun|]. split; [exact Hd|]. split; [exact Ha|exact Hsh].
Defined.

(** The result of the 4-D averager on [heap_4d], for one science
    integration. *)
Definition run_average_4d :=
  Eval vm_compute in
    (average_dark_frames_4d B64.zero 5%nat 1 2 1 0 heap_4d).

Lemma run_average_4d_eq :
  average_dark_frames_4d B64.zero 5%nat 1 2 1 0 heap_4d = run_average_4d.
Proof. reflexivity. Qed.

(** C6, the claim as stated fails: with a dark of two integrations and a
    science exposure of one, the returned array has two integrations, not
    [min(2, 1)]. *)
Lemma average_dark_frames_4d_shape_counterexample :
  exists avg h' davg data,
    average_dark_frames_4d B64.zero 5%nat 1 2 1 0 heap_4d = Ok (avg, h')
    /\ h' !! avg = Some (Dark davg)
    /\ h' !! d_data davg = Some (Arr (F4 data))
    /\ len data = 2
    /\ len data <> Z.min 2 1.
Proof.
  eexists _, _, _, _. split; [exact run_average_4d_eq|].
  split; [reflexivity|]. split; [reflexivity|]. split; [reflexivity|].
  discriminate.
Qed.

Lemma subtract_dark_data_witness :
  exists out h' o odata,
    subtract_dark 2%nat 5%nat heap_matching = Ok (out, h')
    /\ h' !! out = Some (Sci o)
    /\ h' !! s_data o = Some (Arr (F4 odata))
    /\ (odata !! 0%nat ≫= (.!! 1%nat))
       = Some (plane_map2 fsub [[f64 30; f64 40]] [[f64 3; f64 4]]).
Proof.
  destruct (subtract_dark_data (PA:=B64.arith) heap_matching 2%nat 5%nat
              _ _ _ _ _ _ 1 2 1 2
              eq_refl eq_refl eq_refl eq_refl eq_refl eq_refl
              ltac:(vm_compute; shape) ltac:(vm_compute; shape)
              ltac:(vm_compute; shape) ltac:(vm_compute; shape))
    as (out & h' & o & odata & Hrun & Ho & Hod & Hall).
  exists out, h', o, odata.
  split; [exact Hrun|]. split; [exact Ho|]. split; [exact Hod|].
  destruct (Hall 0%nat 1%nat _ _ eq_refl eq_refl)
    as (dsel & dp & Hsel & _ & Hdp & _ & _ & Hout & _).
  simpl in Hsel. subst dsel. simpl in Hdp. injection Hdp as <-.
  exact Hout.
Defined.

Lemma subtract_dark_pixeldq_witness :
  exists out h' o,
    subtract_dark 2%nat 5%nat heap_4d = Ok (out, h')
    /\ h' !! out = Some (Sci o)
    /\ h' !! s_pixeldq o = Some (Arr (Q2 [[7]])).
Proof.
  destruct (subtract_dark_pixeldq (PA:=B64.arith) heap_4d 2%nat 5%nat
              _ _ _ _ _ _ 1 2 1 1
              eq_refl eq_refl eq_refl eq_refl eq_refl eq_refl
              ltac:(vm_compute; shape) ltac:(vm_compute; shape)
              ltac:(vm_compute; shape) ltac:(vm_compute; shape))
    as ((out & h' & o & newdq & Hrun & Ho & Hq & _ & Hnew & _) & _).
  exists out, h', o.
  split; [exact Hrun|]. split; [exact Ho|].
  rewrite Hq, Hnew. reflexivity.
Defined.

Lemma skip_returns_copy_witness :
  exists out_data h' o,
    do_correction_data B64.zero 2%nat 5%nat None heap_coarse
      = Ok ((out_data, None), h')
    /\ h' !! out_data = Some (Sci o)
    /\ s_cal_step o = "SKIPPED"
    /\ h' !! s_data o
       = Some (Arr (F4 [[ [[f64 1]]; [[f64 2]]; [[f64 3]]; [[f64 4]];
                          [[f64 5]] ]])).
Proof.
  destruct (skip_returns_copy (PA:=B64.arith) B64.zero heap_coarse
              2%nat 5%nat None _ _ _ _ _
              eq_refl eq_refl eq_refl eq_refl eq_refl
              ltac:(exact I) ltac:(left; simpl; lia)
              ltac:(right; simpl; lia))
    as (out_data & h' & o & Hrun & Ho & Hc & Hd & _).
  exists out_data, h', o.
  split; [exact Hrun|]. split; [exact Ho|]. split; [exact Hc|exact Hd].
Defined.

(** C2, the claim as stated fails: the dark is coarser than the science
    exposure (nframes 8 against 4), but it also falls short and has a
    single group, so that the extrapolation, which runs before the skip
    test, raises IndexError. *)
Lemma skip_counterexample :
  d_exp_nframes (mkDarkData 3%nat 4%nat 8 0 1 false None)
    > s_exp_nframes (mkScienceData 0%nat 1%nat 4 0 None "")
  /\ heap_one_group !! 5%nat
     = Some (Dark (mkDarkData 3%nat 4%nat 8 0 1 false None))
  /\ heap_one_group !! 2%nat
     = Some (Sci (mkScienceData 0%nat 1%nat 4 0 None ""))
  /\ do_correction_data B64.zero 2%nat 5%nat None heap_one_group
     = Raise IndexError.
Proof.
  split; [simpl; lia|]. split; [reflexivity|]. split; [reflexivity|].
  reflexivity.
Qed.

Lemma nans_replaced_before_use_witness :
  exists h1 d1 a2,
    h1 !! 5%nat = Some (Dark d1)
    /\ no_nan a2
    /\ do_correction_data B64.zero 2%nat 5%nat None heap_short =
         apply_dark B64.zero 2%nat 5%nat None 1 3 1 0 1 0
           (<[d_data d1 := Arr a2]> h1).
Proof.
  destruct (nans_replaced_before_use (PA:=B64.arith) B64.zero heap_short
              2%nat 5%nat None _ _ _ _
              eq_refl eq_refl eq_refl eq_refl
              ltac:(exact I) eq_refl ltac:(simpl; lia) ltac:(simpl; lia)
              ltac:(right; simpl; lia))
    as (h1 & d1 & a1 & a2 & _ & Hd1 & _ & _ & Hno & _ & _ & _ & Hrun).
  exists h1, d1, a2. split; [exact Hd1|]. split; [exact Hno|exact Hrun].
Defined.

(** C8, the claim as stated fails: the NaN of the dark's last group goes
    through the extrapolation before it is replaced.  The corrected data
    differ from what the same call gives on a dark sanitised beforehand:
    the extrapolated group is 0 (a NaN replaced afterwards) instead of
    [0 + 1 * (0 - 1) = -1]. *)
Lemma nan_before_extrapolation_counterexample :
  output_data (do_correction_data B64.zero 2%nat 5%nat None heap_short)
    = Some [[ [[f64 9]]; [[f64 20]]; [[f64 30]] ]]
  /\ output_data
       ((replace_nans 5%nat ≫=
           fun _ => do_correction_data B64.zero 2%nat 5%nat None) heap_short)
     = Some [[ [[f64 9]]; [[f64 20]]; [[f64 31]] ]]
  /\ output_data (do_correction_data B64.zero 2%nat 5%nat None heap_short)
     <> output_data
          ((replace_nans 5%nat ≫=
              fun _ => do_correction_data B64.zero 2%nat 5%nat None)
             heap_short).
Proof.
  assert (H1 : output_data
                 (do_correction_data B64.zero 2%nat 5%nat None heap_short)
               = Some [[ [[f64 9]]; [[f64 20]]; [[f64 30]] ]])
    by reflexivity.
  assert (H2 : output_data
                 ((replace_nans 5%nat ≫=
                     fun _ => do_correction_data B64.zero 2%nat 5%nat None)
                    heap_short)
               = Some [[ [[f64 9]]; [[f64 20]]; [[f64 31]] ]])
    by reflexivity.
  split; [exact H1|]. split; [exact H2|].
  rewrite H1, H2. intros Heq. injection Heq as Heq. vm_compute in Heq.
  discriminate.
Qed.

Lemma too_few_groups_raises_witness :
  do_correction_data B64.zero 2%nat 5%nat None heap_one_group
    = Raise IndexError.
Proof.
  exact (too_few_groups_raises (PA:=B64.arith) B64.zero heap_one_group
           2%nat 5%nat None _ _ _ _ eq_refl eq_refl eq_refl eq_refl
           ltac:(simpl; lia) ltac:(simpl; lia)
           ltac:(vm_compute; reflexivity) ltac:(simpl; lia)).
Defined.

(** The result of the correction on [heap_broadcast]. *)
Definition run_broadcast :=
  Eval vm_compute in
    (do_correction_data B64.zero 2%nat 5%nat None heap_broadcast).

Lemma run_broadcast_eq :
  do_correction_data B64.zero 2%nat 5%nat None heap_broadcast = run_broadcast.
Proof. reflexivity. Qed.

(** C10, the claim as stated fails: the science planes are 2 by 2 and the
    dark plane 1 by 1, yet the correction returns, the single dark pixel
    having been subtracted from every science pixel. *)
Lemma inconsistent_shapes_counterexample :
  exists out h',
    do_correction_data B64.zero 2%nat 5%nat None heap_broadcast
      = Ok ((out, None), h')
    /\ output_data (do_correction_data B64.zero 2%nat 5%nat None
                      heap_broadcast)
       = Some [[ [[f64 9; f64 19]; [f64 29; f64 39]] ]].
Proof.
  eexists _, _. split; [exact run_broadcast_eq|reflexivity].
Qed.

(** The results of the correction on [heap_coarse] (skip path) and on
    [heap_average] (averaging path). *)
Definition run_coarse :=
  Eval vm_compute in
    (do_correction_data B64.zero 2%nat 5%nat None heap_coarse).

Definition run_average :=
  Eval vm_compute in
    (do_correction_data B64.zero 2%nat 5%nat None heap_average).

Lemma run_coarse_eq :
  do_correction_data B64.zero 2%nat 5%nat None heap_coarse = run_coarse.
Proof. reflexivity. Qed.

Lemma run_average_eq :
  do_correction_data B64.zero 2%nat 5%nat None heap_average = run_average.
Proof. reflexivity. Qed.

(** C9, the code at two inputs.  On the skip path the caller's own
    science object, at reference 2, has its [cal_step] overwritten.  On
    the averaging path the returned dark holds, as [groupdq], the very
    reference of the input dark's [groupdq], so that a later write of the
    caller to that array is seen through the returned object. *)
Theorem caller_objects_not_isolated :
  (exists out h',
     heap_coarse !! 2%nat = Some (Sci (mkScienceData 0%nat 1%nat 1 0 None ""))
     /\ do_correction_data B64.zero 2%nat 5%nat None heap_coarse
        = Ok ((out, None), h')
     /\ h' !! 2%nat
        = Some (Sci (mkScienceData 0%nat 1%nat 1 0 None "SKIPPED")))
  /\ (exists out avg h' d davg,
        do_correction_data B64.zero 2%nat 5%nat None heap_average
          = Ok ((out, Some avg), h')
        /\ heap_average !! 5%nat = Some (Dark d)
        /\ h' !! avg = Some (Dark davg)
        /\ avg <> 5%nat
        /\ d_groupdq davg = d_groupdq d
        /\ forall (q : list (list Z)) h'',
             set_cell (d_groupdq d) (Arr (Q2 q)) h' = Ok (tt, h'') ->
             h'' !! d_groupdq davg = Some (Arr (Q2 q))).
Proof.
  split.
  - eexists _, _. split; [reflexivity|]. split; [exact run_coarse_eq|].
    reflexivity.
  - eexists _, _, _, _, _. split; [exact run_average_eq|].
    split; [reflexivity|]. split; [reflexivity|]. split; [lia|].
    split; [reflexivity|].
    intros q h'' Hset. unfold set_cell in Hset. simpl in Hset.
    injection Hset as <-. reflexivity.
Qed.

(** ** Further properties of the module *)

Section Extras.
Context `{PA : PixelArith}.
Variable dark_fill : F.

Local Abbreviation plane := (list (list F)).
Local Abbreviation cube := (list (list (list F))).

(** Lookups after an in-place update of a heap cell. *)
Lemma heap_lookup_insert_ne (h : heap) l l' c :
  l <> l' -> <[l := c]> h !! l' = h !! l'.
Proof. apply list_lookup_insert_ne. Qed.

Lemma heap_lookup_insert_eq (h : heap) l c :
  (l < length h)%nat -> <[l := c]> h !! l = Some c.
Proof. apply list_lookup_insert_eq. Qed.

Lemma heap_length_insert (h : heap) l c : length (<[l := c]> h) = length h.
Proof. apply length_insert. Qed.

(** [subtract_dark] only allocates (lines 351-388): when it returns, every
    cell of the caller's heap is as it was, the science object it returns is
    a new one, with new data and flag arrays, and its other attributes are
    those of the input science object. *)
Theorem subtract_dark_frame (h h' : heap) sl dl s d sdata spdq a g out :
  h !! sl = Some (Sci s) ->
  h !! s_data s = Some (Arr (F4 sdata)) ->
  h !! s_pixeldq s = Some (Arr (Q2 spdq)) ->
  h !! dl = Some (Dark d) ->
  h !! d_data d = Some (Arr a) ->
  h !! d_groupdq d = Some (Arr g) ->
  subtract_dark sl dl h = Ok (out, h') ->
  (forall l c, h !! l = Some c -> h' !! l = Some c)
  /\ length h' = (length h + 4)%nat
  /\ (length h <= out)%nat
  /\ exists o,
       h' !! out = Some (Sci o)
       /\ (length h <= s_data o)%nat
       /\ (length h <= s_pixeldq o)%nat
       /\ s_exp_nframes o = s_exp_nframes s
       /\ s_exp_groupgap o = s_exp_groupgap s
       /\ s_exp_intstart o = s_exp_intstart s
       /\ s_cal_step o = s_cal_step s.
Proof.
  intros Hs Hsd Hsq Hd Ha Hg Hrun.
  rewrite (subtract_dark_run _ _ _ _ _ _ _ _ _ Hs Hsd Hsq Hd Ha Hg) in Hrun.
  destruct (dark_dq a g _) as [darkdq|e]; simpl in Hrun; [|done].
  destruct (bitwise_or spdq darkdq) as [newdq|e]; simpl in Hrun; [|done].
  destruct (subtract_ints _ _ _ _ _ _) as [odata|e]; simpl in Hrun; [|done].
  injection Hrun as <- <-.
  destruct (subtracted_heap_lookups h s odata spdq newdq)
    as (Ho & _ & _ & Hframe).
  split; [exact Hframe|]. split.
  { unfold subtracted_heap. rewrite length_app. done. }
  split; [lia|].
  eexists. split; [exact Ho|]. simpl.
  repeat split; lia.
Qed.

(** [extrapolate_dark] rebinds [dark_data.data] to a new array (lines
    414-423): when it returns, the array that the dark held before is
    untouched, as is every cell other than the dark object, and the dark
    object keeps its flags, cadence and persistence attributes. *)
Theorem extrapolate_dark_frame (h h' : heap) dl d a k :
  h !! dl = Some (Dark d) ->
  h !! d_data d = Some (Arr a) ->
  extrapolate_dark dl k h = Ok (tt, h') ->
  (forall l c, l <> dl -> h !! l = Some c -> h' !! l = Some c)
  /\ h' !! d_data d = Some (Arr a)
  /\ length h' = S (length h)
  /\ exists d1,
       h' !! dl = Some (Dark d1)
       /\ d_data d1 = length h
       /\ d_groupdq d1 = d_groupdq d
       /\ d_exp_nframes d1 = d_exp_nframes d
       /\ d_exp_groupgap d1 = d_exp_groupgap d
       /\ d_exp_ngroups d1 = d_exp_ngroups d + k
       /\ d_save d1 = d_save d
       /\ d_output_name d1 = d_output_name d.
Proof.
  intros Hd Ha Hrun.
  rewrite (extrapolate_dark_run _ _ _ _ _ Hd Ha) in Hrun.
  destruct (extrapolate_array a k) as [new|e]; simpl in Hrun; [|done].
  injection Hrun as <-.
  destruct (extrapolated_heap_lookups h dl d new k _ Hd) as (H1 & H2 & H3).
  split; [exact H3|]. split.
  { apply H3; [|done]. intros Heq. congruence. }
  split.
  { rewrite length_insert, length_app. simpl. lia. }
  eexists. split; [exact H1|]. done.
Qed.

(** The averagers do not copy the flags (lines 206 and 274): when
    [average_dark_frames_3d] or [average_dark_frames_4d] returns, the new
    dark holds the reference of the input dark's [groupdq]; nothing of the
    caller's heap has changed, the new data array is fresh, and the new
    dark is not marked for saving. *)
Theorem averaged_dark_shares_groupdq (h h' : heap) dl d a avg
    (nints ngroups nframes groupgap : Z) :
  h !! dl = Some (Dark d) ->
  h !! d_data d = Some (Arr a) ->
  (average_dark_frames_3d dark_fill dl ngroups nframes groupgap h
     = Ok (avg, h')
   \/ average_dark_frames_4d dark_fill dl nints ngroups nframes groupgap h
      = Ok (avg, h')) ->
  (forall l c, h !! l = Some c -> h' !! l = Some c)
  /\ (length h <= avg)%nat
  /\ exists davg,
       h' !! avg = Some (Dark davg)
       /\ d_groupdq davg = d_groupdq d
       /\ d_data davg = length h
       /\ d_exp_nframes davg = nframes
       /\ d_exp_ngroups davg = ngroups
       /\ d_exp_groupgap davg = groupgap
       /\ d_save davg = false
       /\ d_output_name davg = None.
Proof.
  intros Hd Ha Hrun.
  assert (Hheap : exists data,
             avg = (length h + 1)%nat
             /\ h' = averaged_heap h d data ngroups nframes groupgap).
  { destruct Hrun as [Hrun|Hrun].
    - destruct a as [src|src| |].
      + rewrite (average_dark_frames_3d_run _ _ _ _ _ _ _ _ Hd Ha) in Hrun.
        destruct (full_cube _ _ _ _) as [init|e]; simpl in Hrun; [|done].
        destruct (average_groups _ _ _ _ _) as [data|e]; simpl in Hrun;
          [|done].
        injection Hrun as <- <-. eauto.
      + unfold average_dark_frames_3d in Hrun.
        rewrite run_bind, (run_get_dark _ _ _ Hd) in Hrun.
        rewrite run_bind, (run_get_arr _ _ _ Ha) in Hrun. done.
      + unfold average_dark_frames_3d in Hrun.
        rewrite run_bind, (run_get_dark _ _ _ Hd) in Hrun.
        rewrite run_bind, (run_get_arr _ _ _ Ha) in Hrun. done.
      + unfold average_dark_frames_3d in Hrun.
        rewrite run_bind, (run_get_dark _ _ _ Hd) in Hrun.
        rewrite run_bind, (run_get_arr _ _ _ Ha) in Hrun. done.
    - destruct a as [src|src| |].
      + unfold average_dark_frames_4d in Hrun.
        rewrite run_bind, (run_get_dark _ _ _ Hd) in Hrun.
        rewrite run_bind, (run_get_arr _ _ _ Ha) in Hrun. done.
      + rewrite (average_dark_frames_4d_run _ _ _ _ _ _ _ _ _ Hd Ha) in Hrun.
        destruct (full_cube _ _ _ _) as [one|e]; simpl in Hrun; [|done].
        destruct (average_ints _ _ _ _ _ _) as [data|e]; simpl in Hrun;
          [|done].
        injection Hrun as <- <-. eauto.
      + unfold average_dark_frames_4d in Hrun.
        rewrite run_bind, (run_get_dark _ _ _ Hd) in Hrun.
        rewrite run_bind, (run_get_arr _ _ _ Ha) in Hrun. done.
      + unfold average_dark_frames_4d in Hrun.
        rewrite run_bind, (run_get_dark _ _ _ Hd) in Hrun.
        rewrite run_bind, (run_get_arr _ _ _ Ha) in Hrun. done. }
  destruct Hheap as (data & -> & ->).
  split; [intros l c Hl; by apply lookup_grown|].
  split; [lia|].
  eexists. split; [unfold averaged_heap; by rewrite (lookup_new h _ 1)|].
  done.
Qed.

(** A negative number of groups is refused (lines 409-411 and 417): for a
    dark with two groups to take the rate from, [extrapolate_dark] raises
    ValueError. *)
Theorem extrapolate_dark_negative (h : heap) dl d a k :
  h !! dl = Some (Dark d) ->
  h !! d_data d = Some (Arr a) ->
  two_groups a ->
  k < 0 ->
  extrapolate_dark dl k h = Raise ValueError.
Proof.
  intros Hd Ha H2 Hk.
  rewrite (extrapolate_dark_run _ _ _ _ _ Hd Ha).
  assert (Hint : forall c : cube, (2 <= length c)%nat ->
                   _extrapolate_int c k = Raise ValueError).
  { intros c Hc. unfold _extrapolate_int.
    change (-1) with (- Z.of_nat 1). rewrite py_index_back by lia.
    rewrite decide_True by lia.
    destruct (lookup_lt_is_Some_2 c (length c - 1)) as [l ->]; [lia|].
    simpl. change (-2) with (- Z.of_nat 2). rewrite py_index_back by lia.
    rewrite decide_True by lia.
    destruct (lookup_lt_is_Some_2 c (length c - 2)) as [p' ->]; [lia|].
    simpl. destruct (Z.ltb_spec k 0); [done|lia]. }
  destruct a as [x|x| |]; simpl in *; try done.
  - by rewrite Hint.
  - destruct H2 as [Hne Hall]. destruct (_ <? 0); [done|].
    destruct x as [|c x]; [done|].
    apply Forall_cons in Hall as [Hc _]. simpl. by rewrite Hint.
Qed.

Lemma extrapolated_zero (x : cube) : extrapolated x 0 = x.
Proof. unfold extrapolated. simpl. by rewrite app_nil_r. Qed.

Lemma extrapolated_array_zero (a : ndarray) : extrapolated_array a 0 = a.
Proof.
  destruct a as [x|x| |]; simpl; try done.
  - by rewrite extrapolated_zero.
  - f_equal. induction x as [|c x IH]; simpl; [done|].
    by rewrite extrapolated_zero, IH.
Qed.

(** Extrapolating by zero groups (lines 406-423) changes no value: the dark
    is given a new array with the content of the old one, and [exp_ngroups]
    stays as it was. *)
Theorem extrapolate_dark_zero (h : heap) dl d a :
  h !! dl = Some (Dark d) ->
  h !! d_data d = Some (Arr a) ->
  two_groups a ->
  exists h1 d1,
    extrapolate_dark dl 0 h = Ok (tt, h1)
    /\ h1 !! dl = Some (Dark d1)
    /\ h1 !! d_data d1 = Some (Arr a)
    /\ d_data d1 <> d_data d
    /\ d_exp_ngroups d1 = d_exp_ngroups d.
Proof.
  intros Hd Ha H2.
  rewrite (extrapolate_dark_run _ _ _ _ _ Hd Ha).
  rewrite extrapolate_array_ok, extrapolated_array_zero by (done || lia).
  simpl.
  destruct (extrapolated_heap_lookups h dl d a 0 _ Hd) as (H1 & H2' & _).
  eexists _, _. split; [done|]. split; [exact H1|]. simpl.
  split; [exact H2'|]. split.
  - apply lookup_lt_Some in Ha. lia.
  - lia.
Qed.

(** The number of groups by which [do_correction_data] extrapolates (lines
    111-114) is at most one more than needed: [k] groups cover the science
    exposure, with one group fewer the dark would end less than a group gap
    past the science exposure if it reached it at all, no number of groups
    below [k - 1] covers the science exposure, and when the dark has no
    group gap [k] itself is the least number that does. *)
Theorem extrapolation_is_tight
    (sci_total_frames drk_ngroups drk_nframes drk_groupgap k : Z) :
  1 <= drk_nframes -> 0 <= drk_groupgap ->
  let drk_total_frames := total_frames drk_ngroups drk_nframes drk_groupgap in
  sci_total_frames > drk_total_frames ->
  ceil_div (sci_total_frames - drk_total_frames + drk_groupgap)
           (drk_nframes + drk_groupgap) = Ok k ->
  1 <= k
  /\ total_frames (drk_ngroups + k) drk_nframes drk_groupgap
     >= sci_total_frames
  /\ total_frames (drk_ngroups + (k - 1)) drk_nframes drk_groupgap
     < sci_total_frames + drk_groupgap
  /\ (forall k',
        total_frames (drk_ngroups + k') drk_nframes drk_groupgap
          >= sci_total_frames -> k - 1 <= k')
  /\ (drk_groupgap = 0 ->
      forall k',
        total_frames (drk_ngroups + k') drk_nframes drk_groupgap
          >= sci_total_frames -> k <= k').
Proof.
  intros Hnf Hgap drk_total Hshort Hk.
  destruct (ceil_div_spec (sci_total_frames - drk_total + drk_groupgap)
              (drk_nframes + drk_groupgap)) as (k0 & Hk0 & Hceil); [lia|].
  rewrite Hk in Hk0. injection Hk0 as <-.
  split; [nia|]. rewrite !total_frames_extended. fold drk_total.
  split; [lia|]. split; [lia|]. split.
  - intros k' Hk'. rewrite total_frames_extended in Hk'. fold drk_total in Hk'.
    nia.
  - intros -> k' Hk'. rewrite total_frames_extended in Hk'.
    fold drk_total in Hk'. nia.
Qed.

(** A skipped correction still leaves its mark on the dark (lines 107-127):
    when the dark is coarser than the science exposure and also falls
    short, the caller's dark object has been extrapolated, its
    [exp_ngroups] raised and its data rebound, although the science data
    come back uncorrected. *)
Theorem skip_keeps_extrapolated_dark (h : heap) sl dl out s sdata q d a :
  h !! sl = Some (Sci s) ->
  h !! s_data s = Some (Arr (F4 sdata)) ->
  h !! s_pixeldq s = Some (Arr q) ->
  h !! dl = Some (Dark d) ->
  h !! d_data d = Some (Arr a) ->
  d_exp_nframes d > s_exp_nframes s \/ d_exp_groupgap d > s_exp_groupgap s ->
  1 <= d_exp_nframes d -> 0 <= d_exp_groupgap d ->
  two_groups a ->
  total_frames (shape1 sdata) (s_exp_nframes s) (s_exp_groupgap s)
    > total_frames (dark_ngroups a) (d_exp_nframes d) (d_exp_groupgap d) ->
  exists k out_data h' d1,
    do_correction_data dark_fill sl dl out h = Ok ((out_data, None), h')
    /\ 1 <= k
    /\ h' !! dl = Some (Dark d1)
    /\ d_exp_ngroups d1 = d_exp_ngroups d + k
    /\ h' !! d_data d1 = Some (Arr (extrapolated_array a k))
    /\ dark_ngroups (extrapolated_array a k) = dark_ngroups a + k.
Proof.
  intros Hs Hsd Hsq Hd Ha Hskip Hnf Hgap H2 Hshort.
  rewrite (do_correction_data_stages _ _ _ _ _ _ _ _ _ Hs Hsd Hd Ha)
    by (by apply two_groups_pixel_array).
  unfold extrapolation_step.
  destruct (Z.gtb_spec
              (total_frames (shape1 sdata) (s_exp_nframes s) (s_exp_groupgap s))
              (total_frames (dark_ngroups a) (d_exp_nframes d)
                 (d_exp_groupgap d))) as [_|Hle]; [|lia].
  destruct (ceil_div_spec
              (total_frames (shape1 sdata) (s_exp_nframes s) (s_exp_groupgap s)
               - total_frames (dark_ngroups a) (d_exp_nframes d)
                   (d_exp_groupgap d) + d_exp_groupgap d)
              (d_exp_nframes d + d_exp_groupgap d)) as (k & Hk & Hceil);
    [lia|].
  assert (Hk0 : 0 <= k) by nia.
  rewrite Hk. simpl. rewrite (extrapolate_array_ok a k Hk0 H2). simpl.
  destruct (extrapolated_heap_lookups h dl d (extrapolated_array a k) k _ Hd)
    as (Hl1 & Hl2 & Hframe).
  assert (Hne : forall l c, h !! l = Some (Arr c) -> l <> dl)
    by (intros l c Hl Heq; congruence).
  rewrite (finish_correction_skip dark_fill _ sl dl out s (F4 sdata) q).
  - exists k. eexists _, _, _. split; [done|]. split; [nia|].
    split.
    { apply lookup_app_l_Some.
      rewrite heap_lookup_insert_ne; [exact Hl1|]. intros Heq. congruence. }
    split; [done|]. split.
    { simpl. apply lookup_app_l_Some.
      rewrite heap_lookup_insert_ne; [exact Hl2|].
      intros Heq. apply lookup_lt_Some in Hs. lia. }
    by apply dark_ngroups_extrapolated.
  - apply Hframe; [intros Heq; congruence|done].
  - apply Hframe; [by eapply Hne|done].
  - apply Hframe; [by eapply Hne|done].
  - done.
Qed.

Lemma foldM_res_app {A St} (body : St -> A -> res St) (s : St)
    (l1 l2 : list A) :
  foldM_res body s (l1 ++ l2) =
    s' ← foldM_res body s l1; foldM_res body s' l2.
Proof.
  revert s. induction l1 as [|x l1 IH]; intros s; simpl; [done|].
  destruct (body s x) as [s1|e]; simpl; [apply IH|done].
Qed.

(** A loop whose iteration [m + j] raises after [j] good iterations. *)
Lemma foldM_res_range_fail {St} (body : St -> Z -> res St)
    (P : Z -> St -> Prop) (m : Z) (j n : nat) (s : St) (e : exn) :
  P m s ->
  (forall i st, m <= i < m + Z.of_nat j -> P i st ->
                exists st', body st i = Ok st' /\ P (i + 1) st') ->
  (forall st, P (m + Z.of_nat j) st -> body st (m + Z.of_nat j) = Raise e) ->
  (j < n)%nat ->
  foldM_res body s (seqZ m (Z.of_nat n)) = Raise e.
Proof.
  intros H0 Hstep Hfail Hjn.
  replace (Z.of_nat n) with (Z.of_nat j + Z.of_nat (n - j)) by lia.
  rewrite seqZ_app by lia. rewrite foldM_res_app.
  destruct (foldM_res_range body P m j s H0 Hstep) as (s1 & -> & H1).
  simpl. apply foldM_res_raise_first; [lia|]. by apply Hfail.
Qed.

(** The group loop, for any way the groups come out right. *)
Lemma average_groups_gen (src data : cube) (n : nat) (nframes groupgap : Z)
    (v : nat -> plane) :
  length data = n ->
  (forall g : nat, (g < n)%nat ->
     (if decide (nframes = 1)
      then py_index src (Z.of_nat g * (nframes + groupgap))
      else Ok (mean_axis0 (shape1 src) (shape2 src)
                 (py_slice src (Z.of_nat g * (nframes + groupgap))
                    (Z.of_nat g * (nframes + groupgap) + nframes))))
     = Ok (v g)) ->
  average_groups src (Z.of_nat n) nframes groupgap data = Ok (v <$> seq 0 n).
Proof.
  intros Hlen Hv. unfold average_groups.
  destruct (foldM_res_range
    (fun (st : Z * cube) (group : Z) =>
       g ← (if decide (nframes = 1) then py_index src st.1
            else Ok (mean_axis0 (shape1 src) (shape2 src)
                                (py_slice src st.1 (st.1 + nframes))));
       data' ← py_setitem st.2 group g;
       Ok (st.1 + nframes + groupgap, data'))
    (fun k st =>
       st.1 = k * (nframes + groupgap) /\ length st.2 = n /\
       forall j : nat,
         st.2 !! j = if decide (Z.of_nat j < k) then Some (v j)
                     else data !! j)
    0 n (0, data)) as (st & Hf & _ & Hl & Hst).
  - clear Hv. simpl. split; [lia|]. split; [done|].
    intros j. case_decide; [lia|done].
  - intros i [start st] Hi (Hstart & Hl & Hst). simpl in *. subst start.
    specialize (Hv (Z.to_nat i) ltac:(lia)).
    rewrite Z2Nat.id in Hv by lia. rewrite Hv. simpl. clear Hv.
    rewrite py_setitem_Z by lia. simpl.
    eexists. split; [done|]. simpl. split; [lia|].
    split; [by rewrite length_insert|].
    intros j. destruct (decide (j = Z.to_nat i)) as [->|Hne].
    + rewrite list_lookup_insert_eq by lia. case_decide; [done|lia].
    + rewrite list_lookup_insert_ne by done. rewrite Hst.
      repeat case_decide; try done; lia.
  - clear Hv. rewrite Hf. clear Hf. simpl. f_equal.
    apply list_eq. intros j. rewrite Hst, list_lookup_fmap.
    destruct (decide (j < n)%nat) as [Hj|Hj].
    + rewrite lookup_seq_lt by done. case_decide; [done|lia].
    + rewrite lookup_seq_ge by lia. case_decide; [lia|].
      apply lookup_ge_None_2. lia.
Qed.

Lemma py_slice_cut {A} (l : list A) (lo hi : Z) :
  0 <= lo -> lo <= hi ->
  py_slice l lo hi
  = take (Z.to_nat (Z.min hi (len l)) - Z.to_nat lo)
         (drop (Z.to_nat lo) l).
Proof.
  intros Hlo Hhi. unfold py_slice, py_clamp.
  destruct (Z.ltb_spec lo 0); [lia|].
  destruct (Z.ltb_spec hi 0); [lia|].
  destruct (Z.le_gt_cases lo (len l)) as [Hle|Hgt].
  - by rewrite (Z.min_l lo) by lia.
  - rewrite !drop_ge by (unfold len in *; lia). by rewrite !take_nil.
Qed.

(** The spatial extents read off a non-empty cube. *)
Lemma cube_extents r c (src : cube) :
  src <> [] -> Forall (plane_shape r c) src ->
  Z.to_nat (shape1 src) = r
  /\ ((0 < r)%nat -> Z.to_nat (shape2 src) = c).
Proof.
  intros Hne Hall. destruct src as [|f src]; [done|].
  apply Forall_cons in Hall as [[Hr Hc] _].
  unfold shape2, shape1, len. simpl. split; [lia|].
  intros Hpos. destruct f as [|row f]; simpl in *; [lia|].
  apply Forall_cons in Hc as [Hrow _]. lia.
Qed.

Lemma pixel_replicate (n m : nat) (v : F) (y x : nat) :
  (y < n)%nat -> (x < m)%nat ->
  pixel (replicate n (replicate m v)) y x = Some v.
Proof.
  intros Hy Hx. unfold pixel. rewrite lookup_replicate_2 by done. simpl.
  by rewrite lookup_replicate_2.
Qed.

(** With more than one frame per group the 3-D averager never fails for
    want of source frames (line 223): the slice of the source stops at the
    end of the array.  A pixel of a group whose slice starts inside the
    source is the sum of the values of that pixel in the frames from
    [start] up to [min(start + nframes, len src)], divided by the number of
    those frames, not by [nframes]; every pixel of a group whose slice
    starts at or beyond the end of the source is NaN. *)
Theorem average_dark_frames_3d_short_source (h : heap) dl d (src : cube)
    (ngroups nframes groupgap : Z) (r c : nat) :
  h !! dl = Some (Dark d) ->
  h !! d_data d = Some (Arr (F3 src)) ->
  src <> [] ->
  Forall (plane_shape r c) src ->
  0 <= ngroups -> 2 <= nframes -> 0 <= groupgap ->
  exists avg h' davg data,
    average_dark_frames_3d dark_fill dl ngroups nframes groupgap h
      = Ok (avg, h')
    /\ h' !! avg = Some (Dark davg)
    /\ h' !! d_data davg = Some (Arr (F3 data))
    /\ len data = ngroups
    /\ forall g : Z,
         0 <= g < ngroups ->
         let start := g * (nframes + groupgap) in
         let stop := Z.min (start + nframes) (len src) in
         exists p,
           data !! Z.to_nat g = Some p
           /\ plane_shape r c p
           /\ forall y x : nat, (y < r)%nat -> (x < c)%nat ->
                (start < len src ->
                 exists vs,
                   len vs = stop - start
                   /\ (forall k : nat,
                         start + Z.of_nat k < stop ->
                         exists fr v,
                           src !! Z.to_nat (start + Z.of_nat k) = Some fr
                           /\ pixel fr y x = Some v
                           /\ vs !! k = Some v)
                   /\ pixel p y x
                      = Some (fdiv (sum_values vs) (of_int (stop - start))))
                /\ (len src <= start -> pixel p y x = Some fnan).
Proof.
  intros Hd Ha Hne Hshape Hng Hnf Hgap.
  remember (Z.to_nat ngroups) as n eqn:Hn.
  assert (ngroups = Z.of_nat n) as -> by lia. clear Hn Hng.
  rewrite (average_dark_frames_3d_run _ _ _ _ _ _ _ _ Hd Ha).
  rewrite full_cube_ok by (unfold shape1, shape2, shape1; apply len_nonneg).
  simpl.
  rewrite (average_groups_gen src _ n nframes groupgap
             (fun g => mean_axis0 (shape1 src) (shape2 src)
                         (py_slice src (Z.of_nat g * (nframes + groupgap))
                            (Z.of_nat g * (nframes + groupgap) + nframes)))).
  2:{ by rewrite length_replicate. }
  2:{ intros g _. rewrite decide_False by lia. done. }
  simpl. eexists _, _, _, _. split; [done|].
  split; [unfold averaged_heap; by rewrite (lookup_new h _ 1)|].
  simpl. split.
  { unfold averaged_heap.
    rewrite <- (Nat.add_0_r (length h)) at 1. by rewrite (lookup_new h _ 0). }
  split; [unfold len; by rewrite length_fmap, length_seq|].
  intros g Hg. set (start := g * (nframes + groupgap)).
  set (stop := Z.min (start + nframes) (len src)). cbv zeta.
  assert (Hstart : 0 <= start) by (subst start; nia).
  destruct (cube_extents r c src Hne Hshape) as [Hrows Hcols].
  exists (mean_axis0 (shape1 src) (shape2 src)
            (py_slice src start (start + nframes))).
  split.
  { rewrite list_lookup_fmap, lookup_seq_lt by lia. simpl.
    rewrite Z2Nat.id by lia. done. }
  rewrite py_slice_cut by lia. fold stop.
  destruct (Z.lt_ge_cases start (len src)) as [Hin|Hout].
  - (* the slice starts inside the source *)
    assert (Hm : (0 < Z.to_nat stop - Z.to_nat start)%nat)
      by (subst stop; lia).
    assert (Hle : (Z.to_nat start + (Z.to_nat stop - Z.to_nat start)
                   <= length src)%nat)
      by (subst stop; unfold len in *; lia).
    split.
    { apply mean_axis0_shape.
      - intros Hnil. apply (f_equal length) in Hnil.
        rewrite length_take, length_drop in Hnil. simpl in Hnil. lia.
      - apply Forall_take. by apply Forall_drop. }
    intros y x Hy Hx. split; [|lia]. intros _.
    destruct (mean_of_frames_pixel r c src (Z.to_nat start)
                (Z.to_nat stop - Z.to_nat start) (shape1 src) (shape2 src)
                y x Hshape Hm Hle Hy Hx) as (vs & Hlen & Hvs & Hpix).
    exists vs. split; [unfold len; subst stop; lia|]. split.
    + intros k Hk. destruct (Hvs k) as (fr & v & Hfrk & Hp & Hv); [lia|].
      exists fr, v.
      replace (Z.to_nat (start + Z.of_nat k)) with (Z.to_nat start + k)%nat
        by lia.
      done.
    + rewrite Hpix. do 3 f_equal. subst stop. lia.
  - (* the slice starts at or beyond the end *)
    rewrite drop_ge by (unfold len in Hout; lia). rewrite take_nil.
    unfold mean_axis0. split.
    { rewrite Hrows. split; [by rewrite length_replicate|].
      destruct r as [|r']; [by constructor|].
      apply Forall_replicate. rewrite length_replicate. apply Hcols. lia. }
    intros y x Hy Hx. split; [lia|]. intros _.
    rewrite Hrows, Hcols by lia. by apply pixel_replicate.
Qed.

(** With one frame per group the frame is fetched by index (line 218), and
    a source that does not reach the frame of the last group makes the 3-D
    averager raise IndexError. *)
Theorem average_dark_frames_3d_copy_out_of_range (h : heap) dl d (src : cube)
    (ngroups groupgap : Z) :
  h !! dl = Some (Dark d) ->
  h !! d_data d = Some (Arr (F3 src)) ->
  1 <= ngroups -> 0 <= groupgap ->
  len src <= (ngroups - 1) * (1 + groupgap) ->
  average_dark_frames_3d dark_fill dl ngroups 1 groupgap h = Raise IndexError.
Proof.
  intros Hd Ha Hng Hgap Hshort.
  remember (Z.to_nat ngroups) as n eqn:Hn.
  assert (ngroups = Z.of_nat n) as -> by lia. clear Hn.
  rewrite (average_dark_frames_3d_run _ _ _ _ _ _ _ _ Hd Ha).
  rewrite full_cube_ok by (unfold shape1, shape2, shape1; apply len_nonneg).
  simpl. unfold average_groups.
  pose proof (len_nonneg src) as Hlen0.
  set (q := (len src + groupgap) / (1 + groupgap)).
  pose proof (Z.div_mod (len src + groupgap) (1 + groupgap) ltac:(lia)) as Hdm.
  pose proof (Z.mod_pos_bound (len src + groupgap) (1 + groupgap) ltac:(lia))
    as Hmod.
  fold q in Hdm.
  assert (Hq0 : 0 <= q) by (apply Z.div_pos; lia).
  assert (Hqn : (Z.to_nat q < n)%nat) by nia.
  rewrite (foldM_res_range_fail _
    (fun k st =>
       st.1 = k * (1 + groupgap) /\ length st.2 = n)
    0 (Z.to_nat q) n _ IndexError); [done| | | |done].
  - simpl. split; [lia|by rewrite length_replicate].
  - intros i [start st] Hi (Hstart & Hl). simpl in *. subst start.
    destruct (lookup_lt_is_Some_2 src (Z.to_nat (i * (1 + groupgap))))
      as [x Hx].
    { unfold len in *. nia. }
    rewrite (py_index_Z src _ x) by (nia || done). simpl.
    rewrite py_setitem_Z by lia. simpl.
    eexists. split; [done|]. simpl. split; [lia|by rewrite length_insert].
  - intros [start st] (Hstart & Hl). simpl in *. subst start.
    rewrite py_index_oob; [done|]. nia.
Qed.

(** A dark whose cubes have fewer than [gr] groups, each a plane of [r] by
    [c] pixels. *)
Definition dark_lacks_groups (gr r c : nat) (a : ndarray) : Prop :=
  match a with
  | F3 x => (length x < gr)%nat /\ Forall (plane_shape r c) x
  | F4 xs =>
      xs <> []
      /\ Forall (fun x => (length x < gr)%nat /\ Forall (plane_shape r c) x) xs
  | _ => False
  end.

#[global] Instance dark_lacks_groups_dec gr r c a :
  Decision (dark_lacks_groups gr r c a).
Proof. destruct a; simpl; apply _. Defined.

Lemma selected_dark_lacks gr r c a int_start (i : nat) :
  dark_lacks_groups gr r c a ->
  exists x, selected_dark a int_start i = Some x
            /\ (length x < gr)%nat /\ Forall (plane_shape r c) x.
Proof.
  destruct a as [data|data| |]; simpl; try done.
  - intros [H1 H2]. eauto.
  - intros [Hne Hall]. case_decide as Hc.
    + destruct Hc as [Hi _].
      destruct (lookup_lt_is_Some_2 data i Hi) as [x Hx].
      exists x. split; [done|]. exact (Forall_lookup_1 _ _ _ _ Hall Hx).
    + destruct (last data) as [x|] eqn:Hl.
      * exists x. split; [done|]. rewrite last_lookup in Hl.
        exact (Forall_lookup_1 _ _ _ _ Hall Hl).
      * apply last_None in Hl. done.
Qed.

Lemma subtract_groups_short (gr r c : nat) (dark_sci integ : cube) :
  cube_shape gr r c integ ->
  (length dark_sci < gr)%nat -> Forall (plane_shape r c) dark_sci ->
  subtract_groups dark_sci (Z.of_nat gr) integ = Raise IndexError.
Proof.
  intros [Hg Hpl] Hd Hdpl. unfold subtract_groups.
  apply (foldM_res_range_fail _
    (fun k st => length st = gr /\
       forall j : nat, k <= Z.of_nat j -> st !! j = integ !! j)
    0 (length dark_sci) gr); [done| | |done].
  - intros i st Hi [Hl Hst].
    destruct (lookup_lt_is_Some_2 integ (Z.to_nat i)) as [o Ho]; [lia|].
    destruct (lookup_lt_is_Some_2 dark_sci (Z.to_nat i)) as [dp Hdp]; [lia|].
    rewrite (py_index_Z st i o) by (lia || (rewrite Hst by lia; done)).
    simpl. rewrite (py_index_Z dark_sci i dp) by (lia || done). simpl.
    rewrite (isub_plane_same r c);
      [| exact (Forall_lookup_1 _ _ _ _ Hpl Ho)
       | exact (Forall_lookup_1 _ _ _ _ Hdpl Hdp)].
    simpl. rewrite py_setitem_Z by lia.
    eexists. split; [done|]. split; [by rewrite length_insert|].
    intros j Hj. rewrite list_lookup_insert_ne by lia. apply Hst. lia.
  - intros st [Hl Hst]. rewrite Z.add_0_l.
    destruct (lookup_lt_is_Some_2 integ (length dark_sci)) as [o Ho]; [lia|].
    rewrite (py_index_nat st _ o) by (rewrite Hst by lia; done).
    simpl. rewrite py_index_oob by (unfold len; lia). done.
Qed.

(** The dark is indexed by the science group number (line 386): when the
    dark applied to the first science integration has fewer groups than
    the science data, [subtract_dark] raises IndexError. *)
Theorem subtract_dark_too_few_dark_groups (h : heap) sl dl s d sdata spdq a g
    (n gr r c : nat) :
  h !! sl = Some (Sci s) ->
  h !! s_data s = Some (Arr (F4 sdata)) ->
  h !! s_pixeldq s = Some (Arr (Q2 spdq)) ->
  h !! dl = Some (Dark d) ->
  h !! d_data d = Some (Arr a) ->
  h !! d_groupdq d = Some (Arr g) ->
  hyper_shape n gr r c sdata ->
  (1 <= n)%nat ->
  plane_shape r c spdq ->
  dark_lacks_groups gr r c a ->
  dq_ready r c a g ->
  subtract_dark sl dl h = Raise IndexError.
Proof.
  intros Hs Hsd Hsq Hd Ha Hg Hshape Hn Hpdq Hlack Hdq.
  rewrite (subtract_dark_run _ _ _ _ _ _ _ _ _ Hs Hsd Hsq Hd Ha Hg).
  destruct (dark_dq_ok r c a g) as [Hdark Hdsh]; [right| done | |].
  { destruct a; done. }
  { destruct a; simpl in *; try done. by destruct Hlack. }
  rewrite Hdark. simpl.
  rewrite (bitwise_or_same r c) by done. simpl.
  destruct sdata as [|c0 sdata'] eqn:Hsdata.
  { destruct Hshape as [Hlen _]. simpl in Hlen. lia. }
  rewrite (hyper_shape_dims n gr r c) by done.
  destruct Hshape as [Hlen Hall].
  apply Forall_cons in Hall as [Hc0 _].
  assert (Hsub : subtract_ints a (default 1 (s_exp_intstart s)) (dark_nints a)
                   (len (c0 :: sdata')) (Z.of_nat gr) (c0 :: sdata')
                 = Raise IndexError).
  { unfold subtract_ints.
    apply foldM_res_raise_first; [unfold len; simpl; lia|].
    destruct (selected_dark_lacks gr r c a (default 1 (s_exp_intstart s)) 0
                Hlack) as (dsel & Hsel & Hdl & Hdpl).
    pose proof (selected_dark_run a (default 1 (s_exp_intstart s)) 0 dsel
                  Hsel) as Hrun.
    assert (Hrun' :
      match a with
      | F4 data =>
          if (0 <? dark_nints a) && (default 1 (s_exp_intstart s) =? 1)
          then py_index data 0 else py_index data (-1)
      | F3 data => Ok data
      | _ => Raise Stuck
      end = Ok dsel).
    { destruct a; done. }
    rewrite Hrun'. simpl.
    rewrite (subtract_groups_short gr r c) by done. done. }
  rewrite Hsub. done.
Qed.

(** Pixel [(y, x)] of a flag plane. *)
Definition pixelZ (p : list (list Z)) (y x : nat) : option Z :=
  row ← p !! y; row !! x.

(** Bit [b] is set at pixel [(y, x)] of the dark's flags: in [groupdq] for
    a 3-D dark, in group 0 of some integration for a 4-D dark. *)
Definition dark_flag (g : ndarray) (y x : nat) (b : Z) : bool :=
  match g with
  | Q2 p => Z.testbit (default 0 (pixelZ p y x)) b
  | Q4 q => existsb (fun p => Z.testbit (default 0 (pixelZ p y x)) b)
                    (first_planes q)
  | _ => false
  end.

Lemma pixelZ_shape r c p (y x : nat) :
  plane_shape r c p -> (y < r)%nat -> (x < c)%nat ->
  exists v, pixelZ p y x = Some v.
Proof.
  intros [Hr Hc] Hy Hx. unfold pixelZ.
  destruct (lookup_lt_is_Some_2 p y) as [row Hrow]; [lia|].
  rewrite Hrow. simpl.
  pose proof (Forall_lookup_1 _ _ _ _ Hc Hrow) as Hlen. simpl in Hlen.
  destruct (lookup_lt_is_Some_2 row x) as [v Hv]; [lia|]. eauto.
Qed.

Lemma pixelZ_por a b y x v w :
  pixelZ a y x = Some v -> pixelZ b y x = Some w ->
  pixelZ (por a b) y x = Some (Z.lor v w).
Proof.
  unfold pixelZ, por. intros Ha Hb.
  destruct (a !! y) as [ra|] eqn:Hra; simpl in Ha; [|done].
  destruct (b !! y) as [rb|] eqn:Hrb; simpl in Hb; [|done].
  rewrite lookup_zip_with, Hra, Hrb. simpl.
  rewrite lookup_zip_with, Ha, Hb. done.
Qed.

Lemma or_reduce_flag r c (ps : list (list (list Z))) (y x : nat) (b : Z) :
  ps <> [] -> Forall (plane_shape r c) ps -> (y < r)%nat -> (x < c)%nat ->
  exists w, pixelZ (or_reduce ps) y x = Some w
            /\ Z.testbit w b
               = existsb (fun p => Z.testbit (default 0 (pixelZ p y x)) b) ps.
Proof.
  destruct ps as [|p0 ps]; [done|]. intros _ Hall Hy Hx.
  apply Forall_cons in Hall as [H0 Hps]. simpl.
  destruct (pixelZ_shape r c p0 y x H0 Hy Hx) as [v0 Hv0].
  rewrite Hv0. simpl.
  assert (Hgen : forall p v, plane_shape r c p -> pixelZ p y x = Some v ->
            exists w, pixelZ (fold_left por ps p) y x = Some w
              /\ Z.testbit w b
                 = Z.testbit v b
                   || existsb (fun p => Z.testbit (default 0 (pixelZ p y x)) b)
                        ps).
  { induction Hps as [|p1 ps Hp1 _ IH]; intros p v Hp Hv; simpl.
    - exists v. split; [done|]. by rewrite orb_false_r.
    - destruct (pixelZ_shape r c p1 y x Hp1 Hy Hx) as [v1 Hv1].
      destruct (IH (por p p1) (Z.lor v v1)) as (w & Hw & Hbit).
      + by apply por_shape.
      + by apply pixelZ_por.
      + exists w. split; [done|].
        rewrite Hbit, Z.lor_spec, Hv1. simpl. by rewrite orb_assoc. }
  by apply Hgen.
Qed.

(** Flags are only ever added (lines 353-364): when [subtract_dark]
    returns, bit [b] of the output [pixeldq] at a pixel is set exactly when
    it is set in the science [pixeldq] or in the dark's flags at that
    pixel, in group 0 of any integration for a 4-D dark. *)
Theorem subtract_dark_flags_union (h : heap) sl dl s d sdata spdq a g
    (n gr r c : nat) :
  h !! sl = Some (Sci s) ->
  h !! s_data s = Some (Arr (F4 sdata)) ->
  h !! s_pixeldq s = Some (Arr (Q2 spdq)) ->
  h !! dl = Some (Dark d) ->
  h !! d_data d = Some (Arr a) ->
  h !! d_groupdq d = Some (Arr g) ->
  hyper_shape n gr r c sdata ->
  plane_shape r c spdq ->
  dark_covers gr r c a ->
  dq_ready r c a g ->
  exists out h' o newdq,
    subtract_dark sl dl h = Ok (out, h')
    /\ h' !! out = Some (Sci o)
    /\ h' !! s_pixeldq o = Some (Arr (Q2 newdq))
    /\ plane_shape r c newdq
    /\ forall y x : nat, (y < r)%nat -> (x < c)%nat ->
         exists v w,
           pixelZ spdq y x = Some v
           /\ pixelZ newdq y x = Some w
           /\ forall b : Z,
                Z.testbit w b = Z.testbit v b || dark_flag g y x b.
Proof.
  intros Hs Hsd Hsq Hd Ha Hg Hshape Hpdq Hcov Hdq.
  rewrite (subtract_dark_ok h sl dl s d sdata spdq a g n gr r c) by done.
  destruct (subtracted_heap_lookups h s
              (subtracted_data a (default 1 (s_exp_intstart s)) sdata) spdq
              (por spdq (dark_plane g))) as (Ho & _ & Hq & _).
  destruct (dark_dq_ok r c a g) as [_ Hdsh]; [right| done | |].
  { destruct a; done. }
  { destruct a; simpl in *; try done. by destruct Hcov. }
  eexists _, _, _, _. split; [done|]. split; [exact Ho|].
  split; [exact Hq|]. split; [by apply por_shape|].
  intros y x Hy Hx.
  destruct (pixelZ_shape r c spdq y x Hpdq Hy Hx) as [v Hv].
  assert (Hdark : exists u, pixelZ (dark_plane g) y x = Some u
                    /\ forall b, Z.testbit u b = dark_flag g y x b).
  { destruct a as [xa|xa| |], g as [p|q|p|q]; simpl in *; try done.
    - destruct (pixelZ_shape r c p y x Hdq Hy Hx) as [u Hu].
      exists u. split; [done|]. intros b. by rewrite Hu.
    - destruct Hdq as [Hlen Hq4]. destruct Hcov as [Hne _].
      assert (Hfp : first_planes q <> []).
      { unfold first_planes. destruct q; [by destruct xa|done]. }
      pose proof (first_planes_shape r c q Hq4) as Hsh.
      assert (Hall : forall b, exists w,
                pixelZ (or_reduce (first_planes q)) y x = Some w
                /\ Z.testbit w b
                   = existsb (fun p => Z.testbit (default 0 (pixelZ p y x)) b)
                       (first_planes q))
        by (intros b; by apply (or_reduce_flag r c)).
      destruct (Hall 0) as (w & Hw & _). exists w. split; [done|].
      intros b. destruct (Hall b) as (w' & Hw' & Hbit).
      rewrite Hw in Hw'. injection Hw' as <-. done. }
  destruct Hdark as (u & Hu & Hbits).
  exists v, (Z.lor v u). split; [done|]. split; [by apply pixelZ_por|].
  intros b. by rewrite Z.lor_spec, Hbits.
Qed.

(** The pixel array with its NaN replaced by zero. *)
Definition sanitized (a : ndarray) : ndarray :=
  match a with
  | F3 x => F3 (map (map (map nan_to_zero)) x)
  | F4 x => F4 (map (map (map (map nan_to_zero))) x)
  | _ => a
  end.

Lemma nans_to_zero_sanitized (a : ndarray) :
  pixel_array a -> nans_to_zero a = Ok (sanitized a).
Proof. destruct a; simpl; done. Qed.

Lemma covers_sanitized gr r c (x : cube) :
  covers gr r c x -> covers gr r c (map (map (map nan_to_zero)) x).
Proof.
  intros [Hlen Hall]. split; [by rewrite length_map|].
  apply Forall_map. eapply Forall_impl; [done|].
  intros p Hp. simpl. by apply map_map_shape.
Qed.

Lemma dark_covers_sanitized gr r c a :
  dark_covers gr r c a -> dark_covers gr r c (sanitized a).
Proof.
  destruct a as [x|x| |]; simpl; try done.
  - apply covers_sanitized.
  - intros [Hne Hall]. split; [by destruct x|].
    apply Forall_map. eapply Forall_impl; [done|].
    intros cb Hcb. simpl. by apply covers_sanitized.
Qed.

Lemma dq_ready_sanitized r c a g :
  dq_ready r c a g -> dq_ready r c (sanitized a) g.
Proof.
  destruct a as [x|x| |], g as [p|q|p|q]; simpl; try done.
  intros [Hlen Hq]. split; [by rewrite length_map|done].
Qed.

(** The cadence-match shortcut (lines 135-145 and 169-171).  When the dark
    has the cadence of the science exposure and does not fall short, no
    averaged dark is built: the science data are returned with the
    sanitised dark subtracted group for group and [cal_step] "COMPLETE".
    The caller's science object and data are untouched, while the caller's
    dark array has had its NaN replaced in place; the second result is
    absent unless an output name was given, in which case it is the
    caller's own dark object, marked for saving under that name. *)
Theorem matching_cadence_direct (h : heap) sl dl out s d sdata spdq a g
    (n gr r c : nat) :
  h !! sl = Some (Sci s) ->
  h !! s_data s = Some (Arr (F4 sdata)) ->
  h !! s_pixeldq s = Some (Arr (Q2 spdq)) ->
  h !! dl = Some (Dark d) ->
  h !! d_data d = Some (Arr a) ->
  h !! d_groupdq d = Some (Arr g) ->
  s_data s <> d_data d ->
  hyper_shape n gr r c sdata ->
  plane_shape r c spdq ->
  dark_covers gr r c a ->
  dq_ready r c a g ->
  s_exp_nframes s = d_exp_nframes d ->
  s_exp_groupgap s = d_exp_groupgap d ->
  total_frames (shape1 sdata) (s_exp_nframes s) (s_exp_groupgap s)
    <= total_frames (dark_ngroups a) (d_exp_nframes d) (d_exp_groupgap d) ->
  exists out_data h' o,
    do_correction_data dark_fill sl dl out h
      = Ok ((out_data, match out with Some _ => Some dl | None => None end), h')
    /\ h' !! out_data = Some (Sci o)
    /\ s_cal_step o = "COMPLETE"
    /\ h' !! s_data o
       = Some (Arr (F4 (subtracted_data (sanitized a)
                          (default 1 (s_exp_intstart s)) sdata)))
    /\ h' !! s_pixeldq o = Some (Arr (Q2 (por spdq (dark_plane g))))
    /\ h' !! sl = Some (Sci s)
    /\ h' !! s_data s = Some (Arr (F4 sdata))
    /\ h' !! d_data d = Some (Arr (sanitized a))
    /\ h' !! dl = Some (Dark (match out with
                              | Some name => with_save d name
                              | None => d
                              end))
    /\ length h' = (length h + 4)%nat.
Proof.
  intros Hs Hsd Hsq Hd Ha Hg Hdist Hshape Hpdq Hcov Hdq Hnf Hgap Htot.
  assert (Hpix : pixel_array a) by (destruct a; done).
  assert (Hgq : ~ pixel_array g).
  { destruct a, g; simpl in Hdq; simpl; tauto. }
  pose (h2 := <[d_data d := Arr (sanitized a)]> h).
  assert (Hfin : do_correction_data dark_fill sl dl out h =
                 apply_dark dark_fill sl dl out (len sdata) (shape1 sdata)
                   (s_exp_nframes s) (s_exp_groupgap s)
                   (d_exp_nframes d) (d_exp_groupgap d) h2).
  { rewrite (do_correction_data_stages _ _ _ _ _ _ _ _ _ Hs Hsd Hd Ha Hpix).
    unfold extrapolation_step.
    destruct (Z.gtb_spec
                (total_frames (shape1 sdata) (s_exp_nframes s)
                   (s_exp_groupgap s))
                (total_frames (dark_ngroups a) (d_exp_nframes d)
                   (d_exp_groupgap d))) as [Hgt|_]; [lia|].
    unfold finish_correction.
    assert (Hc : (d_exp_nframes d >? s_exp_nframes s)
                 || (d_exp_groupgap d >? s_exp_groupgap s) = false).
    { destruct (Z.gtb_spec (d_exp_nframes d) (s_exp_nframes s)); [lia|].
      destruct (Z.gtb_spec (d_exp_groupgap d) (s_exp_groupgap s)); [lia|].
      done. }
    rewrite Hc, run_bind, (replace_nans_run _ _ _ _ Hd Ha).
    rewrite (nans_to_zero_sanitized a Hpix). done. }
  pose proof (lookup_lt_Some _ _ _ Ha) as Hlt.
  assert (Hlen2 : length h2 = length h) by apply heap_length_insert.
  assert (Hs2 : h2 !! sl = Some (Sci s)).
  { unfold h2. rewrite heap_lookup_insert_ne; [done|]. intros Heq. congruence. }
  assert (Hsd2 : h2 !! s_data s = Some (Arr (F4 sdata))).
  { unfold h2. rewrite heap_lookup_insert_ne; [done|]. congruence. }
  assert (Hsq2 : h2 !! s_pixeldq s = Some (Arr (Q2 spdq))).
  { unfold h2. rewrite heap_lookup_insert_ne; [done|].
    intros Heq. rewrite <- Heq, Ha in Hsq. destruct a; done. }
  assert (Hd2 : h2 !! dl = Some (Dark d)).
  { unfold h2. rewrite heap_lookup_insert_ne; [done|]. intros Heq. congruence. }
  assert (Ha2 : h2 !! d_data d = Some (Arr (sanitized a))).
  { unfold h2. by apply heap_lookup_insert_eq. }
  assert (Hg2 : h2 !! d_groupdq d = Some (Arr g)).
  { unfold h2. rewrite heap_lookup_insert_ne; [done|].
    intros Heq. rewrite <- Heq, Ha in Hg. injection Hg as <-. done. }
  pose (odata := subtracted_data (sanitized a) (default 1 (s_exp_intstart s))
                   sdata).
  pose (newdq := por spdq (dark_plane g)).
  pose (h3 := subtracted_heap h2 s odata spdq newdq).
  assert (Hsub : subtract_dark sl dl h2 = Ok ((length h2 + 2)%nat, h3)).
  { apply (subtract_dark_ok h2 sl dl s d sdata spdq (sanitized a) g n gr r c);
      try done;
      [by apply dark_covers_sanitized|by apply dq_ready_sanitized]. }
  destruct (subtracted_heap_lookups h2 s odata spdq newdq)
    as (Ho3 & Hod3 & Hq3 & Hframe3).
  fold h3 in Ho3, Hod3, Hq3, Hframe3.
  assert (Hlen3 : length h3 = (length h2 + 4)%nat).
  { unfold h3, subtracted_heap. rewrite length_app. done. }
  pose proof (lookup_lt_Some _ _ _ Hs2) as Hl1.
  pose proof (lookup_lt_Some _ _ _ Hsd2) as Hl2.
  pose proof (lookup_lt_Some _ _ _ Hd2) as Hl3.
  assert (Hmatch : (s_exp_nframes s =? d_exp_nframes d)
                   && (s_exp_groupgap s =? d_exp_groupgap d) = true).
  { rewrite Hnf, Hgap, !Z.eqb_refl. done. }
  destruct out as [name|].
  - pose (h4 := <[dl := Dark (with_save d name)]> h3).
    assert (Ho4 : h4 !! (length h2 + 2)%nat = h3 !! (length h2 + 2)%nat).
    { unfold h4. apply heap_lookup_insert_ne. lia. }
    assert (Happ : apply_dark dark_fill sl dl (Some name) (len sdata)
                     (shape1 sdata) (s_exp_nframes s) (s_exp_groupgap s)
                     (d_exp_nframes d) (d_exp_groupgap d) h2
                   = Ok (((length h2 + 2)%nat, Some dl),
                         <[(length h2 + 2)%nat :=
                             Sci (with_cal_step
                                    (mkScienceData (length h2)
                                       (length h2 + 3)%nat
                                       (s_exp_nframes s) (s_exp_groupgap s)
                                       (s_exp_intstart s) (s_cal_step s))
                                    "COMPLETE")]> h4)).
    { unfold apply_dark. rewrite Hmatch.
      rewrite run_bind, Hsub. rewrite run_bind, run_bind.
      rewrite (set_save_run h3 dl d name) by (by apply Hframe3).
      rewrite run_ret. fold h4. rewrite run_bind.
      rewrite (set_cal_step_run h4 (length h2 + 2)%nat _ "COMPLETE")
        by (etrans; [exact Ho4|exact Ho3]).
      by rewrite run_ret. }
    eexists _, _, _. split; [rewrite Hfin; exact Happ|].
    split.
    { apply heap_lookup_insert_eq. unfold h4.
      rewrite heap_length_insert. lia. }
    split; [done|]. simpl.
    split.
    { rewrite heap_lookup_insert_ne by lia. unfold h4.
      rewrite heap_lookup_insert_ne by lia. exact Hod3. }
    split.
    { rewrite heap_lookup_insert_ne by lia. unfold h4.
      rewrite heap_lookup_insert_ne by lia. exact Hq3. }
    split.
    { rewrite heap_lookup_insert_ne by lia. unfold h4.
      rewrite heap_lookup_insert_ne by (intros Heq; congruence).
      by apply Hframe3. }
    split.
    { rewrite heap_lookup_insert_ne by lia. unfold h4.
      rewrite heap_lookup_insert_ne by (intros Heq; congruence).
      by apply Hframe3. }
    split.
    { rewrite heap_lookup_insert_ne by lia. unfold h4.
      rewrite heap_lookup_insert_ne by (intros Heq; congruence).
      by apply Hframe3. }
    split.
    { rewrite heap_lookup_insert_ne by lia. unfold h4.
      apply heap_lookup_insert_eq. lia. }
    unfold h4. rewrite !heap_length_insert. lia.
  - assert (Happ : apply_dark dark_fill sl dl None (len sdata)
                     (shape1 sdata) (s_exp_nframes s) (s_exp_groupgap s)
                     (d_exp_nframes d) (d_exp_groupgap d) h2
                   = Ok (((length h2 + 2)%nat, None),
                         <[(length h2 + 2)%nat :=
                             Sci (with_cal_step
                                    (mkScienceData (length h2)
                                       (length h2 + 3)%nat
                                       (s_exp_nframes s) (s_exp_groupgap s)
                                       (s_exp_intstart s) (s_cal_step s))
                                    "COMPLETE")]> h3)).
    { unfold apply_dark. rewrite Hmatch.
      rewrite run_bind, Hsub. rewrite run_bind, run_ret. rewrite run_bind.
      rewrite (set_cal_step_run h3 _ _ "COMPLETE") by exact Ho3.
      by rewrite run_ret. }
    eexists _, _, _. split; [rewrite Hfin; exact Happ|].
    split; [apply heap_lookup_insert_eq; lia|].
    split; [done|]. simpl.
    split; [rewrite heap_lookup_insert_ne by lia; exact Hod3|].
    split; [rewrite heap_lookup_insert_ne by lia; exact Hq3|].
    split; [rewrite heap_lookup_insert_ne by lia; by apply Hframe3|].
    split; [rewrite heap_lookup_insert_ne by lia; by apply Hframe3|].
    split; [rewrite heap_lookup_insert_ne by lia; by apply Hframe3|].
    split; [rewrite heap_lookup_insert_ne by lia; by apply Hframe3|].
    rewrite heap_length_insert. lia.
Qed.

Lemma enough_frames_sanitized (src : cube) n nframes groupgap :
  enough_frames src n nframes groupgap ->
  enough_frames (map (map (map nan_to_zero)) src) n nframes groupgap.
Proof. unfold enough_frames, len. by rewrite length_map. Qed.

Lemma hyper_shape_groups {A} (n gr r c : nat)
    (x : list (list (list (list A)))) :
  (0 < n)%nat -> hyper_shape n gr r c x -> shape1 x = Z.of_nat gr.
Proof.
  intros Hn [Hlen Hall]. destruct x as [|cb x]; simpl in *; [lia|].
  apply Forall_cons in Hall as [[Hcb _] _]. unfold shape1, len. simpl.
  by rewrite Hcb.
Qed.

(** The averaging branch for a 3-D dark (lines 147-171).  When the cadence
    of the dark is not that of the science exposure (and neither the skip
    nor the extrapolation applies), the dark that is subtracted and returned
    is a new object: its data are the frame averages of the sanitised dark,
    one per science group, its cadence keywords are those of the science
    exposure, and it carries the saving request.  The caller's dark object
    is not marked for saving, unlike in the matching-cadence branch; its
    array has had its NaN replaced. *)
Theorem averaged_cadence_3d (h : heap) sl dl out s d sdata spdq src p
    (n gr r c : nat) :
  h !! sl = Some (Sci s) ->
  h !! s_data s = Some (Arr (F4 sdata)) ->
  h !! s_pixeldq s = Some (Arr (Q2 spdq)) ->
  h !! dl = Some (Dark d) ->
  h !! d_data d = Some (Arr (F3 src)) ->
  h !! d_groupdq d = Some (Arr (Q2 p)) ->
  (0 < n)%nat ->
  hyper_shape n gr r c sdata ->
  plane_shape r c spdq ->
  Forall (plane_shape r c) src ->
  plane_shape r c p ->
  1 <= s_exp_nframes s -> 0 <= s_exp_groupgap s ->
  d_exp_nframes d <= s_exp_nframes s ->
  d_exp_groupgap d <= s_exp_groupgap s ->
  s_exp_nframes s <> d_exp_nframes d
    \/ s_exp_groupgap s <> d_exp_groupgap d ->
  total_frames (shape1 sdata) (s_exp_nframes s) (s_exp_groupgap s)
    <= total_frames (len src) (d_exp_nframes d) (d_exp_groupgap d) ->
  enough_frames src gr (s_exp_nframes s) (s_exp_groupgap s) ->
  let src' := map (map (map nan_to_zero)) src in
  let avg := averaged_group src' (s_exp_nframes s) (s_exp_groupgap s)
               <$> seq 0 gr in
  exists out_data avg_dark h' o davg,
    do_correction_data dark_fill sl dl out h
      = Ok ((out_data, Some avg_dark), h')
    /\ avg_dark <> dl
    /\ h' !! avg_dark = Some (Dark davg)
    /\ d_exp_nframes davg = s_exp_nframes s
    /\ d_exp_groupgap davg = s_exp_groupgap s
    /\ d_exp_ngroups davg = Z.of_nat gr
    /\ d_groupdq davg = d_groupdq d
    /\ d_output_name davg = out
    /\ d_save davg = match out with Some _ => true | None => false end
    /\ h' !! d_data davg = Some (Arr (F3 avg))
    /\ h' !! out_data = Some (Sci o)
    /\ s_cal_step o = "COMPLETE"
    /\ h' !! s_data o
       = Some (Arr (F4 (subtracted_data (F3 avg)
                          (default 1 (s_exp_intstart s)) sdata)))
    /\ h' !! s_pixeldq o = Some (Arr (Q2 (por spdq p)))
    /\ h' !! dl = Some (Dark d)
    /\ h' !! d_data d = Some (Arr (F3 src')).
Proof.
  intros Hs Hsd Hsq Hd Ha Hg Hn Hshape Hpdq Hsrc Hp Hnf1 Hgap0 Hnf Hgap
    Hdiff Htot Hfr src' avg.
  pose proof (hyper_shape_groups _ _ _ _ _ Hn Hshape) as Hgr.
  pose (h2 := <[d_data d := Arr (F3 src')]> h).
  assert (Hfin : do_correction_data dark_fill sl dl out h =
                 apply_dark dark_fill sl dl out (len sdata) (shape1 sdata)
                   (s_exp_nframes s) (s_exp_groupgap s)
                   (d_exp_nframes d) (d_exp_groupgap d) h2).
  { rewrite (do_correction_data_stages _ _ _ _ _ _ _ _ _ Hs Hsd Hd Ha I).
    unfold extrapolation_step. simpl dark_ngroups.
    destruct (Z.gtb_spec
                (total_frames (shape1 sdata) (s_exp_nframes s)
                   (s_exp_groupgap s))
                (total_frames (len src) (d_exp_nframes d)
                   (d_exp_groupgap d))) as [Hgt|_]; [lia|].
    unfold finish_correction.
    assert (Hc : (d_exp_nframes d >? s_exp_nframes s)
                 || (d_exp_groupgap d >? s_exp_groupgap s) = false).
    { destruct (Z.gtb_spec (d_exp_nframes d) (s_exp_nframes s)); [lia|].
      destruct (Z.gtb_spec (d_exp_groupgap d) (s_exp_groupgap s)); [lia|].
      done. }
    rewrite Hc, run_bind, (replace_nans_run _ _ _ _ Hd Ha). done. }
  pose proof (lookup_lt_Some _ _ _ Ha) as Hlt.
  assert (Hlen2 : length h2 = length h) by apply heap_length_insert.
  assert (Hs2 : h2 !! sl = Some (Sci s)).
  { unfold h2. rewrite heap_lookup_insert_ne; [done|]. intros Heq. congruence. }
  assert (Hsd2 : h2 !! s_data s = Some (Arr (F4 sdata))).
  { unfold h2. rewrite heap_lookup_insert_ne; [done|]. congruence. }
  assert (Hsq2 : h2 !! s_pixeldq s = Some (Arr (Q2 spdq))).
  { unfold h2. rewrite heap_lookup_insert_ne; [done|]. congruence. }
  assert (Hd2 : h2 !! dl = Some (Dark d)).
  { unfold h2. rewrite heap_lookup_insert_ne; [done|]. intros Heq. congruence. }
  assert (Ha2 : h2 !! d_data d = Some (Arr (F3 src'))).
  { unfold h2. by apply heap_lookup_insert_eq. }
  assert (Hg2 : h2 !! d_groupdq d = Some (Arr (Q2 p))).
  { unfold h2. rewrite heap_lookup_insert_ne; [done|]. congruence. }
  pose proof (lookup_lt_Some _ _ _ Hs2) as Hl1.
  pose proof (lookup_lt_Some _ _ _ Hsd2) as Hl2.
  pose proof (lookup_lt_Some _ _ _ Hsq2) as Hl3.
  pose proof (lookup_lt_Some _ _ _ Hd2) as Hl4.
  pose proof (lookup_lt_Some _ _ _ Ha2) as Hl5.
  pose proof (lookup_lt_Some _ _ _ Hg2) as Hl6.
  (* the averaged dark *)
  pose (h3 := averaged_heap h2 d (F3 avg) (Z.of_nat gr) (s_exp_nframes s)
                (s_exp_groupgap s)).
  assert (Havg : average_dark_frames_3d dark_fill dl (Z.of_nat gr)
                   (s_exp_nframes s) (s_exp_groupgap s) h2
                 = Ok ((length h2 + 1)%nat, h3)).
  { rewrite (average_dark_frames_3d_run _ h2 dl d src' _ _ _ Hd2 Ha2).
    rewrite full_cube_ok by (unfold shape2, shape1, len; lia). simpl.
    rewrite (average_groups_ok src' _ gr);
      [done|done|done|by rewrite length_replicate|].
    by apply enough_frames_sanitized. }
  pose (davg0 := mkDarkData (length h2) (d_groupdq d) (s_exp_nframes s)
                   (s_exp_groupgap s) (Z.of_nat gr) false None).
  pose (davg := match out with
                | Some name => with_save davg0 name
                | None => davg0
                end).
  assert (Hav3 : h3 !! (length h2 + 1)%nat = Some (Dark davg0)).
  { unfold h3, averaged_heap. by rewrite (lookup_new h2 _ 1). }
  pose (h4 := <[(length h2 + 1)%nat := Dark davg]> h3).
  assert (Hsave : match out with
                  | Some name => set_save (length h2 + 1)%nat name
                  | None => mret tt
                  end h3 = Ok (tt, h4)).
  { unfold h4, davg. destruct out as [name|].
    - by apply set_save_run.
    - rewrite run_ret. f_equal. f_equal. symmetry.
      by apply list_insert_id. }
  assert (Hlen3 : length h3 = (length h2 + 2)%nat).
  { unfold h3, averaged_heap. rewrite length_app. done. }
  assert (Hlen4 : length h4 = (length h2 + 2)%nat).
  { unfold h4. by rewrite heap_length_insert. }
  assert (Hold4 : forall l x, h2 !! l = Some x -> h4 !! l = Some x).
  { intros l x Hl. pose proof (lookup_lt_Some _ _ _ Hl).
    unfold h4. rewrite heap_lookup_insert_ne by lia.
    unfold h3, averaged_heap. by apply lookup_grown. }
  assert (Hav4 : h4 !! (length h2 + 1)%nat = Some (Dark davg)).
  { unfold h4. apply heap_lookup_insert_eq. lia. }
  assert (Hdata4 : h4 !! length h2 = Some (Arr (F3 avg))).
  { unfold h4. rewrite heap_lookup_insert_ne by lia.
    unfold h3, averaged_heap.
    rewrite <- (Nat.add_0_r (length h2)) at 1. by rewrite (lookup_new h2 _ 0). }
  assert (Hdd : d_data davg = length h2) by (unfold davg; by destruct out).
  assert (Hdg : d_groupdq davg = d_groupdq d) by (unfold davg; by destruct out).
  pose (odata := subtracted_data (F3 avg) (default 1 (s_exp_intstart s))
                   sdata).
  pose (newdq := por spdq p).
  pose (h5 := subtracted_heap h4 s odata spdq newdq).
  assert (Hsub : subtract_dark sl (length h2 + 1)%nat h4
                 = Ok ((length h4 + 2)%nat, h5)).
  { apply (subtract_dark_ok h4 sl _ s davg sdata spdq (F3 avg) (Q2 p)
             n gr r c); try done.
    - by apply Hold4.
    - by apply Hold4.
    - by apply Hold4.
    - by rewrite Hdd.
    - rewrite Hdg. by apply Hold4.
    - simpl. destruct (averaged_cube_shape r c src' gr (s_exp_nframes s)
                         (s_exp_groupgap s)) as [Hl Hall]; try done.
      + destruct (covers_sanitized 0 r c src) as [_ H]; [|exact H].
        split; [lia|done].
      + by apply enough_frames_sanitized.
      + split; [|done]. fold avg in Hl. lia. }
  destruct (subtracted_heap_lookups h4 s odata spdq newdq)
    as (Ho5 & Hod5 & Hq5 & Hframe5).
  fold h5 in Ho5, Hod5, Hq5, Hframe5.
  assert (Hneq : (s_exp_nframes s =? d_exp_nframes d) = false
                 \/ (s_exp_groupgap s =? d_exp_groupgap d) = false).
  { destruct Hdiff as [H|H]; [left|right]; by apply Z.eqb_neq. }
  assert (Hmatch : (s_exp_nframes s =? d_exp_nframes d)
                   && (s_exp_groupgap s =? d_exp_groupgap d) = false).
  { destruct Hneq as [-> | ->]; [done|by rewrite andb_false_r]. }
  assert (Happ : apply_dark dark_fill sl dl out (len sdata)
                   (shape1 sdata) (s_exp_nframes s) (s_exp_groupgap s)
                   (d_exp_nframes d) (d_exp_groupgap d) h2
                 = Ok (((length h4 + 2)%nat, Some (length h2 + 1)%nat),
                       <[(length h4 + 2)%nat :=
                           Sci (with_cal_step
                                  (mkScienceData (length h4)
                                     (length h4 + 3)%nat
                                     (s_exp_nframes s) (s_exp_groupgap s)
                                     (s_exp_intstart s) (s_cal_step s))
                                  "COMPLETE")]> h5)).
  { unfold apply_dark. rewrite Hmatch.
    rewrite run_bind, (run_get_dark _ _ _ Hd2).
    rewrite run_bind, (run_get_arr _ _ _ Ha2).
    rewrite run_bind, Hgr, Havg.
    rewrite run_bind, Hsave.
    rewrite run_bind, Hsub.
    rewrite run_bind.
    rewrite (set_cal_step_run h5 (length h4 + 2)%nat _ "COMPLETE")
      by exact Ho5.
    by rewrite run_ret. }
  exists (length h4 + 2)%nat, (length h2 + 1)%nat.
  eexists _, _, davg. split; [rewrite Hfin; exact Happ|].
  assert (Hl5' : length h5 = (length h4 + 4)%nat).
  { unfold h5, subtracted_heap. rewrite length_app. done. }
  split; [lia|].
  split; [rewrite heap_lookup_insert_ne by lia; by apply Hframe5|].
  split; [unfold davg; by destruct out|].
  split; [unfold davg; by destruct out|].
  split; [unfold davg; by destruct out|].
  split; [done|].
  split; [unfold davg; by destruct out|].
  split; [unfold davg; by destruct out|].
  split.
  { rewrite Hdd. rewrite heap_lookup_insert_ne by lia. by apply Hframe5. }
  split; [apply heap_lookup_insert_eq; lia|].
  split; [done|]. simpl.
  split; [rewrite heap_lookup_insert_ne by lia; exact Hod5|].
  split; [rewrite heap_lookup_insert_ne by lia; exact Hq5|].
  split.
  { rewrite heap_lookup_insert_ne by lia. apply Hframe5. by apply Hold4. }
  rewrite heap_lookup_insert_ne by lia. apply Hframe5. by apply Hold4.
Qed.

(** The 4-D averager leaves the integrations beyond the science exposure
    as the constructor made them (lines 266-299), and [subtract_dark] takes
    the last integration of the dark whenever the exposure is a later
    segment (line 378).  Together: for a dark of more integrations than the
    science exposure and a start integration other than 1, what is
    subtracted from every science group is not an average of dark frames
    but the unfilled content of the new array. *)
Theorem averaged_4d_segment_subtracts_unfilled (h : heap) sl dl s d
    sdata spdq (src : list cube) q (n gr gd : nat) (nframes groupgap : Z) :
  h !! sl = Some (Sci s) ->
  h !! s_data s = Some (Arr (F4 sdata)) ->
  h !! s_pixeldq s = Some (Arr (Q2 spdq)) ->
  h !! dl = Some (Dark d) ->
  h !! d_data d = Some (Arr (F4 src)) ->
  h !! d_groupdq d = Some (Arr (Q4 q)) ->
  let rows := Z.to_nat (shape2 src) in
  let cols := Z.to_nat (shape3 src) in
  hyper_shape n gr rows cols sdata ->
  plane_shape rows cols spdq ->
  hyper_shape (length src) gd rows cols src ->
  dq_ready rows cols (F4 src) (Q4 q) ->
  (n < length src)%nat ->
  default 1 (s_exp_intstart s) <> 1 ->
  1 <= nframes -> 0 <= groupgap ->
  Forall (fun x => enough_frames x gr nframes groupgap) (take n src) ->
  exists avg h1 out h' o,
    average_dark_frames_4d dark_fill dl (Z.of_nat n) (Z.of_nat gr)
      nframes groupgap h = Ok (avg, h1)
    /\ subtract_dark sl avg h1 = Ok (out, h')
    /\ h' !! out = Some (Sci o)
    /\ h' !! s_data o
       = Some (Arr (F4 (map (map (fun p =>
                                    plane_map2 fsub p
                                      (replicate rows
                                         (replicate cols dark_fill))))
                             sdata))).
Proof.
  intros Hs Hsd Hsq Hd Ha Hg rows cols Hshape Hpdq [_ Hsrc] [Hql Hq] Hn
    Hstart Hnf Hgap Hfr.
  set (c0 := replicate gr (replicate rows (replicate cols dark_fill))).
  set (data := imap (fun it o =>
                       if decide (it < n)%nat
                       then averaged_group (default [] (src !! it))
                              nframes groupgap <$> seq 0 gr
                       else o) (replicate (length src) c0)).
  assert (Hfull : full_cube (Z.of_nat gr) (shape2 src) (shape3 src) dark_fill
                  = Ok c0).
  { apply full_cube_ok; unfold shape3, shape2, shape1, len; lia. }
  assert (Hints : average_ints src (Z.of_nat n) (Z.of_nat gr) nframes
                    groupgap (replicate (Z.to_nat (len src)) c0)
                  = Ok data).
  { unfold data. replace (length src) with (Z.to_nat (len src))
      by (unfold len; lia).
    apply average_ints_ok; try done.
    - lia.
    - rewrite length_replicate. unfold len. lia.
    - apply Forall_replicate. unfold c0. by rewrite length_replicate. }
  pose (h1 := averaged_heap h d (F4 data) (Z.of_nat gr) nframes groupgap).
  assert (Havg : average_dark_frames_4d dark_fill dl (Z.of_nat n)
                   (Z.of_nat gr) nframes groupgap h
                 = Ok ((length h + 1)%nat, h1)).
  { rewrite (average_dark_frames_4d_run _ _ _ _ _ _ _ _ _ Hd Ha).
    rewrite Hfull. simpl.
    destruct (Z.gtb_spec (len src) (Z.of_nat n)) as [_|Hle];
      [|unfold len in Hle; lia].
    rewrite Hints. done. }
  assert (Hlend : length data = length src).
  { unfold data. by rewrite length_imap, length_replicate. }
  assert (Hlast : last data = Some c0).
  { rewrite last_lookup, Hlend. unfold data.
    rewrite list_lookup_imap, lookup_replicate_2 by lia. simpl.
    rewrite decide_False by lia. done. }
  assert (Hcov : Forall (covers gr rows cols) data).
  { apply Forall_lookup. intros it cb Hcb.
    pose proof (lookup_lt_Some _ _ _ Hcb) as Hlt. rewrite Hlend in Hlt.
    unfold data in Hcb.
    rewrite list_lookup_imap, lookup_replicate_2 in Hcb by lia.
    simpl in Hcb. injection Hcb as <-.
    assert (Hcube : forall x, cube_shape gr rows cols x ->
                      covers gr rows cols x).
    { intros x [Hl Hall]. split; [lia|done]. }
    apply Hcube. case_decide as Hit.
    - destruct (lookup_lt_is_Some_2 src it) as [x Hx]; [lia|].
      rewrite Hx. simpl. apply averaged_cube_shape; try done.
      + by destruct (Forall_lookup_1 _ _ _ _ Hsrc Hx).
      + apply (Forall_lookup_1 _ _ it x Hfr). by rewrite lookup_take_lt.
    - apply fill_cube_shape. }
  pose (davg := mkDarkData (length h) (d_groupdq d) nframes groupgap
                  (Z.of_nat gr) false None).
  assert (Hav1 : h1 !! (length h + 1)%nat = Some (Dark davg)).
  { unfold h1, averaged_heap. by rewrite (lookup_new h _ 1). }
  assert (Hda1 : h1 !! length h = Some (Arr (F4 data))).
  { unfold h1, averaged_heap.
    rewrite <- (Nat.add_0_r (length h)) at 1. by rewrite (lookup_new h _ 0). }
  assert (Hold : forall l x, h !! l = Some x -> h1 !! l = Some x).
  { intros l x Hl. unfold h1, averaged_heap. by apply lookup_grown. }
  pose (odata := subtracted_data (F4 data) (default 1 (s_exp_intstart s))
                   sdata).
  assert (Hsub : subtract_dark sl (length h + 1)%nat h1
                 = Ok ((length h1 + 2)%nat,
                       subtracted_heap h1 s odata spdq
                         (por spdq (dark_plane (Q4 q))))).
  { apply (subtract_dark_ok h1 sl _ s davg sdata spdq (F4 data) (Q4 q)
             n gr rows cols); try done; try (by apply Hold).
    - split; [|done]. intros Hnil. rewrite Hnil in Hlend. simpl in Hlend. lia.
    - split; [|done]. by rewrite Hlend. }
  destruct (subtracted_heap_lookups h1 s odata spdq
              (por spdq (dark_plane (Q4 q)))) as (Ho & Hod & _ & _).
  eexists _, _, _, _, _. split; [exact Havg|]. split; [exact Hsub|].
  split; [exact Ho|]. etrans; [exact Hod|]. do 3 f_equal.
  unfold odata, subtracted_data.
  destruct Hshape as [_ Hall].
  rewrite <- (imap_const (map _) sdata). apply imap_ext.
  intros i integ Hinteg. simpl.
  destruct (Forall_lookup_1 _ _ _ _ Hall Hinteg) as [Hgr _].
  rewrite <- (imap_const _ integ). apply imap_ext.
  intros j pl Hpl. simpl. f_equal.
  pose proof (lookup_lt_Some _ _ _ Hpl) as Hj. rewrite Hgr in Hj.
  rewrite decide_False by tauto. rewrite Hlast. simpl.
  unfold c0. by rewrite lookup_replicate_2.
Qed.

End Extras.

(** ** Worked inputs for the further properties *)

Definition run_subtract_matching :=
  Eval vm_compute in (subtract_dark 2%nat 5%nat heap_matching).

Lemma run_subtract_matching_eq :
  subtract_dark 2%nat 5%nat heap_matching = run_subtract_matching.
Proof. reflexivity. Qed.

Lemma subtract_dark_frame_witness :
  exists out h',
    subtract_dark 2%nat 5%nat heap_matching = Ok (out, h')
    /\ (forall l c, heap_matching !! l = Some c -> h' !! l = Some c)
    /\ length h' = 10%nat.
Proof.
  eexists _, _. split; [exact run_subtract_matching_eq|].
  destruct (subtract_dark_frame (PA:=B64.arith) heap_matching _ 2%nat 5%nat
              _ _ _ _ _ _ _ eq_refl eq_refl eq_refl eq_refl eq_refl eq_refl
              run_subtract_matching_eq)
    as (Hframe & Hlen & _).
  split; [exact Hframe|exact Hlen].
Defined.

Definition run_extrapolate_matching :=
  Eval vm_compute in (extrapolate_dark 5%nat 1 heap_matching).

Lemma run_extrapolate_matching_eq :
  extrapolate_dark 5%nat 1 heap_matching = run_extrapolate_matching.
Proof. reflexivity. Qed.

Lemma extrapolate_dark_frame_witness :
  exists h',
    extrapolate_dark 5%nat 1 heap_matching = Ok (tt, h')
    /\ h' !! 3%nat = heap_matching !! 3%nat
    /\ length h' = 7%nat.
Proof.
  eexists. split; [exact run_extrapolate_matching_eq|].
  destruct (extrapolate_dark_frame (PA:=B64.arith) heap_matching _ 5%nat
              _ _ 1 eq_refl eq_refl run_extrapolate_matching_eq)
    as (_ & Hold & Hlen & _).
  split; [exact Hold|exact Hlen].
Defined.

Lemma averaged_dark_shares_groupdq_witness :
  exists avg h' davg,
    average_dark_frames_4d B64.zero 5%nat 1 2 1 0 heap_4d = Ok (avg, h')
    /\ h' !! avg = Some (Dark davg)
    /\ d_groupdq davg = 4%nat.
Proof.
  eexists _, _. 
  destruct (averaged_dark_shares_groupdq (PA:=B64.arith) B64.zero heap_4d _
              5%nat _ _ _ 1 2 1 0 eq_refl eq_refl
              (or_intror run_average_4d_eq))
    as (_ & _ & davg & Hd & Hg & _).
  exists davg. split; [exact run_average_4d_eq|].
  split; [exact Hd|exact Hg].
Defined.

Lemma extrapolate_dark_negative_witness :
  extrapolate_dark 5%nat (-1) heap_matching = Raise ValueError.
Proof.
  exact (extrapolate_dark_negative (PA:=B64.arith) heap_matching 5%nat _ _
           (-1) eq_refl eq_refl ltac:(simpl; lia) ltac:(lia)).
Defined.

Lemma extrapolate_dark_zero_witness :
  exists h1 d1,
    extrapolate_dark 5%nat 0 heap_matching = Ok (tt, h1)
    /\ h1 !! 5%nat = Some (Dark d1)
    /\ d_exp_ngroups d1 = 2.
Proof.
  destruct (extrapolate_dark_zero (PA:=B64.arith) heap_matching 5%nat _ _
              eq_refl eq_refl ltac:(simpl; lia))
    as (h1 & d1 & Hrun & Hd & _ & _ & Hn).
  exists h1, d1. split; [exact Hrun|]. split; [exact Hd|exact Hn].
Defined.

Lemma extrapolation_is_tight_witness :
  total_frames (2 + 6) 2 1 >= 20
  /\ total_frames (2 + (6 - 1)) 2 1 < 20 + 1.
Proof.
  destruct (extrapolation_is_tight 20 2 2 1 6 ltac:(lia) ltac:(lia)
              ltac:(vm_compute; reflexivity) eq_refl)
    as (_ & Hge & Hlt & _).
  split; [exact Hge|exact Hlt].
Defined.

Lemma skip_keeps_extrapolated_dark_witness :
  exists k out_data h' d1,
    do_correction_data B64.zero 2%nat 5%nat None heap_coarse
      = Ok ((out_data, None), h')
    /\ 1 <= k
    /\ h' !! 5%nat = Some (Dark d1)
    /\ d_exp_ngroups d1 = 2 + k.
Proof.
  destruct (skip_keeps_extrapolated_dark (PA:=B64.arith) B64.zero heap_coarse
              2%nat 5%nat None _ _ _ _ _
              eq_refl eq_refl eq_refl eq_refl eq_refl
              ltac:(left; simpl; lia) ltac:(simpl; lia) ltac:(simpl; lia)
              ltac:(simpl; lia) ltac:(vm_compute; reflexivity))
    as (k & out_data & h' & d1 & Hrun & Hk & Hd & Hn & _).
  exists k, out_data, h', d1.
  split; [exact Hrun|]. split; [exact Hk|]. split; [exact Hd|exact Hn].
Defined.

Lemma average_dark_frames_3d_short_source_witness :
  exists avg h' davg data p1 p2,
    average_dark_frames_3d B64.zero 5%nat 3 3 0 heap_average = Ok (avg, h')
    /\ h' !! avg = Some (Dark davg)
    /\ h' !! d_data davg = Some (Arr (F3 data))
    /\ data !! 1%nat = Some p1
    /\ pixel p1 0 0 = Some (fdiv (f64 7) (of_int 1))
    /\ data !! 2%nat = Some p2
    /\ pixel p2 0 0 = Some B64.nan.
Proof.
  destruct (average_dark_frames_3d_short_source (PA:=B64.arith) B64.zero
              heap_average 5%nat _ _ 3 3 0 1 1 eq_refl eq_refl
              ltac:(discriminate) ltac:(vm_compute; shape)
              ltac:(lia) ltac:(lia) ltac:(lia))
    as (avg & h' & davg & data & Hrun & Hd & Ha & _ & Hall).
  destruct (Hall 1 ltac:(lia)) as (p1 & Hp1 & _ & Hpix1).
  destruct (Hall 2 ltac:(lia)) as (p2 & Hp2 & _ & Hpix2).
  destruct (Hpix1 0%nat 0%nat ltac:(lia) ltac:(lia)) as [Hcut _].
  destruct (Hpix2 0%nat 0%nat ltac:(lia) ltac:(lia)) as [_ Hnan].
  destruct (Hcut ltac:(vm_compute; reflexivity))
    as (vs & Hlen & Hvs & Hmean).
  exists avg, h', davg, data, p1, p2.
  split; [exact Hrun|]. split; [exact Hd|]. split; [exact Ha|].
  split; [exact Hp1|]. split; [|split; [exact Hp2|]].
  - destruct (Hvs 0%nat ltac:(vm_compute; reflexivity))
      as (fr & v & Hfr & Hp & Hv).
    injection Hfr as <-. injection Hp as <-.
    destruct vs as [|w0 [|w1 vs]]; [discriminate| |].
    2:{ assert (Hl : len (w0 :: w1 :: vs) = 1) by exact Hlen.
        unfold len in Hl. simpl length in Hl. lia. }
    injection Hv as ->. exact Hmean.
  - exact (Hnan ltac:(vm_compute; shape)).
Defined.

Lemma average_dark_frames_3d_copy_out_of_range_witness :
  average_dark_frames_3d B64.zero 5%nat 5 1 0 heap_average
    = Raise IndexError.
Proof.
  exact (average_dark_frames_3d_copy_out_of_range (PA:=B64.arith) B64.zero
           heap_average 5%nat _ _ 5 0 eq_refl eq_refl
           ltac:(lia) ltac:(lia) ltac:(vm_compute; shape)).
Defined.

Lemma subtract_dark_too_few_dark_groups_witness :
  subtract_dark 2%nat 5%nat heap_short = Raise IndexError.
Proof.
  exact (subtract_dark_too_few_dark_groups (PA:=B64.arith) heap_short
           2%nat 5%nat _ _ _ _ _ _ 1 3 1 1
           eq_refl eq_refl eq_refl eq_refl eq_refl eq_refl
           ltac:(vm_compute; shape) ltac:(lia) ltac:(vm_compute; shape)
           ltac:(vm_compute; shape) ltac:(vm_compute; shape)).
Defined.

Lemma subtract_dark_flags_union_witness :
  exists out h' o newdq w,
    subtract_dark 2%nat 5%nat heap_4d = Ok (out, h')
    /\ h' !! out = Some (Sci o)
    /\ h' !! s_pixeldq o = Some (Arr (Q2 newdq))
    /\ pixelZ newdq 0 0 = Some w
    /\ Z.testbit w 0 = true /\ Z.testbit w 1 = true
    /\ Z.testbit w 2 = true /\ Z.testbit w 3 = false.
Proof.
  destruct (subtract_dark_flags_union (PA:=B64.arith) heap_4d 2%nat 5%nat
              _ _ _ _ _ _ 1 2 1 1
              eq_refl eq_refl eq_refl eq_refl eq_refl eq_refl
              ltac:(vm_compute; shape) ltac:(vm_compute; shape)
              ltac:(vm_compute; shape) ltac:(vm_compute; shape))
    as (out & h' & o & newdq & Hrun & Ho & Hq & _ & Hbits).
  destruct (Hbits 0%nat 0%nat ltac:(lia) ltac:(lia))
    as (v & w & Hv & Hw & Hb).
  exists out, h', o, newdq, w.
  split; [exact Hrun|]. split; [exact Ho|]. split; [exact Hq|].
  split; [exact Hw|].
  injection Hv as <-.
  split; [exact (Hb 0)|]. split; [exact (Hb 1)|].
  split; [exact (Hb 2)|exact (Hb 3)].
Defined.

Lemma matching_cadence_direct_witness :
  exists out_data h' o,
    do_correction_data B64.zero 2%nat 5%nat (Some "dark.fits") heap_matching
      = Ok ((out_data, Some 5%nat), h')
    /\ h' !! out_data = Some (Sci o)
    /\ s_cal_step o = "COMPLETE"
    /\ h' !! 5%nat
       = Some (Dark (mkDarkData 3%nat 4%nat 1 0 2 true (Some "dark.fits"))).
Proof.
  destruct (matching_cadence_direct (PA:=B64.arith) B64.zero heap_matching
              2%nat 5%nat (Some "dark.fits") _ _ _ _ _ _ 1 2 1 2
              eq_refl eq_refl eq_refl eq_refl eq_refl eq_refl
              ltac:(simpl; lia)
              ltac:(vm_compute; shape) ltac:(vm_compute; shape)
              ltac:(vm_compute; shape) ltac:(vm_compute; shape)
              eq_refl eq_refl ltac:(vm_compute; shape))
    as (out_data & h' & o & Hrun & Ho & Hc & _ & _ & _ & _ & _ & Hd & _).
  exists out_data, h', o.
  split; [exact Hrun|]. split; [exact Ho|]. split; [exact Hc|exact Hd].
Defined.

Lemma averaged_cadence_3d_witness :
  exists out_data avg_dark h' o davg,
    do_correction_data B64.zero 2%nat 5%nat (Some "dark.fits") heap_average
      = Ok ((out_data, Some avg_dark), h')
    /\ avg_dark <> 5%nat
    /\ h' !! avg_dark = Some (Dark davg)
    /\ d_exp_nframes davg = 2
    /\ d_exp_ngroups davg = 2
    /\ d_save davg = true
    /\ h' !! out_data = Some (Sci o)
    /\ s_cal_step o = "COMPLETE"
    /\ h' !! 5%nat = Some (Dark (mkDarkData 3%nat 4%nat 1 0 4 false None)).
Proof.
  destruct (averaged_cadence_3d (PA:=B64.arith) B64.zero heap_average
              2%nat 5%nat (Some "dark.fits") _ _ _ _ _ _ 1 2 1 1
              eq_refl eq_refl eq_refl eq_refl eq_refl eq_refl
              ltac:(lia)
              ltac:(vm_compute; shape) ltac:(vm_compute; shape)
              ltac:(vm_compute; shape) ltac:(vm_compute; shape)
              ltac:(simpl; lia) ltac:(simpl; lia)
              ltac:(simpl; lia) ltac:(simpl; lia)
              ltac:(left; simpl; lia)
              ltac:(vm_compute; shape) ltac:(vm_compute; shape))
    as (out_data & avg_dark & h' & o & davg & Hrun & Hne & Hd & Hnf & _
        & Hng & _ & _ & Hsave & _ & Ho & Hc & _ & _ & Hdl & _).
  exists out_data, avg_dark, h', o, davg.
  split; [exact Hrun|]. split; [exact Hne|]. split; [exact Hd|].
  split; [exact Hnf|]. split; [exact Hng|]. split; [exact Hsave|].
  split; [exact Ho|]. split; [exact Hc|exact Hdl].
Defined.

(** A later segment (start integration 2) of one integration, against a
    4-D dark of two integrations. *)
Definition heap_segment : heap :=
  [ Arr (F4 [[ [[f64 10]]; [[f64 20]] ]]);
    Arr (Q2 [[1]]);
    Sci (mkScienceData 0%nat 1%nat 1 0 (Some 2) "");
    Arr (F4 [ [ [[f64 1]]; [[f64 2]] ]; [ [[f64 3]]; [[f64 4]] ] ]);
    Arr (Q4 [ [ [[2]]; [[0]] ]; [ [[4]]; [[0]] ] ]);
    Dark (mkDarkData 3%nat 4%nat 1 0 2 false None) ].

Lemma averaged_4d_segment_subtracts_unfilled_witness :
  exists avg h1 out h' o,
    average_dark_frames_4d B64.zero 5%nat 1 2 1 0 heap_segment
      = Ok (avg, h1)
    /\ subtract_dark 2%nat avg h1 = Ok (out, h')
    /\ h' !! out = Some (Sci o)
    /\ h' !! s_data o
       = Some (Arr (F4 [[ plane_map2 fsub [[f64 10]] [[B64.zero]];
                          plane_map2 fsub [[f64 20]] [[B64.zero]] ]])).
Proof.
  destruct (averaged_4d_segment_subtracts_unfilled (PA:=B64.arith) B64.zero
              heap_segment 2%nat 5%nat _ _ _ _ _ _ 1 2 2 1 0
              eq_refl eq_refl eq_refl eq_refl eq_refl eq_refl
              ltac:(vm_compute; shape) ltac:(vm_compute; shape)
              ltac:(vm_compute; shape) ltac:(vm_compute; shape)
              ltac:(simpl; lia) ltac:(simpl; lia) ltac:(lia) ltac:(lia)
              ltac:(vm_compute; shape))
    as (avg & h1 & out & h' & o & Havg & Hsub & Ho & Hod).
  exists avg, h1, out, h', o.
  split; [exact Havg|]. split; [exact Hsub|]. split; [exact Ho|exact Hod].
Defined.
